(** * Collab-Notes realtime relay: a shallow embedding of
      [server/realtime-server.mjs] and the properties of its rooms,
      presence, access resolution and tiered persistence.

    Modelling conventions.
    - Every event handler of the server (socket message, close, pong, the
      sweeper interval, a persist timer) is one total function from the
      process state to the next state and the list of socket calls it
      made; awaited I/O is resolved inside the step, its failures being
      chosen by the environment record [Env] carried by the event.
    - The one handler that reads the process state before an awaited
      load and writes it after is the join of a document without a room
      ([getRoom]).  It has a second form in two or three steps,
      [join_begun] and [load_returned], between which any other handler
      may run.
    - [Date.now()] and [new Date()] read the field [now] of [Env].
    - JS [Map]s and [Set]s that the code iterates are insertion-ordered
      association lists ([JSMap], [JSSet]); maps that are only looked up
      are [gmap]s.
    - Yjs, Node's [Buffer] and jose are libraries: they are interfaces
      ([Class]es) whose operations the handlers call.  Of the ws
      transport the model keeps each socket's [readyState] and records
      the calls made on sockets.
    - A promise that rejects outside every [try] ends the process: the
      step records the event [Exit], and a run stops there.
    - JSON numbers are restricted to integers. *)

From Stdlib Require Import ZArith.
From stdpp Require Import base option list strings gmap sorting.

Set Warnings "-register-all,-clear-no-such-hyp".
Local Open Scope Z_scope.

(** ** JSON values as [JSON.parse] and property reads produce them *)

Inductive JsVal : Type :=
  | JUndefined
  | JNull
  | JBool (b : bool)
  | JNum (n : Z)
  | JStr (s : string)
  | JArr (items : list JsVal)
  | JObj (fields : list (string * JsVal)).

(** [!!v] of JavaScript. *)
Definition truthy (v : JsVal) : bool :=
  match v with
  | JUndefined | JNull => false
  | JBool b => b
  | JNum n => negb (n =? 0)
  | JStr s => negb (String.eqb s "")
  | JArr _ | JObj _ => true
  end.

(** [typeof v === "string"]. *)
Definition is_string (v : JsVal) : bool :=
  match v with JStr _ => true | _ => false end.

(** [v === "lit"] for a string literal. *)
Definition str_eq (v : JsVal) (lit : string) : bool :=
  match v with JStr s => String.eqb s lit | _ => false end.

Fixpoint assoc (k : string) (fields : list (string * JsVal)) : JsVal :=
  match fields with
  | [] => JUndefined
  | (k', v) :: rest => if String.eqb k k' then v else assoc k rest
  end.

(** [o?.k] for the keys the server reads: a parsed object yields its own
    property, every other value yields [undefined]. *)
Definition prop (o : JsVal) (k : string) : JsVal :=
  match o with
  | JObj fields => assoc k fields
  | _ => JUndefined
  end.

(** [v ?? d]. *)
Definition nullish (v d : JsVal) : JsVal :=
  match v with
  | JUndefined | JNull => d
  | _ => v
  end.

(** ** Insertion-ordered maps and sets (JS [Map] and [Set]) *)

Module JSMap.
Section defs.
Context {K V : Type} `{EqDecision K}.

Fixpoint get (k : K) (m : list (K * V)) : option V :=
  match m with
  | [] => None
  | (k', v) :: rest => if decide (k = k') then Some v else get k rest
  end.

(** [m.set(k, v)]: an existing key keeps its position. *)
Fixpoint set (k : K) (v : V) (m : list (K * V)) : list (K * V) :=
  match m with
  | [] => [(k, v)]
  | (k', v') :: rest =>
      if decide (k = k') then (k, v) :: rest else (k', v') :: set k v rest
  end.

Fixpoint delete (k : K) (m : list (K * V)) : list (K * V) :=
  match m with
  | [] => []
  | (k', v') :: rest =>
      if decide (k = k') then delete k rest else (k', v') :: delete k rest
  end.

Definition has (k : K) (m : list (K * V)) : bool :=
  match get k m with Some _ => true | None => false end.

Definition keys (m : list (K * V)) : list K := m.*1.
Definition values (m : list (K * V)) : list V := m.*2.
End defs.
End JSMap.

Module JSSet.
Section defs.
Context {K : Type} `{EqDecision K}.

Definition has (k : K) (s : list K) : bool := bool_decide (k ∈ s).

Definition add (k : K) (s : list K) : list K :=
  if has k s then s else s ++ [k].

Fixpoint delete (k : K) (s : list K) : list K :=
  match s with
  | [] => []
  | k' :: rest => if decide (k = k') then delete k rest else k' :: delete k rest
  end.
End defs.
End JSSet.

(** ** Data model *)

Definition Conn := nat.
Definition Bytes := list Byte.byte.

(** The Yjs operations the server calls.  [Y.applyUpdate] mutates the
    document and may throw; [Threw d] carries the document as the failed
    call left it. *)
Inductive ApplyResult (D : Type) : Type :=
  | Applied (d : D)
  | Threw (d : D).
Arguments Applied {D} d.
Arguments Threw {D} d.

Class Yjs := {
  YDoc : Type;
  Y_newDoc : YDoc;
  Y_applyUpdate : YDoc → Bytes → ApplyResult YDoc;
  Y_encodeStateAsUpdate : YDoc → Bytes
}.

(** Node's [Buffer]: [Buffer.from(update).toString("base64")] and
    [new Uint8Array(Buffer.from(payload, "base64"))]; the latter throws
    ([None]) on some non-string payloads. *)
Class NodeBuffer := {
  Buffer_toBase64 : Bytes → string;
  Buffer_fromBase64 : JsVal → option Bytes
}.

(** jose's [jwtVerify] under the process secret: the payload's [userId]
    and [email] claims when the token verifies, [None] when it throws. *)
Record JwtPayload := {
  claim_userId : option string;
  claim_email : option string
}.

Class Jose := {
  jwtVerify : JsVal → option JwtPayload
}.

(** Rows of the durable store (Prisma models). *)
Record Document := {
  document_id : string;
  document_ownerId : string
}.

Record DocumentShare := {
  share_documentId : string;
  share_userId : string;
  share_permission : string
}.

Record DocumentShareLink := {
  link_documentId : string;
  link_token : string;
  link_permission : string;
  link_expiresAt : option Z
}.

Record DocumentVersion := {
  version_documentId : string;
  version_authorId : string;
  version_summary : string;
  version_snapshot : string;
  version_createdAt : Z
}.

Record Database := {
  documents : list Document;
  documentShares : list DocumentShare;
  documentShareLinks : list DocumentShareLink;
  documentVersions : list DocumentVersion
}.

(** What the awaited calls of one handler run do: which of them throw,
    and the clock. *)
Inductive RedisSetOutcome := SetOk | SetConnectionClosed | SetOtherError.

Record Env := {
  now : Z;
  throws_findDocument : bool;
  throws_findShare : bool;
  throws_findShareLink : bool;
  throws_findVersion : bool;
  throws_createVersion : bool;
  throws_redisGet : bool;
  redisSet : RedisSetOutcome
}.

(** ** Queries of the durable store *)

(** [prisma.document.findUnique({ where: { id } })]. *)
Definition findUnique_document (db : Database) (id : string) : option Document :=
  List.find (λ d, String.eqb (document_id d) id) (documents db).

(** [prisma.documentShare.findUnique({ where: { documentId_userId } })]. *)
Definition findUnique_share (db : Database) (documentId userId : string)
  : option DocumentShare :=
  List.find (λ s, String.eqb (share_documentId s) documentId
                  && String.eqb (share_userId s) userId) (documentShares db).

(** Prisma's reading of the [token] argument of a [where] clause: a
    string is compared for equality; any other value is either refused
    with a validation error ([None]) or read as a string filter. *)
Class Prisma := {
  Prisma_stringFilter : JsVal → option (string → bool)
}.

Definition tokenFilter `{Prisma} (token : JsVal) : option (string → bool) :=
  match token with
  | JStr t => Some (λ x, String.eqb x t)
  | _ => Prisma_stringFilter token
  end.

(** The [where] clause of the share-link query:
    [documentId, token, OR: [{expiresAt: null}, {expiresAt: {gt: now}}]]. *)
Definition link_matches (documentId : string) (token : string → bool) (t : Z)
    (l : DocumentShareLink) : bool :=
  String.eqb (link_documentId l) documentId
  && token (link_token l)
  && match link_expiresAt l with
     | None => true
     | Some e => t <? e
     end.

Definition findFirst_shareLink (db : Database) (documentId : string)
    (token : string → bool) (t : Z) : option DocumentShareLink :=
  List.find (link_matches documentId token t) (documentShareLinks db).

(** [prisma.documentVersion.findFirst({ where: { documentId },
    orderBy: { createdAt: "desc" } })]: the row of the document with the
    greatest [createdAt]; among equal timestamps the earliest row. *)
Fixpoint latest_of (best : option DocumentVersion) (rows : list DocumentVersion)
  : option DocumentVersion :=
  match rows with
  | [] => best
  | r :: rest =>
      match best with
      | None => latest_of (Some r) rest
      | Some b =>
          if version_createdAt b <? version_createdAt r
          then latest_of (Some r) rest
          else latest_of best rest
      end
  end.

Definition findFirst_version (db : Database) (documentId : string)
  : option DocumentVersion :=
  latest_of None
    (List.filter (λ v, String.eqb (version_documentId v) documentId)
                 (documentVersions db)).

(** ** Access resolution *)

Inductive AccessError := invalidId | notFound | noAccess.

Inductive Access :=
  | access_error (e : AccessError)
  | access_permission (p : string).

(** [getDocumentAccess]; [None] is a rejected promise (a query outside
    the [try] threw, or Prisma refused the token). *)
Definition getDocumentAccess `{Prisma} (db : Database) (env : Env)
    (documentId : JsVal) (userId : string) (shareToken : JsVal) : option Access :=
  if negb (truthy documentId) || negb (is_string documentId)
  then Some (access_error invalidId) else
  match documentId with
  | JStr id =>
      if throws_findDocument env then Some (access_error notFound) else
      match findUnique_document db id with
      | None => Some (access_error notFound)
      | Some document =>
          if String.eqb (document_ownerId document) userId
          then Some (access_permission "owner")
          else if throws_findShare env then None
          else match findUnique_share db id userId with
               | Some share => Some (access_permission (share_permission share))
               | None =>
                   if truthy shareToken then
                     match tokenFilter shareToken with
                     | Some token =>
                         if throws_findShareLink env then None else
                         match findFirst_shareLink db id token (now env) with
                         | Some link =>
                             Some (access_permission (link_permission link))
                         | None => Some (access_error noAccess)
                         end
                     | None => None
                     end
                   else Some (access_error noAccess)
               end
      end
  | _ => Some (access_error invalidId)
  end.

(** ** Process state *)

Record Presence := {
  p_userId : string;
  p_name : JsVal;
  p_avatarColor : JsVal;
  p_cursorPosition : JsVal;
  p_selectionRange : JsVal;
  p_isTyping : JsVal;
  p_lastHeartbeat : Z
}.

(** The value of [connectionState.get(connection)]. *)
Record ConnState := {
  st_documentId : string;
  st_userId : string;
  st_permission : string
}.

(** A room object.  [room_id] is its identity as a JS object: the persist
    timer's closure holds the object, not its registry key.
    [room_persistTimeout] is [Some delay] while a timer is pending. *)
Record Room `{Yjs} := {
  room_id : nat;
  room_doc : YDoc;
  room_connections : list Conn;
  room_presence : list (Conn * Presence);
  room_persistTimeout : option Z
}.

Inductive ReadyState := CONNECTING | OPEN | CLOSING | CLOSED.

(** What [verifyToken] returns of a token's claims. *)
Record Auth := { auth_userId : string; auth_email : string }.

(** The call that a [getRoom] in flight awaits. *)
Inductive Awaited := cache_get | version_findFirst.

(** A [join_document] handler suspended inside [getRoom]: it found no
    room for its document and awaits a snapshot load, while other
    handlers run.  The record holds the locals of the handler and of
    [getRoom]: the frame, the verified claims, the granted permission,
    the fresh document as the loads so far have left it, the [restored]
    flag and the call in flight. *)
Record Suspended `{Yjs} := {
  sus_connection : Conn;
  sus_message : JsVal;
  sus_auth : Auth;
  sus_permission : string;
  sus_documentId : string;
  sus_doc : YDoc;
  sus_restored : bool;
  sus_awaits : Awaited
}.

#[global] Instance ReadyState_eq_dec : EqDecision ReadyState.
Proof. solve_decision. Defined.

(** The two persistence tiers and what the process remembers of them:
    [redis] is the status of the ioredis client ([None]: no client). *)
Record Storage := {
  redis : option string;
  redisAvailable : bool;
  redisStore : gmap string string;
  prisma : Database;
  lastDbPersist : gmap string Z
}.

(** [detached] holds the room objects that left the registry while their
    persist timer was pending: only the timer's closure still reaches
    them.  [suspended] holds the join handlers that wait in [getRoom].
    [clients] is [wss.clients] with each socket's [readyState];
    [nextConn] names the next socket the server accepts. *)
Record State `{Yjs} := {
  rooms : list (string * Room);
  detached : list (string * Room);
  suspended : list Suspended;
  connectionState : gmap Conn ConnState;
  clients : list (Conn * ReadyState);
  storage : Storage;
  operations : list Z;
  nextRoomId : nat;
  nextConn : Conn
}.

(** Server-to-client frames ([JSON.stringify] of these payloads). *)
Inductive Frame :=
  | error_frame (message : string)
  | doc_sync (documentId : string) (update : string)
  | yjs_update (documentId : string) (update : JsVal)
  | presence_update (documentId : string) (users : list Presence).

(** Calls on a socket, in the order the handler makes them.  [Exit] is
    the end of the process: a promise rejected in a handler that does
    not catch it. *)
Inductive Event :=
  | Send (connection : Conn) (frame : Frame)
  | CloseCall (connection : Conn)
  | Terminate (connection : Conn)
  | Ping (connection : Conn)
  | Exit.

Definition heartbeatIntervalMs : Z := 5000.
Definition heartbeatTimeoutMs : Z := 10000.
Definition persistDelayMs : Z := 1000.
Definition dbPersistIntervalMs : Z := 5000.

Section Server.
Context `{Yjs, NodeBuffer, Jose, Prisma}.

(** *** Field updates *)

Definition with_rooms (r : list (string * Room)) (s : State) : State :=
  {| rooms := r; detached := detached s; suspended := suspended s;
     connectionState := connectionState s; clients := clients s;
     storage := storage s; operations := operations s;
     nextRoomId := nextRoomId s; nextConn := nextConn s |}.

Definition with_detached (d : list (string * Room)) (s : State) : State :=
  {| rooms := rooms s; detached := d; suspended := suspended s;
     connectionState := connectionState s; clients := clients s;
     storage := storage s; operations := operations s;
     nextRoomId := nextRoomId s; nextConn := nextConn s |}.

Definition with_connectionState (c : gmap Conn ConnState) (s : State) : State :=
  {| rooms := rooms s; detached := detached s; suspended := suspended s;
     connectionState := c; clients := clients s;
     storage := storage s; operations := operations s;
     nextRoomId := nextRoomId s; nextConn := nextConn s |}.

Definition with_clients (c : list (Conn * ReadyState)) (s : State) : State :=
  {| rooms := rooms s; detached := detached s; suspended := suspended s;
     connectionState := connectionState s; clients := c;
     storage := storage s; operations := operations s;
     nextRoomId := nextRoomId s; nextConn := nextConn s |}.

Definition with_storage (st : Storage) (s : State) : State :=
  {| rooms := rooms s; detached := detached s; suspended := suspended s;
     connectionState := connectionState s; clients := clients s;
     storage := st; operations := operations s;
     nextRoomId := nextRoomId s; nextConn := nextConn s |}.

Definition with_operations (o : list Z) (s : State) : State :=
  {| rooms := rooms s; detached := detached s; suspended := suspended s;
     connectionState := connectionState s; clients := clients s;
     storage := storage s; operations := o;
     nextRoomId := nextRoomId s; nextConn := nextConn s |}.

Definition with_suspended (h : list Suspended) (s : State) : State :=
  {| rooms := rooms s; detached := detached s; suspended := h;
     connectionState := connectionState s; clients := clients s;
     storage := storage s; operations := operations s;
     nextRoomId := nextRoomId s; nextConn := nextConn s |}.

Definition room_with_doc (d : YDoc) (r : Room) : Room :=
  {| room_id := room_id r; room_doc := d;
     room_connections := room_connections r;
     room_presence := room_presence r;
     room_persistTimeout := room_persistTimeout r |}.

Definition room_with_connections (c : list Conn) (r : Room) : Room :=
  {| room_id := room_id r; room_doc := room_doc r;
     room_connections := c;
     room_presence := room_presence r;
     room_persistTimeout := room_persistTimeout r |}.

Definition room_with_presence (p : list (Conn * Presence)) (r : Room) : Room :=
  {| room_id := room_id r; room_doc := room_doc r;
     room_connections := room_connections r;
     room_presence := p;
     room_persistTimeout := room_persistTimeout r |}.

Definition room_with_persistTimeout (t : option Z) (r : Room) : Room :=
  {| room_id := room_id r; room_doc := room_doc r;
     room_connections := room_connections r;
     room_presence := room_presence r;
     room_persistTimeout := t |}.

Definition presence_with_lastHeartbeat (t : Z) (p : Presence) : Presence :=
  {| p_userId := p_userId p; p_name := p_name p;
     p_avatarColor := p_avatarColor p;
     p_cursorPosition := p_cursorPosition p;
     p_selectionRange := p_selectionRange p;
     p_isTyping := p_isTyping p; p_lastHeartbeat := t |}.

(** *** The transport (ws) *)

(** [connection.readyState]; a socket the server no longer tracks is
    closed. *)
Definition readyState (cl : list (Conn * ReadyState)) (c : Conn) : ReadyState :=
  default CLOSED (JSMap.get c cl).

(** [connection.close()] starts the closing handshake of an open
    socket. *)
Definition ws_close (c : Conn) (cl : list (Conn * ReadyState))
  : list (Conn * ReadyState) :=
  match JSMap.get c cl with
  | Some OPEN | Some CONNECTING => JSMap.set c CLOSING cl
  | _ => cl
  end.

(** [connection.terminate()] destroys the socket of a connection that
    is not yet closed. *)
Definition ws_terminate (c : Conn) (cl : list (Conn * ReadyState))
  : list (Conn * ReadyState) :=
  match JSMap.get c cl with
  | Some CLOSED | None => cl
  | Some _ => JSMap.set c CLOSING cl
  end.

(** *** Codec and keys *)

Definition encodeUpdate (update : Bytes) : string := Buffer_toBase64 update.
Definition decodeUpdate (payload : JsVal) : option Bytes := Buffer_fromBase64 payload.
Definition getRedisKey (documentId : string) : string :=
  ("doc:" +:+ documentId +:+ ":state")%string.

Definition nonempty (s : string) : bool := negb (String.eqb s "").

Definition verifyToken (token : JsVal) : option Auth :=
  match jwtVerify token with
  | None => None
  | Some payload =>
      match claim_userId payload, claim_email payload with
      | Some u, Some e =>
          if nonempty u && nonempty e
          then Some {| auth_userId := u; auth_email := e |}
          else None
      | _, _ => None
      end
  end.

(** [redisAvailable && redis && redis.status === "ready"]. *)
Definition cacheReady (st : Storage) : bool :=
  redisAvailable st &&
  match redis st with
  | Some status => String.eqb status "ready"
  | None => false
  end.

(** *** Rooms *)

(** The [try] block that applies a stored snapshot: the document it
    leaves and whether [restored] was set. *)
Definition restoreFrom (doc : YDoc) (snapshot : string) : YDoc * bool :=
  match decodeUpdate (JStr snapshot) with
  | None => (doc, false)
  | Some update =>
      match Y_applyUpdate doc update with
      | Applied d => (d, true)
      | Threw d => (d, false)
      end
  end.

(** The cache half of [getRoom]. *)
Definition restoreFromRedis (env : Env) (st : Storage) (documentId : string)
    (doc : YDoc) : YDoc * bool :=
  if cacheReady st then
    if throws_redisGet env then (doc, false) else
    match redisStore st !! getRedisKey documentId with
    | Some persisted =>
        if nonempty persisted then restoreFrom doc persisted else (doc, false)
    | None => (doc, false)
    end
  else (doc, false).

(** The durable half of [getRoom]. *)
Definition restoreFromDatabase (env : Env) (st : Storage) (documentId : string)
    (doc : YDoc) : YDoc * bool :=
  if throws_findVersion env then (doc, false) else
  match findFirst_version (prisma st) documentId with
  | Some latestVersion =>
      if nonempty (version_snapshot latestVersion)
      then restoreFrom doc (version_snapshot latestVersion)
      else (doc, false)
  | None => (doc, false)
  end.

Definition getRoom (env : Env) (documentId : string) (s : State) : Room * State :=
  match JSMap.get documentId (rooms s) with
  | Some room => (room, s)
  | None =>
      let doc := Y_newDoc in
      let '(doc, restored) := restoreFromRedis env (storage s) documentId doc in
      let '(doc, restored) :=
        if negb restored
        then restoreFromDatabase env (storage s) documentId doc
        else (doc, restored) in
      let room := {| room_id := nextRoomId s; room_doc := doc;
                     room_connections := []; room_presence := [];
                     room_persistTimeout := None |} in
      (room,
       {| rooms := JSMap.set documentId room (rooms s);
          detached := detached s; suspended := suspended s;
          connectionState := connectionState s; clients := clients s;
          storage := storage s; operations := operations s;
          nextRoomId := S (nextRoomId s); nextConn := nextConn s |})
  end.

(** The [while] loop shared by [recordOperation] and [getOpsPerMinute]. *)
Fixpoint shiftOld (t : Z) (ops : list Z) : list Z :=
  match ops with
  | [] => []
  | o :: rest => if 60000 <? t - o then shiftOld t rest else ops
  end.

Definition recordOperation (t : Z) (ops : list Z) : list Z :=
  shiftOld t (ops ++ [t]).

Definition getOpsPerMinute (t : Z) (ops : list Z) : list Z * nat :=
  let ops' := shiftOld t ops in (ops', length ops').

(** *** Tiered persistence *)

Definition with_redisAvailable (b : bool) (st : Storage) : Storage :=
  {| redis := redis st; redisAvailable := b; redisStore := redisStore st;
     prisma := prisma st; lastDbPersist := lastDbPersist st |}.

Definition with_redisStore (kv : gmap string string) (st : Storage) : Storage :=
  {| redis := redis st; redisAvailable := redisAvailable st; redisStore := kv;
     prisma := prisma st; lastDbPersist := lastDbPersist st |}.

Definition with_redis (status : option string) (st : Storage) : Storage :=
  {| redis := status; redisAvailable := redisAvailable st;
     redisStore := redisStore st;
     prisma := prisma st; lastDbPersist := lastDbPersist st |}.

(** [prisma.documentVersion.create({ data })]: the row is stamped by
    the store's clock. *)
Definition create_version (documentId authorId summary snapshot : string)
    (t : Z) (db : Database) : Database :=
  {| documents := documents db; documentShares := documentShares db;
     documentShareLinks := documentShareLinks db;
     documentVersions :=
       documentVersions db ++
       [{| version_documentId := documentId; version_authorId := authorId;
           version_summary := summary; version_snapshot := snapshot;
           version_createdAt := t |}] |}.

(** The durable half of [persistRoom], from [const now = Date.now()]. *)
Definition persistToDatabase (env : Env) (documentId snapshot : string)
    (st : Storage) : Storage :=
  let lastPersist := default 0 (lastDbPersist st !! documentId) in
  if now env - lastPersist <? dbPersistIntervalMs then st else
  if throws_findVersion env then st else
  let latestVersion := findFirst_version (prisma st) documentId in
  if match latestVersion with
     | None => true
     | Some v => negb (String.eqb (version_snapshot v) snapshot)
     end
  then
    if throws_findDocument env then st else
    match findUnique_document (prisma st) documentId with
    | Some doc =>
        if throws_createVersion env then st else
        {| redis := redis st; redisAvailable := redisAvailable st;
           redisStore := redisStore st;
           prisma := create_version documentId (document_ownerId doc)
                       "Auto-save" snapshot (now env) (prisma st);
           lastDbPersist := <[documentId := now env]> (lastDbPersist st) |}
    | None => st
    end
  else st.

Definition persistRoom (env : Env) (documentId : string) (room : Room)
    (st : Storage) : Storage :=
  let update := Y_encodeStateAsUpdate (room_doc room) in
  let snapshot := encodeUpdate update in
  if cacheReady st then
    match redisSet env with
    | SetOk =>
        with_redisStore (<[getRedisKey documentId := snapshot]> (redisStore st)) st
    | SetConnectionClosed =>
        persistToDatabase env documentId snapshot (with_redisAvailable false st)
    | SetOtherError =>
        persistToDatabase env documentId snapshot st
    end
  else persistToDatabase env documentId snapshot st.

(** [schedulePersist]: at most one pending timer per room object. *)
Definition schedulePersist (st : Storage) (room : Room) : Room :=
  match room_persistTimeout room with
  | Some _ => room
  | None =>
      let delay := if cacheReady st then persistDelayMs else dbPersistIntervalMs in
      room_with_persistTimeout (Some delay) room
  end.

(** *** Fan-out and presence *)

Definition broadcast (cl : list (Conn * ReadyState)) (room : Room)
    (payload : Frame) (except : option Conn) : list Event :=
  flat_map
    (λ connection,
       if negb (bool_decide (readyState cl connection = OPEN)) then []
       else if bool_decide (except = Some connection) then []
       else [Send connection payload])
    (room_connections room).

(** One iteration of the loop that fills [usersByUserId]. *)
Definition keepLatest (usersByUserId : list (string * Presence))
    (presence : Presence) : list (string * Presence) :=
  match JSMap.get (p_userId presence) usersByUserId with
  | Some existing =>
      if p_lastHeartbeat existing <? p_lastHeartbeat presence
      then JSMap.set (p_userId presence) presence usersByUserId
      else usersByUserId
  | None => JSMap.set (p_userId presence) presence usersByUserId
  end.

(** [Array.from(usersByUserId.values())] after the loop. *)
Definition presenceUsers (room : Room) : list Presence :=
  JSMap.values (fold_left keepLatest (JSMap.values (room_presence room)) []).

Definition broadcastPresence (cl : list (Conn * ReadyState))
    (documentId : string) (room : Room) : list Event :=
  broadcast cl room (presence_update documentId (presenceUsers room)) None.

(** *** The sweeper *)

(** The state the eviction loop of [cleanupRoom] works on. *)
Record Sweep := {
  sw_room : Room;
  sw_connectionState : gmap Conn ConnState;
  sw_clients : list (Conn * ReadyState);
  sw_events : list Event;
  sw_updated : bool
}.

Definition stale (t : Z) (presence : Presence) : bool :=
  heartbeatTimeoutMs <? t - p_lastHeartbeat presence.

(** One iteration over [room.presence.entries()]. *)
Definition evictStale (t : Z) (acc : Sweep) (entry : Conn * Presence) : Sweep :=
  let '(connection, presence) := entry in
  if stale t presence then
    {| sw_room :=
         room_with_connections
           (JSSet.delete connection (room_connections (sw_room acc)))
           (room_with_presence
              (JSMap.delete connection (room_presence (sw_room acc)))
              (sw_room acc));
       sw_connectionState := delete connection (sw_connectionState acc);
       sw_clients := ws_terminate connection (sw_clients acc);
       sw_events := sw_events acc ++ [Terminate connection];
       sw_updated := true |}
  else acc.

Definition sweepRoom (t : Z) (room : Room) (s : State) : Sweep :=
  fold_left (evictStale t) (room_presence room)
    {| sw_room := room; sw_connectionState := connectionState s;
       sw_clients := clients s; sw_events := []; sw_updated := false |}.

(** [cleanupRoom(documentId, room)] on the registered room object. *)
Definition cleanupRoom (env : Env) (documentId : string) (s : State)
  : State * list Event :=
  match JSMap.get documentId (rooms s) with
  | None => (s, [])
  | Some room =>
      let sw := sweepRoom (now env) room s in
      let room' := sw_room sw in
      let events :=
        sw_events sw ++
        (if sw_updated sw
         then broadcastPresence (sw_clients sw) documentId room'
         else []) in
      let s1 := with_clients (sw_clients sw)
                  (with_connectionState (sw_connectionState sw) s) in
      if bool_decide (length (room_connections room') = 0%nat) then
        (with_detached
           (match room_persistTimeout room' with
            | Some _ => detached s1 ++ [(documentId, room')]
            | None => detached s1
            end)
           (with_rooms (JSMap.delete documentId (rooms s1)) s1),
         events)
      else (with_rooms (JSMap.set documentId room' (rooms s1)) s1, events)
  end.

(** One iteration over [rooms.entries()] in the interval callback. *)
Definition sweepOne (env : Env) (acc : State * list Event) (documentId : string)
  : State * list Event :=
  let '(s', events) := cleanupRoom env documentId acc.1 in
  (s', acc.2 ++ events).

Definition cleanupRooms (env : Env) (s : State) : State * list Event :=
  fold_left (sweepOne env) (JSMap.keys (rooms s)) (s, []).

Definition pingClients (cl : list (Conn * ReadyState)) : list Event :=
  flat_map
    (λ entry, if bool_decide (entry.2 = OPEN) then [Ping entry.1] else [])
    cl.

(** The [setInterval] callback. *)
Definition onInterval (env : Env) (s : State) : State * list Event :=
  let '(s', events) := cleanupRooms env s in
  (s', events ++ pingClients (clients s')).

(** *** The persist timer *)

Definition timerOf (rid : nat) (entry : string * Room) : bool :=
  bool_decide (room_id entry.2 = rid)
  && match room_persistTimeout entry.2 with Some _ => true | None => false end.

Fixpoint removeFirst {A} (f : A → bool) (l : list A) : list A :=
  match l with
  | [] => []
  | x :: rest => if f x then rest else x :: removeFirst f rest
  end.

(** The callback that [schedulePersist] gave to [setTimeout], for the
    room object [rid]. *)
Definition onPersistTimer (env : Env) (rid : nat) (s : State) : State * list Event :=
  match List.find (timerOf rid) (rooms s) with
  | Some (documentId, room) =>
      let room' := room_with_persistTimeout None room in
      (with_storage (persistRoom env documentId room' (storage s))
         (with_rooms (JSMap.set documentId room' (rooms s)) s), [])
  | None =>
      match List.find (timerOf rid) (detached s) with
      | Some (documentId, room) =>
          let room' := room_with_persistTimeout None room in
          (with_storage (persistRoom env documentId room' (storage s))
             (with_detached (removeFirst (timerOf rid) (detached s)) s), [])
      | None => (s, [])
      end
  end.

(** *** Frame handlers *)

Definition deny (c : Conn) (message : string) (s : State) : State * list Event :=
  (with_clients (ws_close c (clients s)) s,
   [Send c (error_frame message); CloseCall c]).

(** The [join_document] branch, run to its end: no other handler runs
    between its awaits.  A rejected [getDocumentAccess] is caught
    nowhere (the listener is [async] and nothing handles its promise):
    the process ends. *)
Definition onJoin (env : Env) (c : Conn) (message : JsVal) (s : State)
  : State * list Event :=
  let token := nullish (prop message "token") JNull in
  let documentId := prop message "documentId" in
  let shareToken := nullish (prop message "shareToken") JNull in
  if negb (truthy token) || negb (truthy documentId) then deny c "Unauthorized" s
  else
    match verifyToken token with
    | None => deny c "Unauthorized" s
    | Some auth =>
        match getDocumentAccess (prisma (storage s)) env documentId
                (auth_userId auth) shareToken with
        | None => (s, [Exit])
        | Some (access_error notFound) | Some (access_error invalidId) =>
            deny c "Document not found" s
        | Some (access_error noAccess) => deny c "Access denied" s
        | Some (access_permission permission) =>
            match documentId with
            | JStr id =>
                let '(room, s) := getRoom env id s in
                let room :=
                  room_with_connections (JSSet.add c (room_connections room)) room in
                let name :=
                  nullish (prop (prop message "user") "name")
                          (JStr (auth_email auth)) in
                let avatarColor :=
                  nullish (prop (prop message "user") "avatarColor")
                          (JStr "#0ea5e9") in
                let cursorPosition :=
                  nullish (prop message "cursorPosition") (JNum 0) in
                let selectionRange :=
                  nullish (prop message "selectionRange")
                          (JObj [("start", JNum 0); ("end", JNum 0)]%string) in
                let s :=
                  with_connectionState
                    (<[c := {| st_documentId := id;
                               st_userId := auth_userId auth;
                               st_permission := permission |}]>
                       (connectionState s)) s in
                let room :=
                  room_with_presence
                    (JSMap.set c
                       {| p_userId := auth_userId auth; p_name := name;
                          p_avatarColor := avatarColor;
                          p_cursorPosition := cursorPosition;
                          p_selectionRange := selectionRange;
                          p_isTyping := JBool false;
                          p_lastHeartbeat := now env |}
                       (room_presence room)) room in
                let s := with_rooms (JSMap.set id room (rooms s)) s in
                let fullUpdate := Y_encodeStateAsUpdate (room_doc room) in
                (s,
                 Send c (doc_sync id (encodeUpdate fullUpdate))
                   :: broadcastPresence (clients s) id room)
            | _ => (s, [])
            end
        end
    end.

(** The [yjs_update] branch. *)
Definition onYjsUpdate (env : Env) (c : Conn) (message : JsVal)
    (state : ConnState) (room : Room) (s : State) : State * list Event :=
  if negb (truthy (prop message "update")) then (s, [])
  else if String.eqb (st_permission state) "viewer"
  then (s, [Send c (error_frame "Read-only access")])
  else
    match decodeUpdate (prop message "update") with
    | None => (s, [])
    | Some update =>
        match Y_applyUpdate (room_doc room) update with
        | Threw d =>
            (with_rooms
               (JSMap.set (st_documentId state) (room_with_doc d room) (rooms s)) s,
             [])
        | Applied d =>
            let room := schedulePersist (storage s) (room_with_doc d room) in
            (with_operations (recordOperation (now env) (operations s))
               (with_rooms (JSMap.set (st_documentId state) room (rooms s)) s),
             broadcast (clients s) room
               (yjs_update (st_documentId state) (prop message "update"))
               (Some c))
        end
    end.

(** The [cursor_update] branch. *)
Definition onCursorUpdate (env : Env) (c : Conn) (message : JsVal)
    (state : ConnState) (room : Room) (s : State) : State * list Event :=
  match JSMap.get c (room_presence room) with
  | None => (s, [])
  | Some presence =>
      let presence :=
        {| p_userId := p_userId presence; p_name := p_name presence;
           p_avatarColor := p_avatarColor presence;
           p_cursorPosition :=
             nullish (prop message "cursorPosition") (p_cursorPosition presence);
           p_selectionRange :=
             nullish (prop message "selectionRange") (p_selectionRange presence);
           p_isTyping := nullish (prop message "isTyping") (p_isTyping presence);
           p_lastHeartbeat := now env |} in
      let room :=
        room_with_presence (JSMap.set c presence (room_presence room)) room in
      (with_rooms (JSMap.set (st_documentId state) room (rooms s)) s,
       broadcastPresence (clients s) (st_documentId state) room)
  end.

(** Removal of a connection from the room of its state: the body shared
    by [leave_document] and the [close] handler. *)
Definition leaveRoom (c : Conn) (state : ConnState) (room : Room) (s : State)
  : State * list Event :=
  let room :=
    room_with_presence (JSMap.delete c (room_presence room))
      (room_with_connections (JSSet.delete c (room_connections room)) room) in
  (with_connectionState (delete c (connectionState s))
     (with_rooms (JSMap.set (st_documentId state) room (rooms s)) s),
   broadcastPresence (clients s) (st_documentId state) room).

(** [presence.lastHeartbeat = Date.now()] on the entry of [c], if any:
    the [heartbeat] branch and the [pong] handler. *)
Definition refreshHeartbeat (env : Env) (c : Conn) (state : ConnState)
    (room : Room) (s : State) : State :=
  match JSMap.get c (room_presence room) with
  | Some presence =>
      with_rooms
        (JSMap.set (st_documentId state)
           (room_with_presence
              (JSMap.set c (presence_with_lastHeartbeat (now env) presence)
                 (room_presence room)) room)
           (rooms s)) s
  | None => s
  end.

(** [connection.on("message", ...)]; [data] is [None] when
    [JSON.parse] throws. *)
Definition onMessage (env : Env) (c : Conn) (data : option JsVal) (s : State)
  : State * list Event :=
  match data with
  | None => (s, [])
  | Some message =>
      let type := prop message "type" in
      if negb (truthy type) then (s, [])
      else if str_eq type "join_document" then onJoin env c message s
      else
        match connectionState s !! c with
        | None => (s, [Send c (error_frame "Not joined")])
        | Some state =>
            match JSMap.get (st_documentId state) (rooms s) with
            | None => (s, [])
            | Some room =>
                if str_eq type "yjs_update"
                then onYjsUpdate env c message state room s
                else if str_eq type "cursor_update"
                then onCursorUpdate env c message state room s
                else if str_eq type "leave_document"
                then leaveRoom c state room s
                else if str_eq type "heartbeat"
                then (refreshHeartbeat env c state room s, [])
                else (s, [])
            end
        end
  end.

(** *** A join overtaken by other handlers *)

(** The checks of the join branch up to the call of [getRoom]: the
    claims, the permission and the document of a join that is
    granted. *)
Definition granted (env : Env) (message : JsVal) (s : State)
  : option (Auth * string * string) :=
  let token := nullish (prop message "token") JNull in
  let documentId := prop message "documentId" in
  let shareToken := nullish (prop message "shareToken") JNull in
  if negb (truthy token) || negb (truthy documentId) then None
  else
    match verifyToken token with
    | None => None
    | Some auth =>
        match getDocumentAccess (prisma (storage s)) env documentId
                (auth_userId auth) shareToken with
        | Some (access_permission permission) =>
            match documentId with
            | JStr id => Some (auth, permission, id)
            | _ => None
            end
        | _ => None
        end
    end.

(** The join branch from [room.connections.add(connection)] to its end,
    on the room that [getRoom] returned. *)
Definition enter (env : Env) (c : Conn) (message : JsVal) (auth : Auth)
    (permission id : string) (room : Room) (s : State) : State * list Event :=
  let room :=
    room_with_connections (JSSet.add c (room_connections room)) room in
  let name :=
    nullish (prop (prop message "user") "name") (JStr (auth_email auth)) in
  let avatarColor :=
    nullish (prop (prop message "user") "avatarColor") (JStr "#0ea5e9") in
  let cursorPosition := nullish (prop message "cursorPosition") (JNum 0) in
  let selectionRange :=
    nullish (prop message "selectionRange")
            (JObj [("start", JNum 0); ("end", JNum 0)]%string) in
  let s :=
    with_connectionState
      (<[c := {| st_documentId := id; st_userId := auth_userId auth;
                 st_permission := permission |}]> (connectionState s)) s in
  let room :=
    room_with_presence
      (JSMap.set c
         {| p_userId := auth_userId auth; p_name := name;
            p_avatarColor := avatarColor;
            p_cursorPosition := cursorPosition;
            p_selectionRange := selectionRange;
            p_isTyping := JBool false;
            p_lastHeartbeat := now env |}
         (room_presence room)) room in
  let s := with_rooms (JSMap.set id room (rooms s)) s in
  let fullUpdate := Y_encodeStateAsUpdate (room_doc room) in
  (s,
   Send c (doc_sync id (encodeUpdate fullUpdate))
     :: broadcastPresence (clients s) id room).

(** [rooms.set(documentId, room)] at the end of [getRoom], for the room
    it has built.  A room that another handler registered for the
    document in the meantime is replaced: it leaves the registry, and
    only its persist timer, if one is pending, still holds it. *)
Definition register (documentId : string) (room : Room) (s : State) : State :=
  {| rooms := JSMap.set documentId room (rooms s);
     detached :=
       match JSMap.get documentId (rooms s) with
       | Some replaced =>
           match room_persistTimeout replaced with
           | Some _ => detached s ++ [(documentId, replaced)]
           | None => detached s
           end
       | None => detached s
       end;
     suspended := suspended s;
     connectionState := connectionState s; clients := clients s;
     storage := storage s; operations := operations s;
     nextRoomId := S (nextRoomId s); nextConn := nextConn s |}.

(** A frame whose handler other handlers overtake.  Only a granted join
    of a document without a room waits for I/O inside [getRoom]: it
    issues [redis.get] when the cache is ready, the version query
    otherwise, and is suspended; a load reads its tier when it is
    issued.  Every other frame is handled as by [onMessage]. *)
Definition onJoinBegun (env : Env) (c : Conn) (message : JsVal) (s : State)
  : State * list Event :=
  if str_eq (prop message "type") "join_document" then
    match granted env message s with
    | Some (auth, permission, id) =>
        match JSMap.get id (rooms s) with
        | Some _ => onMessage env c (Some message) s
        | None =>
            let '(doc, restored, awaits) :=
              if cacheReady (storage s)
              then (restoreFromRedis env (storage s) id Y_newDoc, cache_get)
              else (restoreFromDatabase env (storage s) id Y_newDoc,
                    version_findFirst) in
            (with_suspended
               (suspended s ++
                  [{| sus_connection := c; sus_message := message;
                      sus_auth := auth; sus_permission := permission;
                      sus_documentId := id; sus_doc := doc;
                      sus_restored := restored; sus_awaits := awaits |}]) s,
             [])
        end
    | None => onMessage env c (Some message) s
    end
  else onMessage env c (Some message) s.

(** The awaited load of the [k]-th suspended join returns.  After a
    cache load that restored nothing the handler issues the version
    query and waits again; otherwise [getRoom] builds its room,
    registers it and returns, and the join branch runs to its end. *)
Definition onLoadReturned (env : Env) (k : nat) (s : State) : State * list Event :=
  match suspended s !! k with
  | None => (s, [])
  | Some h =>
      let s := with_suspended (delete k (suspended s)) s in
      match sus_awaits h, sus_restored h with
      | cache_get, false =>
          let '(doc, restored) :=
            restoreFromDatabase env (storage s) (sus_documentId h) (sus_doc h) in
          (with_suspended
             (suspended s ++
                [{| sus_connection := sus_connection h;
                    sus_message := sus_message h; sus_auth := sus_auth h;
                    sus_permission := sus_permission h;
                    sus_documentId := sus_documentId h; sus_doc := doc;
                    sus_restored := restored;
                    sus_awaits := version_findFirst |}]) s,
           [])
      | _, _ =>
          let room := {| room_id := nextRoomId s; room_doc := sus_doc h;
                         room_connections := []; room_presence := [];
                         room_persistTimeout := None |} in
          enter env (sus_connection h) (sus_message h) (sus_auth h)
            (sus_permission h) (sus_documentId h) room
            (register (sus_documentId h) room s)
      end
  end.

(** [connection.on("close", ...)]: the transport has dropped the socket
    from [wss.clients]. *)
Definition onClose (c : Conn) (s : State) : State * list Event :=
  let s := with_clients (JSMap.delete c (clients s)) s in
  match connectionState s !! c with
  | None => (s, [])
  | Some state =>
      match JSMap.get (st_documentId state) (rooms s) with
      | None => (with_connectionState (delete c (connectionState s)) s, [])
      | Some room => leaveRoom c state room s
      end
  end.

(** [connection.on("pong", ...)]. *)
Definition onPong (env : Env) (c : Conn) (s : State) : State * list Event :=
  match connectionState s !! c with
  | None => (s, [])
  | Some state =>
      match JSMap.get (st_documentId state) (rooms s) with
      | None => (s, [])
      | Some room => (refreshHeartbeat env c state room s, [])
      end
  end.

(** [wss.on("connection", ...)]: a fresh socket, open. *)
Definition onConnection (s : State) : State * list Event :=
  ({| rooms := rooms s; detached := detached s; suspended := suspended s;
      connectionState := connectionState s;
      clients := JSMap.set (nextConn s) OPEN (clients s);
      storage := storage s; operations := operations s;
      nextRoomId := nextRoomId s; nextConn := S (nextConn s) |}, []).

(** *** The relay as a transition system *)

(** What the event loop hands to the process.  [message_received] runs
    the handler of a frame to its end; [join_begun] and [load_returned]
    are the handler of a frame when others run between its awaits. *)
Inductive Input :=
  | connection_opened
  | message_received (c : Conn) (data : option JsVal) (env : Env)
  | join_begun (c : Conn) (message : JsVal) (env : Env)
  | load_returned (k : nat) (env : Env)
  | connection_closed (c : Conn)
  | pong_received (c : Conn) (env : Env)
  | interval_elapsed (env : Env)
  | persist_timer_fired (rid : nat) (env : Env)
  | redis_error
  | redis_connect
  | redis_status (status : string).

Definition step (s : State) (i : Input) : State * list Event :=
  match i with
  | connection_opened => onConnection s
  | message_received c data env => onMessage env c data s
  | join_begun c message env => onJoinBegun env c message s
  | load_returned k env => onLoadReturned env k s
  | connection_closed c => onClose c s
  | pong_received c env => onPong env c s
  | interval_elapsed env => onInterval env s
  | persist_timer_fired rid env => onPersistTimer env rid s
  | redis_error => (with_storage (with_redisAvailable false (storage s)) s, [])
  | redis_connect => (with_storage (with_redisAvailable true (storage s)) s, [])
  | redis_status status =>
      (with_storage (with_redis (Some status) (storage s)) s, [])
  end.

(** The process after start-up, over a durable store and a cache. *)
Definition initial (db : Database) (kv : gmap string string)
    (client : option string) : State :=
  {| rooms := []; detached := []; suspended := [];
     connectionState := ∅; clients := [];
     storage := {| redis := client; redisAvailable := false;
                   redisStore := kv; prisma := db; lastDbPersist := ∅ |};
     operations := []; nextRoomId := 0%nat; nextConn := 0%nat |}.

(** The handler ended the process. *)
Definition exits (events : list Event) : bool :=
  existsb (λ ev, match ev with Exit => true | _ => false end) events.

(** The process handles inputs until one ends it. *)
Fixpoint run (s : State) (inputs : list Input) : State :=
  match inputs with
  | [] => s
  | i :: rest => if exits (step s i).2 then s else run (step s i).1 rest
  end.

Inductive reachable (s0 : State) : State → Prop :=
  | reachable_start : reachable s0 s0
  | reachable_step s i :
      reachable s0 s → exits (step s i).2 = false → reachable s0 (step s i).1.
End Server.

(** ** Vocabulary of the properties *)

Section Vocabulary.
Context `{Yjs, NodeBuffer, Jose, Prisma}.

(** An event is well-sourced in a state when, if it carries a
    [presence_update], the payload's users are [presenceUsers] of the
    room that the state registers for the payload's document. *)
Definition sourced (s : State) (ev : Event) : Prop :=
  match ev with
  | Send _ (presence_update documentId users) =>
      ∃ room, JSMap.get documentId (rooms s) = Some room
              ∧ users = presenceUsers room
  | _ => True
  end.

(** The document a [presence_update] event is about. *)
Definition about (ev : Event) (documentId : string) : Prop :=
  match ev with
  | Send _ (presence_update documentId' _) => documentId' = documentId
  | _ => False
  end.

(** The connections a sweep at time [t] evicts from a room, and those
    it leaves. *)
Definition evicted (t : Z) (room : Room) : list Conn :=
  (filter (λ entry, stale t entry.2 = true) (room_presence room)).*1.

Definition survivors (t : Z) (room : Room) : list Conn :=
  filter (λ c, c ∉ evicted t room) (room_connections room).


Definition lastHeartbeatOf (s : State) (documentId : string) (c : Conn)
  : option Z :=
  room ← JSMap.get documentId (rooms s);
  presence ← JSMap.get c (room_presence room);
  Some (p_lastHeartbeat presence).

(** A share link of a document that has not expired at [t]. *)
Definition validLink (documentId : string) (t : Z) (l : DocumentShareLink) : Prop :=
  link_documentId l = documentId
  ∧ match link_expiresAt l with
    | None => True
    | Some e => t < e
    end.

(** The cache gives [getRoom] nothing to restore. *)
Definition cacheMiss (env : Env) (st : Storage) (documentId : string) : Prop :=
  cacheReady st = false
  ∨ throws_redisGet env = true
  ∨ redisStore st !! getRedisKey documentId = None
  ∨ redisStore st !! getRedisKey documentId = Some ""%string.

(** The durable store gives [getRoom] nothing to restore. *)
Definition durableMiss (env : Env) (st : Storage) (documentId : string) : Prop :=
  throws_findVersion env = true
  ∨ findFirst_version (prisma st) documentId = None
  ∨ ∃ v, findFirst_version (prisma st) documentId = Some v
         ∧ version_snapshot v = ""%string.

(** The document of a room that [getRoom] creates: the cache's bytes
    when the cache yields some, else the latest durable version's,
    else empty. *)
Definition loaded (env : Env) (st : Storage) (documentId : string) (doc : YDoc)
  : Prop :=
  (∀ persisted update d,
     cacheReady st = true → throws_redisGet env = false →
     redisStore st !! getRedisKey documentId = Some persisted →
     persisted ≠ ""%string →
     decodeUpdate (JStr persisted) = Some update →
     Y_applyUpdate Y_newDoc update = Applied d →
     doc = d)
  ∧ (∀ v update d,
       cacheMiss env st documentId →
       throws_findVersion env = false →
       findFirst_version (prisma st) documentId = Some v →
       version_snapshot v ≠ ""%string →
       decodeUpdate (JStr (version_snapshot v)) = Some update →
       Y_applyUpdate Y_newDoc update = Applied d →
       doc = d)
  ∧ (cacheMiss env st documentId → durableMiss env st documentId →
     doc = Y_newDoc).

(** What the [try] block of a load leaves of the document [d0] when it
    is given a stored snapshot, and whether it sets [restored]:
    [Y.applyUpdate(doc, decodeUpdate(snapshot))] either returns, or
    throws and is caught with the document as the failed call left
    it. *)
Inductive applies (d0 : YDoc) (snapshot : string) : YDoc → bool → Prop :=
  | applies_ok update d :
      decodeUpdate (JStr snapshot) = Some update →
      Y_applyUpdate d0 update = Applied d →
      applies d0 snapshot d true
  | applies_threw update d :
      decodeUpdate (JStr snapshot) = Some update →
      Y_applyUpdate d0 update = Threw d →
      applies d0 snapshot d false
  | applies_undecodable :
      decodeUpdate (JStr snapshot) = None →
      applies d0 snapshot d0 false.

(** A version row of the document than which none is more recent. *)
Definition mostRecent (db : Database) (documentId : string)
    (v : DocumentVersion) : Prop :=
  v ∈ documentVersions db
  ∧ version_documentId v = documentId
  ∧ ∀ w, w ∈ documentVersions db → version_documentId w = documentId →
         version_createdAt w ≤ version_createdAt v.

(** The cache stage of [getRoom] on a new document: the document it
    leaves and whether it restored it. *)
Inductive cacheLoad (env : Env) (st : Storage) (documentId : string)
  : YDoc → bool → Prop :=
  | cache_not_ready :
      cacheReady st = false →
      cacheLoad env st documentId Y_newDoc false
  | cache_get_threw :
      cacheReady st = true → throws_redisGet env = true →
      cacheLoad env st documentId Y_newDoc false
  | cache_no_bytes :
      cacheReady st = true → throws_redisGet env = false →
      redisStore st !! getRedisKey documentId = None
      ∨ redisStore st !! getRedisKey documentId = Some ""%string →
      cacheLoad env st documentId Y_newDoc false
  | cache_bytes persisted d restored :
      cacheReady st = true → throws_redisGet env = false →
      redisStore st !! getRedisKey documentId = Some persisted →
      persisted ≠ ""%string →
      applies Y_newDoc persisted d restored →
      cacheLoad env st documentId d restored.

(** The durable stage of [getRoom] on the document [d0] that the cache
    stage left. *)
Inductive durableLoad (env : Env) (st : Storage) (documentId : string)
    (d0 : YDoc) : YDoc → bool → Prop :=
  | durable_find_threw :
      throws_findVersion env = true →
      durableLoad env st documentId d0 d0 false
  | durable_no_version :
      throws_findVersion env = false →
      (∀ w, w ∈ documentVersions (prisma st) →
            version_documentId w ≠ documentId) →
      durableLoad env st documentId d0 d0 false
  | durable_no_bytes v :
      throws_findVersion env = false →
      mostRecent (prisma st) documentId v →
      version_snapshot v = ""%string →
      durableLoad env st documentId d0 d0 false
  | durable_bytes v d restored :
      throws_findVersion env = false →
      mostRecent (prisma st) documentId v →
      version_snapshot v ≠ ""%string →
      applies d0 (version_snapshot v) d restored →
      durableLoad env st documentId d0 d restored.

(** The document a new room starts from: what the cache stage restored,
    or else what the durable stage made of what the cache stage
    left. *)
Inductive startsFrom (env : Env) (st : Storage) (documentId : string)
  : YDoc → Prop :=
  | starts_from_cache d :
      cacheLoad env st documentId d true →
      startsFrom env st documentId d
  | starts_from_durable d0 d restored :
      cacheLoad env st documentId d0 false →
      durableLoad env st documentId d0 d restored →
      startsFrom env st documentId d.

(** The row a durable auto-save appends. *)
Definition autoSaveRow (documentId ownerId snapshot : string) (t : Z)
  : DocumentVersion :=
  {| version_documentId := documentId; version_authorId := ownerId;
     version_summary := "Auto-save"; version_snapshot := snapshot;
     version_createdAt := t |}.

(** A connection is joined to a document: its state names the document
    and the registry holds the document's room. *)
Definition joined (s : State) (c : Conn) (state : ConnState) (room : Room) : Prop :=
  connectionState s !! c = Some state
  ∧ JSMap.get (st_documentId state) (rooms s) = Some room.

(** What a trace shows of one connection: the messages of the [error]
    frames sent to it, the peers that were sent a [yjs_update], and
    whether the server closed or terminated it. *)
Definition errorsTo (c : Conn) (events : list Event) : list string :=
  flat_map
    (λ ev, match ev with
           | Send c' (error_frame message) =>
               if decide (c' = c) then [message] else []
           | _ => []
           end) events.

Definition yjsUpdatesSent (events : list Event) : list Conn :=
  flat_map
    (λ ev, match ev with Send c' (yjs_update _ _) => [c'] | _ => [] end)
    events.

Definition closedByServer (c : Conn) (events : list Event) : bool :=
  existsb
    (λ ev, match ev with
           | CloseCall c' | Terminate c' => bool_decide (c' = c)
           | _ => false
           end) events.

Definition crdtOf (s : State) (documentId : string) : option YDoc :=
  room_doc <$> JSMap.get documentId (rooms s).

Definition is_type (message : JsVal) (type : string) : Prop :=
  str_eq (prop message "type") type = true.

(** The three tracking structures agree on a state: for every
    registered room, membership of its [connections], keys of its
    [presence] and [connectionState] entries naming its document
    coincide. *)
Definition tracking_agree (s : State) : Prop :=
  ∀ c documentId room,
    JSMap.get documentId (rooms s) = Some room →
    (c ∈ room_connections room ↔ is_Some (JSMap.get c (room_presence room)))
    ∧ (c ∈ room_connections room ↔
       ∃ state, connectionState s !! c = Some state
                ∧ st_documentId state = documentId).

(** *** Sentences of the specification that the code does not satisfy
        as they are written *)

(** Viewer immutability, for every [yjs_update] frame of a viewer. *)
Definition viewer_immutability_as_stated : Prop :=
  ∀ (s : State) env c message state room,
    joined s c state room →
    st_permission state = "viewer"%string →
    is_type message "yjs_update" →
    let '(s', events) := step s (message_received c (Some message) env) in
    crdtOf s' (st_documentId state) = crdtOf s (st_documentId state)
    ∧ yjsUpdatesSent events = []
    ∧ errorsTo c events = ["Read-only access"%string]
    ∧ closedByServer c events = false
    ∧ readyState (clients s') c = readyState (clients s) c.


(** Access resolution, for every share token: a user who is not the
    owner and has no share, and whose token matches no valid link of
    the document, is answered [noAccess].  No lookup fails. *)
Definition unknown_token_as_stated : Prop :=
  ∀ db env id userId shareToken document,
    throws_findDocument env = false →
    throws_findShare env = false →
    throws_findShareLink env = false →
    id ≠ ""%string →
    findUnique_document db id = Some document →
    document_ownerId document ≠ userId →
    findUnique_share db id userId = None →
    (∀ l token, l ∈ documentShareLinks db → validLink id (now env) l →
                tokenFilter shareToken = Some token →
                token (link_token l) = false) →
    getDocumentAccess db env (JStr id) userId shareToken
    = Some (access_error noAccess).

(** Persist tiers: a ready cache means no durable row. *)
Definition persist_tiers_as_stated : Prop :=
  ∀ env documentId (room : Room) st,
    let st' := persistRoom env documentId room st in
    let snapshot := encodeUpdate (Y_encodeStateAsUpdate (room_doc room)) in
    (cacheReady st = true →
       redisStore st' = <[getRedisKey documentId := snapshot]> (redisStore st)
       ∧ documentVersions (prisma st') = documentVersions (prisma st))
    ∧ (cacheReady st = false →
       documentVersions (prisma st') ≠ documentVersions (prisma st) →
       dbPersistIntervalMs ≤ now env - default 0 (lastDbPersist st !! documentId)
       ∧ match findFirst_version (prisma st) documentId with
         | None => True
         | Some v => version_snapshot v ≠ snapshot
         end
       ∧ ∃ doc, findUnique_document (prisma st) documentId = Some doc
                ∧ documentVersions (prisma st') =
                  documentVersions (prisma st) ++
                  [autoSaveRow documentId (document_ownerId doc) snapshot (now env)]).



(** A join whose [documentId] is empty or not a string is answered
    [Document not found]. *)
Definition invalid_id_as_stated : Prop :=
  ∀ (s : State) env c message,
    is_type message "join_document" →
    truthy (prop message "documentId") = false
    ∨ is_string (prop message "documentId") = false →
    (step s (message_received c (Some message) env)).2 =
    [Send c (error_frame "Document not found"); CloseCall c].
End Vocabulary.

(** ** The HTTP surface *)

(** What the [http] server answers: a status and, with 200, a JSON
    body. *)
Inductive Body :=
  | metrics_body (activeDocuments activeConnections opsPerMinute : nat)
  | health_body.

Record Response := {
  response_status : nat;
  response_body : option Body
}.

(** The request listener of [http.createServer]; [getOpsPerMinute]
    drops the old entries of [operations] as it counts. *)
Definition onRequest `{Yjs, NodeBuffer, Jose, Prisma}
    (method url : string) (t : Z) (s : State) : State * Response :=
  if String.eqb method "GET" && String.eqb url "/metrics" then
    let '(ops, opsPerMinute) := getOpsPerMinute t (operations s) in
    (with_operations ops s,
     {| response_status := 200;
        response_body :=
          Some (metrics_body (length (rooms s)) (length (clients s)) opsPerMinute) |})
  else if String.eqb method "GET" && String.eqb url "/healthz" then
    (s, {| response_status := 200; response_body := Some health_body |})
  else (s, {| response_status := 404; response_body := None |}).

(** ** Vocabulary of the further properties *)

(** An operation recorded at [o] is inside the rolling minute at [t]. *)
Definition inWindow (t o : Z) : Prop := t - o ≤ 60000.

#[global] Instance inWindow_dec t o : Decision (inWindow t o).
Proof. unfold inWindow. apply _. Defined.

(** The timestamps of [operations] in the order the clock gave them. *)
Definition chronological (ops : list Z) : Prop := StronglySorted Z.le ops.

(** A room that a sweep is about to remove while its persist timer is
    pending.  Before the pass reaches the document, its room is
    registered and no other room object carries its identity; after it,
    only the timer's closure holds the room. *)
Definition awaiting `{Yjs} (documentId : string) (room : Room) (st : Storage)
    (x : State) : Prop :=
  JSMap.get documentId (rooms x) = Some room
  ∧ (∀ entry, entry ∈ rooms x → entry.1 ≠ documentId →
              room_id entry.2 ≠ room_id room)
  ∧ (∀ entry, entry ∈ detached x → room_id entry.2 ≠ room_id room)
  ∧ storage x = st.

Definition held `{Yjs, NodeBuffer, Jose, Prisma} (documentId : string) (room : Room)
    (st : Storage) (x : State) : Prop :=
  (∀ entry, entry ∈ rooms x → room_id entry.2 ≠ room_id room)
  ∧ (∃ room', List.find (timerOf (room_id room)) (detached x)
              = Some (documentId, room')
              ∧ room_doc room' = room_doc room)
  ∧ storage x = st.

(** The two per-connection structures of a room name the same
    connections, each once. *)
Definition paired `{Yjs} (room : Room) : Prop :=
  (∀ c, c ∈ room_connections room ↔ c ∈ JSMap.keys (room_presence room))
  ∧ NoDup (room_connections room)
  ∧ NoDup (JSMap.keys (room_presence room)).

(** Registered rooms are distinct objects: every identity was handed
    out by [getRoom], and two entries of the registry with the same
    identity are under the same document. *)
Definition identified `{Yjs} (registry : list (string * Room)) (next : nat) : Prop :=
  (∀ entry, entry ∈ registry → (room_id entry.2 < next)%nat)
  ∧ (∀ e1 e2, e1 ∈ registry → e2 ∈ registry →
              room_id e1.2 = room_id e2.2 → e1.1 = e2.1).



(** ** A small deployment to run the relay on: library doubles, a durable
       store with two documents, and the sessions of three users *)

Module Scenario.
(** A document is the log of the updates applied to it; an empty update
    is refused. *)
Definition yjs : Yjs :=
  {| YDoc := list Bytes;
     Y_newDoc := [];
     Y_applyUpdate := λ d u, match u with [] => Threw d | _ => Applied (d ++ [u]) end;
     Y_encodeStateAsUpdate := λ d, concat d |}.

(** Base64 is the identity on the strings used here, except that [!],
    which holds no base64 character, decodes to no byte. *)
Definition buffer : NodeBuffer :=
  {| Buffer_toBase64 := String.string_of_list_byte;
     Buffer_fromBase64 := λ v,
       match v with
       | JStr s =>
           Some (if String.eqb s "!" then [] else String.list_byte_of_string s)
       | _ => None
       end |}.

Definition session (user : string) : JwtPayload :=
  {| claim_userId := Some user;
     claim_email := Some (user +:+ "@example.org")%string |}.

Definition jose : Jose :=
  {| jwtVerify := λ v,
       match v with
       | JStr t =>
           if String.eqb t "token-alice" then Some (session "alice")
           else if String.eqb t "token-bob" then Some (session "bob")
           else if String.eqb t "token-carol" then Some (session "carol")
           else None
       | _ => None
       end |}.

(** Of non-string tokens the store reads [{ not: s }] as the filter
    "different from [s]" and refuses the rest. *)
Definition orm : Prisma :=
  {| Prisma_stringFilter := λ v,
       match v with
       | JObj [(k, JStr s)] =>
           if String.eqb k "not" then Some (λ x, negb (String.eqb x s)) else None
       | _ => None
       end |}.

#[local] Existing Instance yjs.
#[local] Existing Instance buffer.
#[local] Existing Instance jose.
#[local] Existing Instance orm.

Definition db : Database :=
  {| documents :=
       [ {| document_id := "d1"; document_ownerId := "alice" |};
         {| document_id := "d2"; document_ownerId := "alice" |} ];
     documentShares :=
       [ {| share_documentId := "d1"; share_userId := "bob";
            share_permission := "viewer" |} ];
     documentShareLinks :=
       [ {| link_documentId := "d1"; link_token := "expired";
            link_permission := "editor"; link_expiresAt := Some 50 |};
         {| link_documentId := "d1"; link_token := "open";
            link_permission := "editor"; link_expiresAt := None |};
         {| link_documentId := "d1"; link_token := "dated";
            link_permission := "viewer"; link_expiresAt := Some 1000 |} ];
     documentVersions := [] |}.

(** The clock reads [t] and no awaited call fails. *)
Definition at_time (t : Z) : Env :=
  {| now := t; throws_findDocument := false; throws_findShare := false;
     throws_findShareLink := false; throws_findVersion := false;
     throws_createVersion := false; throws_redisGet := false;
     redisSet := SetOk |}.

Definition join (documentId token : JsVal) : JsVal :=
  JObj [("type", JStr "join_document"); ("documentId", documentId);
        ("token", token)]%string.

Definition update (payload : JsVal) : JsVal :=
  JObj [("type", JStr "yjs_update"); ("update", payload)]%string.

Definition frame (type : string) : JsVal := JObj [("type"%string, JStr type)].

Definition start : State := initial db ∅ None.

(** Connection 0 (alice) joins [d1], then joins [d2] on the same
    socket. *)
Definition rejoined : State :=
  run start
    [ connection_opened;
      message_received 0%nat (Some (join (JStr "d1") (JStr "token-alice"))) (at_time 100);
      message_received 0%nat (Some (join (JStr "d2") (JStr "token-alice"))) (at_time 200) ].

(** Alice joins [d1], edits it and leaves: the room is empty and its
    persist timer is pending. *)
Definition edited_and_left : State :=
  run start
    [ connection_opened;
      message_received 0%nat (Some (join (JStr "d1") (JStr "token-alice"))) (at_time 100);
      message_received 0%nat (Some (update (JStr "abc"))) (at_time 200);
      message_received 0%nat (Some (frame "leave_document")) (at_time 300) ].

(** Alice (owner) and bob (viewer) are both in [d1]. *)
Definition two_members : State :=
  run start
    [ connection_opened; connection_opened;
      message_received 0%nat (Some (join (JStr "d1") (JStr "token-alice"))) (at_time 100);
      message_received 1%nat (Some (join (JStr "d1") (JStr "token-bob"))) (at_time 150) ].

(** What [connectionState] records once bob and alice have joined
    [d1]. *)
Definition bob : ConnState :=
  {| st_documentId := "d1"; st_userId := "bob"; st_permission := "viewer" |}.

Definition alice : ConnState :=
  {| st_documentId := "d1"; st_userId := "alice"; st_permission := "owner" |}.

(** Alice has two sockets (0 and 2) in [d1], bob has one. *)
Definition three_sockets : State :=
  run two_members
    [ connection_opened;
      message_received 2%nat (Some (join (JStr "d1") (JStr "token-alice"))) (at_time 180) ].

(** The users of the first [presence_update] of a trace. *)
Fixpoint firstUsers (events : list Event) : list Presence :=
  match events with
  | [] => []
  | Send _ (presence_update _ users) :: _ => users
  | _ :: rest => firstUsers rest
  end.

(** The cache is down and the durable store holds no version. *)
Definition degraded : Storage :=
  {| redis := Some "end"%string; redisAvailable := false; redisStore := ∅;
     prisma := db; lastDbPersist := ∅ |}.

(** The cache client reports [ready], but its next write fails. *)
Definition ready : Storage :=
  {| redis := Some "ready"%string; redisAvailable := true; redisStore := ∅;
     prisma := db; lastDbPersist := ∅ |}.

Definition write_fails (t : Z) : Env :=
  {| now := t; throws_findDocument := false; throws_findShare := false;
     throws_findShareLink := false; throws_findVersion := false;
     throws_createVersion := false; throws_redisGet := false;
     redisSet := SetOtherError |}.

(** A cold start: the durable store holds two versions of [d1], the
    more recent one first in the table, and a later version of [d2];
    the cache is absent. *)
Definition resumed : DocumentVersion :=
  {| version_documentId := "d1"; version_authorId := "alice";
     version_summary := "Auto-save"; version_snapshot := "resumed";
     version_createdAt := 20 |}.

Definition archive : Database :=
  {| documents := documents db; documentShares := documentShares db;
     documentShareLinks := documentShareLinks db;
     documentVersions :=
       [ resumed;
         {| version_documentId := "d1"; version_authorId := "alice";
            version_summary := ""; version_snapshot := "draft";
            version_createdAt := 10 |};
         {| version_documentId := "d2"; version_authorId := "alice";
            version_summary := ""; version_snapshot := "other";
            version_createdAt := 30 |} ] |}.

Definition cold : State := initial archive ∅ None.

(** The same store behind a ready cache whose entry for [d1] is
    corrupt. *)
Definition corrupt : State :=
  run (initial archive {[ getRedisKey "d1" := "!"%string ]} (Some "ready"%string))
    [ redis_connect; connection_opened ].

(** The clock reads [t] and both snapshot loads throw. *)
Definition outage (t : Z) : Env :=
  {| now := t; throws_findDocument := false; throws_findShare := false;
     throws_findShareLink := false; throws_findVersion := true;
     throws_createVersion := false; throws_redisGet := true;
     redisSet := SetOk |}.

Definition edited_room : Room :=
  {| room_id := 0; room_doc := [String.list_byte_of_string "abc"];
     room_connections := []; room_presence := [];
     room_persistTimeout := None |}.
(** The room a state registers for a document (an empty one if none). *)
Definition room_of (s : State) (documentId : string) : Room :=
  default {| room_id := 0; room_doc := []; room_connections := [];
             room_presence := []; room_persistTimeout := None |}
          (JSMap.get documentId (rooms s)).

(** A join through a share link. *)
Definition join_with_link (documentId token shareToken : JsVal) : JsVal :=
  JObj [("type", JStr "join_document"); ("documentId", documentId);
        ("token", token); ("shareToken", shareToken)]%string.

Definition cursor_moved (position : Z) : JsVal :=
  JObj [("type", JStr "cursor_update"); ("cursorPosition", JNum position)]%string.

Definition carol_session : Auth :=
  {| auth_userId := "carol"; auth_email := "carol@example.org" |}.

(** The presence entries of alice and bob as their joins wrote them. *)
Definition alice_presence : Presence :=
  {| p_userId := "alice"; p_name := JStr "alice@example.org";
     p_avatarColor := JStr "#0ea5e9"; p_cursorPosition := JNum 0;
     p_selectionRange := JObj [("start", JNum 0); ("end", JNum 0)]%string;
     p_isTyping := JBool false; p_lastHeartbeat := 100 |}.

Definition bob_presence : Presence :=
  {| p_userId := "bob"; p_name := JStr "bob@example.org";
     p_avatarColor := JStr "#0ea5e9"; p_cursorPosition := JNum 0;
     p_selectionRange := JObj [("start", JNum 0); ("end", JNum 0)]%string;
     p_isTyping := JBool false; p_lastHeartbeat := 150 |}.

(** A third socket has connected while alice and bob are in [d1]. *)
Definition carol_arrives : State := run two_members [connection_opened].

(** [edited_room] after one more edit. *)
Definition edited_again : Room :=
  room_with_doc [String.list_byte_of_string "abc"; String.list_byte_of_string "d"]
                edited_room.

(** One socket has connected. *)
Definition opened : State := run start [connection_opened].



(** The process right after the snapshot of [edited_room] went to a
    ready cache. *)
Definition warm : State :=
  with_storage (persistRoom (at_time 100) "d1" edited_room ready) start.
End Scenario.

(** * Properties *)

(** ** Facts about insertion-ordered maps and sets *)

Section JSMapFacts.
Context {K V : Type} `{EqDecision K}.
Implicit Types (m : list (K * V)) (k : K) (v : V).

Lemma get_set_eq k v m : JSMap.get k (JSMap.set k v m) = Some v.
Proof.
  induction m as [|[k' v'] m IH]; simpl.
  - by rewrite decide_True.
  - destruct (decide (k = k')) as [->|Hne]; simpl.
    + by rewrite decide_True.
    + by rewrite decide_False.
Qed.

Lemma get_set_ne k k' v m :
  k ≠ k' → JSMap.get k' (JSMap.set k v m) = JSMap.get k' m.
Proof.
  intros Hne. induction m as [|[k0 v0] m IH]; simpl.
  - rewrite decide_False; [done | congruence].
  - destruct (decide (k = k0)) as [->|Hne0]; simpl.
    + rewrite !decide_False; [done | congruence | congruence].
    + destruct (decide (k' = k0)); [done | exact IH].
Qed.

Lemma get_delete_eq k m : JSMap.get k (JSMap.delete k m) = None.
Proof.
  induction m as [|[k' v'] m IH]; simpl; [done|].
  destruct (decide (k = k')) as [->|Hne]; simpl; [done|].
  by rewrite decide_False.
Qed.

Lemma get_delete_ne k k' m :
  k ≠ k' → JSMap.get k' (JSMap.delete k m) = JSMap.get k' m.
Proof.
  intros Hne. induction m as [|[k0 v0] m IH]; simpl; [done|].
  destruct (decide (k = k0)) as [->|Hne0]; simpl.
  - rewrite decide_False; [exact IH | congruence].
  - destruct (decide (k' = k0)); [done | exact IH].
Qed.

Lemma get_Some_elem k v m : JSMap.get k m = Some v → (k, v) ∈ m.
Proof.
  induction m as [|[k' v'] m IH]; simpl; [done|].
  destruct (decide (k = k')) as [->|Hne].
  - intros [= ->]. left.
  - intros Hg. right. by apply IH.
Qed.

Lemma get_None_keys k m : JSMap.get k m = None ↔ k ∉ JSMap.keys m.
Proof.
  unfold JSMap.keys. induction m as [|[k' v'] m IH]; simpl.
  - split; [intros _; apply not_elem_of_nil | done].
  - rewrite not_elem_of_cons. destruct (decide (k = k')) as [Heq|Hne].
    + split; [done | intros [? _]; done].
    + rewrite IH. naive_solver.
Qed.

Lemma elem_get_Some k v m :
  NoDup (JSMap.keys m) → (k, v) ∈ m → JSMap.get k m = Some v.
Proof.
  unfold JSMap.keys. induction m as [|[k' v'] m IH]; simpl.
  - intros _ Hin. by apply elem_of_nil in Hin.
  - intros Hnd Hin. apply NoDup_cons in Hnd as [Hk' Hnd].
    apply elem_of_cons in Hin as [[= -> ->]|Hin].
    + by rewrite decide_True.
    + destruct (decide (k = k')) as [->|Hne]; [|by apply IH].
      exfalso. apply Hk'. apply list_elem_of_fmap. by exists (k', v).
Qed.

Lemma elem_of_set k v m kv :
  kv ∈ JSMap.set k v m → kv = (k, v) ∨ kv ∈ m.
Proof.
  induction m as [|[k' v'] m IH]; simpl.
  - intros Hin. apply list_elem_of_singleton in Hin. by left.
  - destruct (decide (k = k')) as [->|Hne]; intros Hin;
      apply elem_of_cons in Hin as [->|Hin].
    + by left.
    + right. by right.
    + right. left.
    + destruct (IH Hin); [by left | right; by right].
Qed.

Lemma keys_set k v m :
  JSMap.keys (JSMap.set k v m) =
  if decide (k ∈ JSMap.keys m) then JSMap.keys m else JSMap.keys m ++ [k].
Proof.
  unfold JSMap.keys. induction m as [|[k' v'] m IH]; csimpl.
  - done.
  - destruct (decide (k = k')) as [->|Hne]; csimpl.
    + rewrite decide_True; [done | left].
    + rewrite IH. destruct (decide (k ∈ m.*1)) as [Hin|Hnin].
      * rewrite decide_True; [done | by right].
      * rewrite decide_False; [done|].
        rewrite not_elem_of_cons. done.
Qed.

Lemma NoDup_keys_set k v m :
  NoDup (JSMap.keys m) → NoDup (JSMap.keys (JSMap.set k v m)).
Proof.
  intros Hnd. rewrite keys_set. case_decide; [done|].
  apply NoDup_app. split_and!; [done | | apply NoDup_singleton].
  intros x Hx Hx'. apply list_elem_of_singleton in Hx'. by subst.
Qed.

Lemma keys_delete k m :
  JSMap.keys (JSMap.delete k m) = JSSet.delete k (JSMap.keys m).
Proof.
  unfold JSMap.keys. induction m as [|[k' v'] m IH]; csimpl; [done|].
  destruct (decide (k = k')); csimpl; by rewrite IH.
Qed.
End JSMapFacts.

Section JSSetFacts.
Context {K : Type} `{EqDecision K}.
Implicit Types (s : list K) (k : K).

Lemma elem_of_delete k k' s : k' ∈ JSSet.delete k s ↔ k' ∈ s ∧ k' ≠ k.
Proof.
  induction s as [|k0 s IH]; simpl.
  - split; [intros Hin; by apply elem_of_nil in Hin | intros [Hin _]; done].
  - destruct (decide (k = k0)) as [->|Hne].
    + rewrite IH, elem_of_cons. naive_solver.
    + rewrite !elem_of_cons, IH. naive_solver.
Qed.

Lemma NoDup_delete k s : NoDup s → NoDup (JSSet.delete k s).
Proof.
  induction 1 as [|k0 s Hk0 Hnd IH]; simpl; [constructor|].
  destruct (decide (k = k0)); [done|].
  constructor; [|done]. rewrite elem_of_delete. naive_solver.
Qed.

Lemma elem_of_add k k' s : k' ∈ JSSet.add k s ↔ k' = k ∨ k' ∈ s.
Proof.
  unfold JSSet.add, JSSet.has. case_bool_decide.
  - naive_solver.
  - rewrite elem_of_app, list_elem_of_singleton. naive_solver.
Qed.
End JSSetFacts.

Section Properties.
Context `{Yjs, NodeBuffer, Jose, Prisma}.

(** ** Presence deduplication *)

(** What the loop of [broadcastPresence] maintains, after the entries
    [seen]: keys are distinct, every value sits under its own [userId]
    and was seen, and every seen entry is dominated by the value kept
    for its user. *)
Lemma keepLatest_fold (seen : list Presence) :
  let m := fold_left keepLatest seen [] in
  NoDup (JSMap.keys m)
  ∧ (∀ k v, (k, v) ∈ m → p_userId v = k ∧ v ∈ seen)
  ∧ (∀ p, p ∈ seen →
       ∃ v, JSMap.get (p_userId p) m = Some v
            ∧ p_lastHeartbeat p ≤ p_lastHeartbeat v).
Proof.
  induction seen as [|p seen IH] using rev_ind; simpl.
  - split_and!; [constructor | | ].
    + intros k v Hin. by apply elem_of_nil in Hin.
    + intros p Hin. by apply elem_of_nil in Hin.
  - rewrite fold_left_app. simpl.
    set (m := fold_left keepLatest seen []) in *.
    destruct IH as (Hnd & Hval & Hdom).
    assert (Hnew :
      let m' := JSMap.set (p_userId p) p m in
      (∀ q, q ∈ seen → p_userId q = p_userId p → p_lastHeartbeat q ≤ p_lastHeartbeat p) →
      NoDup (JSMap.keys m')
      ∧ (∀ k v, (k, v) ∈ m' → p_userId v = k ∧ v ∈ seen ++ [p])
      ∧ (∀ q, q ∈ seen ++ [p] →
           ∃ v, JSMap.get (p_userId q) m' = Some v
                ∧ p_lastHeartbeat q ≤ p_lastHeartbeat v)).
    { intros m' Hle. split_and!.
      - by apply NoDup_keys_set.
      - intros k v Hin. apply elem_of_set in Hin as [[= -> ->]|Hin].
        + split; [done|]. apply elem_of_app. right. left.
        + destruct (Hval _ _ Hin). split; [done|]. apply elem_of_app. by left.
      - intros q Hq. apply elem_of_app in Hq as [Hq|Hq].
        + destruct (decide (p_userId p = p_userId q)) as [Heq|Hne].
          * exists p. unfold m'. rewrite <- Heq, get_set_eq. split; [done|].
            by apply Hle.
          * destruct (Hdom _ Hq) as (v & Hv & Hvle). exists v.
            unfold m'. by rewrite get_set_ne.
        + apply list_elem_of_singleton in Hq as ->. exists p.
          unfold m'. rewrite get_set_eq. split; [done | lia]. }
    unfold keepLatest.
    destruct (JSMap.get (p_userId p) m) as [existing|] eqn:Hget.
    + destruct (Z.ltb_spec (p_lastHeartbeat existing) (p_lastHeartbeat p)) as [Hlt|Hge].
      * apply Hnew. intros q Hq Heq. destruct (Hdom _ Hq) as (v & Hv & Hvle).
        rewrite Heq, Hget in Hv. injection Hv as <-. lia.
      * split_and!; [done | | ].
        -- intros k v Hin. destruct (Hval _ _ Hin). split; [done|].
           apply elem_of_app. by left.
        -- intros q Hq. apply elem_of_app in Hq as [Hq|Hq]; [by apply Hdom|].
           apply list_elem_of_singleton in Hq as ->. by exists existing.
    + apply Hnew. intros q Hq Heq. destruct (Hdom _ Hq) as (v & Hv & _).
      rewrite Heq, Hget in Hv. done.
Qed.

Lemma values_keys_userId (m : list (string * Presence)) :
  (∀ k v, (k, v) ∈ m → p_userId v = k) →
  p_userId <$> JSMap.values m = JSMap.keys m.
Proof.
  unfold JSMap.values, JSMap.keys.
  induction m as [|[k v] m IH]; csimpl; [done|].
  intros Hval. f_equal.
  - apply Hval. left.
  - apply IH. intros k' v' Hin. apply Hval. by right.
Qed.

(** The users of a [presence_update] payload: one entry per user, taken
    from the room, with the greatest [lastHeartbeat] of that user. *)
Lemma presenceUsers_spec (room : Room) :
  let entries := JSMap.values (room_presence room) in
  NoDup (p_userId <$> presenceUsers room)
  ∧ (∀ e, e ∈ presenceUsers room →
       e ∈ entries
       ∧ ∀ p, p ∈ entries → p_userId p = p_userId e →
              p_lastHeartbeat p ≤ p_lastHeartbeat e)
  ∧ (∀ p, p ∈ entries →
       ∃ e, e ∈ presenceUsers room ∧ p_userId e = p_userId p).
Proof.
  intros entries. unfold presenceUsers. fold entries.
  destruct (keepLatest_fold entries) as (Hnd & Hval & Hdom).
  set (m := fold_left keepLatest entries []) in *.
  assert (Hin_values : ∀ e, e ∈ JSMap.values m ↔ (p_userId e, e) ∈ m).
  { intros e. unfold JSMap.values. rewrite list_elem_of_fmap. split.
    - intros ([k v] & -> & Hin). simpl. by destruct (Hval _ _ Hin) as [-> _].
    - intros Hin. by exists (p_userId e, e). }
  split_and!.
  - rewrite values_keys_userId; [done|]. intros k v Hin. by destruct (Hval _ _ Hin).
  - intros e He. apply Hin_values in He. split; [by destruct (Hval _ _ He)|].
    intros p Hp Heq. destruct (Hdom _ Hp) as (v & Hv & Hle).
    rewrite Heq, (elem_get_Some _ _ _ Hnd He) in Hv. by injection Hv as <-.
  - intros p Hp. destruct (Hdom _ Hp) as (v & Hv & _).
    apply get_Some_elem in Hv. destruct (Hval _ _ Hv) as [Hk _].
    exists v. split; [|done]. apply Hin_values. by rewrite Hk.
Qed.

(** ** Access resolution *)

Lemma nonempty_truthy (id : string) : id ≠ ""%string → truthy (JStr id) = true.
Proof.
  intros Hid. simpl. destruct (String.eqb_spec id ""); [done | reflexivity].
Qed.

Lemma findFirst_shareLink_valid db documentId token t link :
  findFirst_shareLink db documentId token t = Some link →
  link ∈ documentShareLinks db
  ∧ link_documentId link = documentId
  ∧ token (link_token link) = true
  ∧ match link_expiresAt link with None => True | Some e => t < e end.
Proof.
  unfold findFirst_shareLink. intros Hfind.
  apply find_some in Hfind as [Hin Hm]. unfold link_matches in Hm.
  apply andb_prop in Hm as [Hm Hexp]. apply andb_prop in Hm as [Hd Ht].
  apply String.eqb_eq in Hd. split_and!; try done.
  - by apply list_elem_of_In.
  - destruct (link_expiresAt link); [lia | done].
Qed.

Lemma findFirst_shareLink_expired db documentId token t :
  (∀ l, l ∈ documentShareLinks db →
        link_documentId l = documentId → token (link_token l) = true →
        ∃ e, link_expiresAt l = Some e ∧ e ≤ t) →
  findFirst_shareLink db documentId token t = None.
Proof.
  intros Hexp.
  destruct (findFirst_shareLink db documentId token t) as [link|] eqn:Hfind;
    [|done].
  apply findFirst_shareLink_valid in Hfind as (Hin & Hd & Ht & Hvalid).
  destruct (Hexp _ Hin Hd Ht) as (e & He & Hle).
  rewrite He in Hvalid. lia.
Qed.

(** The rows that the unique lookups return. *)
Lemma findUnique_document_row db id document :
  document ∈ documents db → document_id document = id →
  (∀ d, d ∈ documents db → document_id d = id → d = document) →
  findUnique_document db id = Some document.
Proof.
  intros Hin Hid Huniq. unfold findUnique_document.
  destruct (List.find _ (documents db)) as [d|] eqn:Hfind.
  - apply find_some in Hfind as [Hd Hm]. apply String.eqb_eq in Hm.
    f_equal. apply Huniq; [by apply list_elem_of_In | done].
  - apply list_elem_of_In in Hin.
    pose proof (find_none _ _ Hfind _ Hin) as Hm. simpl in Hm.
    rewrite Hid, String.eqb_refl in Hm. done.
Qed.

Lemma findUnique_share_row db id userId share :
  share ∈ documentShares db →
  share_documentId share = id → share_userId share = userId →
  (∀ r, r ∈ documentShares db →
        share_documentId r = id → share_userId r = userId → r = share) →
  findUnique_share db id userId = Some share.
Proof.
  intros Hin Hid Huser Huniq. unfold findUnique_share.
  destruct (List.find _ (documentShares db)) as [r|] eqn:Hfind.
  - apply find_some in Hfind as [Hr Hm]. apply andb_prop in Hm as [Hd Hu].
    apply String.eqb_eq in Hd, Hu.
    f_equal. apply Huniq; [by apply list_elem_of_In | done | done].
  - apply list_elem_of_In in Hin.
    pose proof (find_none _ _ Hfind _ Hin) as Hm. simpl in Hm.
    rewrite Hid, Huser, !String.eqb_refl in Hm. done.
Qed.

Lemma findUnique_share_none db id userId :
  (∀ r, r ∈ documentShares db →
        ¬ (share_documentId r = id ∧ share_userId r = userId)) →
  findUnique_share db id userId = None.
Proof.
  intros Hnone. unfold findUnique_share.
  destruct (List.find _ (documentShares db)) as [r|] eqn:Hfind; [|done].
  apply find_some in Hfind as [Hr Hm]. apply andb_prop in Hm as [Hd Hu].
  apply String.eqb_eq in Hd, Hu. apply list_elem_of_In in Hr.
  by destruct (Hnone r Hr).
Qed.

(** The share-link query over the rows: it returns a row exactly when
    an unexpired link of the document passes the token filter, and the
    row it returns is such a link. *)
Lemma findFirst_shareLink_rows db documentId (token : string → bool) t :
  match findFirst_shareLink db documentId token t with
  | Some link =>
      link ∈ documentShareLinks db ∧ validLink documentId t link
      ∧ token (link_token link) = true
  | None =>
      ∀ l, l ∈ documentShareLinks db → validLink documentId t l →
           token (link_token l) = false
  end.
Proof.
  destruct (findFirst_shareLink db documentId token t) as [link|] eqn:Hfind.
  - apply findFirst_shareLink_valid in Hfind as (Hin & Hd & Ht & Hvalid).
    by repeat split.
  - intros l Hl [Hd Hvalid]. unfold findFirst_shareLink in Hfind.
    apply list_elem_of_In in Hl.
    pose proof (find_none _ _ Hfind _ Hl) as Hm. unfold link_matches in Hm.
    rewrite Hd, String.eqb_refl in Hm. simpl in Hm.
    destruct (token (link_token l)); [|done]. simpl in Hm.
    destruct (link_expiresAt l) as [e|]; [|done]. lia.
Qed.

(** X28. For an existing document and lookups that do not fail, access
    is read off the rows in the order owner, share, link.  The owner is
    granted [owner] whatever shares and links exist.  Any other user
    with a share row of the document is granted that row's permission
    whatever links exist.  A user with neither is granted the
    permission of an unexpired link of the document carrying the token,
    if there is one, dated or not, and is answered [noAccess] if there
    is none, if every link of the token has expired, or if the token is
    missing or empty.  A token that is not a string is read by Prisma:
    as a filter it is matched against the links in the same way, and if
    Prisma refuses it the promise is rejected.  The answer is never
    [notFound] or [invalidId]. *)
Theorem getDocumentAccess_order
    (db : Database) (env : Env) (id userId : string)
    (shareToken : JsVal) (document : Document) :
  id ≠ ""%string →
  throws_findDocument env = false →
  throws_findShare env = false →
  throws_findShareLink env = false →
  document ∈ documents db →
  document_id document = id →
  (∀ d, d ∈ documents db → document_id d = id → d = document) →
  let access := getDocumentAccess db env (JStr id) userId shareToken in
  let unshared :=
    ∀ r, r ∈ documentShares db →
         ¬ (share_documentId r = id ∧ share_userId r = userId) in
  let byLink (token : string → bool) :=
    ((∃ l, l ∈ documentShareLinks db ∧ validLink id (now env) l
           ∧ token (link_token l) = true) →
     ∃ l, l ∈ documentShareLinks db ∧ validLink id (now env) l
          ∧ token (link_token l) = true
          ∧ access = Some (access_permission (link_permission l)))
    ∧ ((∀ l, l ∈ documentShareLinks db → link_documentId l = id →
             token (link_token l) = true →
             ∃ e, link_expiresAt l = Some e ∧ e ≤ now env) →
       access = Some (access_error noAccess)) in
  (document_ownerId document = userId →
     access = Some (access_permission "owner"))
  ∧ (document_ownerId document ≠ userId →
     ∀ share, share ∈ documentShares db →
       share_documentId share = id → share_userId share = userId →
       (∀ r, r ∈ documentShares db →
             share_documentId r = id → share_userId r = userId → r = share) →
       access = Some (access_permission (share_permission share)))
  ∧ (document_ownerId document ≠ userId → unshared →
     ∀ t, shareToken = JStr t → t ≠ ""%string →
          byLink (λ x, String.eqb x t))
  ∧ (document_ownerId document ≠ userId → unshared →
     truthy shareToken = false →
     access = Some (access_error noAccess))
  ∧ (document_ownerId document ≠ userId → unshared →
     truthy shareToken = true → is_string shareToken = false →
     match Prisma_stringFilter shareToken with
     | Some token => byLink token
     | None => access = None
     end)
  ∧ access ≠ Some (access_error notFound)
  ∧ access ≠ Some (access_error invalidId).
Proof.
  intros Hid Hdoc Hshare Hlink Hin Hkey Huniq access unshared byLink.
  pose proof (findUnique_document_row db id document Hin Hkey Huniq) as Hfound.
  assert (Haccess : access =
    if String.eqb (document_ownerId document) userId
    then Some (access_permission "owner")
    else match findUnique_share db id userId with
         | Some share => Some (access_permission (share_permission share))
         | None =>
             if truthy shareToken then
               match tokenFilter shareToken with
               | Some token =>
                   match findFirst_shareLink db id token (now env) with
                   | Some link => Some (access_permission (link_permission link))
                   | None => Some (access_error noAccess)
                   end
               | None => None
               end
             else Some (access_error noAccess)
         end).
  { unfold access, getDocumentAccess.
    rewrite (nonempty_truthy _ Hid). simpl.
    by rewrite Hdoc, Hfound, Hshare, Hlink. }
  assert (Hby : ∀ token,
    document_ownerId document ≠ userId → unshared →
    truthy shareToken = true → tokenFilter shareToken = Some token →
    byLink token).
  { intros token Howner Hnone Htruthy Htoken.
    assert (Hres : access =
      match findFirst_shareLink db id token (now env) with
      | Some link => Some (access_permission (link_permission link))
      | None => Some (access_error noAccess)
      end).
    { rewrite Haccess, (findUnique_share_none _ _ _ Hnone), Htruthy, Htoken.
      by destruct (String.eqb_spec (document_ownerId document) userId). }
    pose proof (findFirst_shareLink_rows db id token (now env)) as Hrows.
    destruct (findFirst_shareLink db id token (now env)) as [link|]; split.
    - intros _. exists link. by destruct Hrows as (? & ? & ?).
    - intros Hexpired. destruct Hrows as (Hl & [Hd Hvalid] & Ht).
      destruct (Hexpired link Hl Hd Ht) as (e & He & Hle).
      rewrite He in Hvalid. lia.
    - intros (l & Hl & Hvalid & Ht). by rewrite (Hrows l Hl Hvalid) in Ht.
    - done. }
  split_and!.
  - intros Howner. by rewrite Haccess, <- Howner, String.eqb_refl.
  - intros Howner share Hs Hsd Hsu Hsuniq. rewrite Haccess.
    rewrite (findUnique_share_row _ _ _ _ Hs Hsd Hsu Hsuniq).
    by destruct (String.eqb_spec (document_ownerId document) userId).
  - intros Howner Hnone t -> Ht. apply Hby; [done | done | | done].
    by apply nonempty_truthy.
  - intros Howner Hnone Hfalsy.
    rewrite Haccess, (findUnique_share_none _ _ _ Hnone), Hfalsy.
    by destruct (String.eqb_spec (document_ownerId document) userId).
  - intros Howner Hnone Htruthy Hstr.
    assert (Htoken : tokenFilter shareToken = Prisma_stringFilter shareToken)
      by (by destruct shareToken).
    destruct (Prisma_stringFilter shareToken) as [token|] eqn:Hfilter.
    + by apply Hby.
    + rewrite Haccess, (findUnique_share_none _ _ _ Hnone), Htruthy, Htoken.
      by destruct (String.eqb_spec (document_ownerId document) userId).
  - rewrite Haccess. repeat case_match; congruence.
  - rewrite Haccess. repeat case_match; congruence.
Qed.

(** ** Frame dispatch *)

Lemma str_eq_true (v : JsVal) (lit : string) : str_eq v lit = true → v = JStr lit.
Proof.
  destruct v; simpl; try done. intros Heq. by apply String.eqb_eq in Heq as ->.
Qed.

(** Dispatch of a frame whose type is not [join_document], from a
    connection with a state and a registered room. *)
Lemma onMessage_joined (s : State) env c message state room type :
  joined s c state room →
  is_type message type →
  type ≠ ""%string → type ≠ "join_document"%string →
  onMessage env c (Some message) s =
    if String.eqb type "yjs_update"
    then onYjsUpdate env c message state room s
    else if String.eqb type "cursor_update"
    then onCursorUpdate env c message state room s
    else if String.eqb type "leave_document"
    then leaveRoom c state room s
    else if String.eqb type "heartbeat"
    then (refreshHeartbeat env c state room s, [])
    else (s, []).
Proof.
  intros [Hstate Hroom] Htype Hne Hnj. unfold onMessage.
  apply str_eq_true in Htype. rewrite Htype. simpl.
  destruct (String.eqb_spec type ""); [done|]. simpl.
  destruct (String.eqb_spec type "join_document"); [done|].
  by rewrite Hstate, Hroom.
Qed.

(** C10. A [yjs_update] frame without an [update] field, from a
    connection that has joined (whatever its permission), changes
    nothing and sends nothing: no CRDT change, no broadcast, no persist
    timer, no frame to the sender. *)
Theorem yjs_update_without_payload_dropped
    (s : State) (env : Env) (c : Conn) (message : JsVal) (state : ConnState) :
  connectionState s !! c = Some state →
  is_type message "yjs_update" →
  truthy (prop message "update") = false →
  step s (message_received c (Some message) env) = (s, []).
Proof.
  intros Hstate Htype Hupdate. simpl. unfold onMessage.
  apply str_eq_true in Htype. rewrite Htype, Hstate. simpl.
  destruct (JSMap.get (st_documentId state) (rooms s)); [|done].
  unfold onYjsUpdate. by rewrite Hupdate.
Qed.

(** C1 (amended). A [yjs_update] frame that carries an [update], from a
    connection joined as viewer, leaves the whole state as it was (the
    CRDT, the sockets, the timers) and the only call made is one
    [error] frame [Read-only access] to the sender. *)
Theorem viewer_update_refused
    (s : State) (env : Env) (c : Conn) (message : JsVal)
    (state : ConnState) (room : Room) :
  joined s c state room →
  st_permission state = "viewer"%string →
  is_type message "yjs_update" →
  truthy (prop message "update") = true →
  step s (message_received c (Some message) env) =
    (s, [Send c (error_frame "Read-only access")]).
Proof.
  intros Hjoined Hperm Htype Hupdate. cbn [step].
  rewrite (onMessage_joined _ _ _ _ _ _ _ Hjoined Htype); [|done..].
  simpl. unfold onYjsUpdate. by rewrite Hupdate, Hperm.
Qed.

(** ** Heartbeats *)




(** ** Admission *)

(** C7 (amended). A [join_document] frame whose [documentId] is falsy
    (missing, null, the empty string, 0 or false) is answered
    [Unauthorized], whatever its token; one whose [documentId] is
    truthy but not a string (a number other than 0, true, an array or
    an object), sent with a token that verifies, is answered
    [Document not found]; in both cases that single [error] frame is
    followed by the close of the connection. *)
Theorem join_invalid_document_id
    (s : State) (env : Env) (c : Conn) (message : JsVal) :
  is_type message "join_document" →
  (truthy (prop message "documentId") = false →
     step s (message_received c (Some message) env) =
       (with_clients (ws_close c (clients s)) s,
        [Send c (error_frame "Unauthorized"); CloseCall c]))
  ∧ (truthy (prop message "documentId") = true →
     is_string (prop message "documentId") = false →
     truthy (prop message "token") = true →
     is_Some (verifyToken (prop message "token")) →
     step s (message_received c (Some message) env) =
       (with_clients (ws_close c (clients s)) s,
        [Send c (error_frame "Document not found"); CloseCall c])).
Proof.
  intros Htype. simpl. unfold onMessage.
  apply str_eq_true in Htype. rewrite Htype. simpl. unfold onJoin.
  split.
  - intros Hid. rewrite Hid, orb_true_r. done.
  - intros Hid Hstr Htok [auth Hauth].
    assert (Hnull : nullish (prop message "token") JNull = prop message "token").
    { by destruct (prop message "token"). }
    rewrite Hnull, Htok, Hid, Hauth. simpl.
    unfold getDocumentAccess. rewrite Hid, Hstr. done.
Qed.

(** ** Tiered persistence *)

(** The durable half writes at most the auto-save row, and only past
    the write floor and for changed bytes. *)
Lemma persistToDatabase_row env documentId snapshot st :
  let st' := persistToDatabase env documentId snapshot st in
  documentVersions (prisma st') ≠ documentVersions (prisma st) →
  dbPersistIntervalMs ≤ now env - default 0 (lastDbPersist st !! documentId)
  ∧ match findFirst_version (prisma st) documentId with
    | None => True
    | Some v => version_snapshot v ≠ snapshot
    end
  ∧ ∃ doc, findUnique_document (prisma st) documentId = Some doc
           ∧ documentVersions (prisma st') =
             documentVersions (prisma st) ++
             [autoSaveRow documentId (document_ownerId doc) snapshot (now env)].
Proof.
  unfold persistToDatabase.
  destruct (Z.ltb_spec (now env - default 0 (lastDbPersist st !! documentId))
              dbPersistIntervalMs) as [Hlt|Hge]; [done|].
  destruct (throws_findVersion env); [done|].
  destruct (findFirst_version (prisma st) documentId) as [v|] eqn:Hlatest.
  - destruct (String.eqb_spec (version_snapshot v) snapshot) as [Heq|Hne];
      simpl; [done|].
    destruct (throws_findDocument env); [done|].
    destruct (findUnique_document (prisma st) documentId) as [doc|]; [|done].
    destruct (throws_createVersion env); [done|].
    simpl. intros _. split_and!; [done | done | by exists doc].
  - simpl. destruct (throws_findDocument env); [done|].
    destruct (findUnique_document (prisma st) documentId) as [doc|]; [|done].
    destruct (throws_createVersion env); [done|].
    simpl. intros _. split_and!; [done | done | by exists doc].
Qed.

(** C4 (amended). On a persist: when the cache is ready and its write
    succeeds, the snapshot goes to the cache only and the durable
    store is untouched; a durable row is created only when the cache
    is not ready or its write failed, at least 5 s after the last
    durable auto-save of the document, and for bytes that differ from
    the latest version's (or when there is no version); that row has
    the document's owner as author and the summary [Auto-save]. *)
Theorem persistRoom_tiers
    (env : Env) (documentId : string) (room : Room) (st : Storage) :
  let st' := persistRoom env documentId room st in
  let snapshot := encodeUpdate (Y_encodeStateAsUpdate (room_doc room)) in
  (cacheReady st = true → redisSet env = SetOk →
     st' = with_redisStore
             (<[getRedisKey documentId := snapshot]> (redisStore st)) st)
  ∧ (documentVersions (prisma st') ≠ documentVersions (prisma st) →
     (cacheReady st = false ∨ redisSet env ≠ SetOk)
     ∧ dbPersistIntervalMs ≤ now env - default 0 (lastDbPersist st !! documentId)
     ∧ match findFirst_version (prisma st) documentId with
       | None => True
       | Some v => version_snapshot v ≠ snapshot
       end
     ∧ ∃ doc, findUnique_document (prisma st) documentId = Some doc
              ∧ documentVersions (prisma st') =
                documentVersions (prisma st) ++
                [autoSaveRow documentId (document_ownerId doc) snapshot (now env)]).
Proof.
  intros st' snapshot. unfold st', persistRoom. fold snapshot. split.
  - intros Hready Hset. by rewrite Hready, Hset.
  - destruct (cacheReady st) eqn:Hready.
    + destruct (redisSet env) eqn:Hset.
      * simpl. done.
      * intros Hrow. split; [by right|].
        by apply (persistToDatabase_row env documentId snapshot
                    (with_redisAvailable false st)) in Hrow.
      * intros Hrow. split; [by right|].
        by apply persistToDatabase_row in Hrow.
    + intros Hrow. split; [by left|]. by apply persistToDatabase_row in Hrow.
Qed.

(** ** Room creation *)

Lemma latest_of_spec best rows v :
  latest_of best rows = Some v →
  (best = Some v ∨ v ∈ rows)
  ∧ (∀ b, best = Some b → version_createdAt b ≤ version_createdAt v)
  ∧ (∀ w, w ∈ rows → version_createdAt w ≤ version_createdAt v).
Proof.
  revert best. induction rows as [|r rows IH]; intros best Hlatest; simpl in Hlatest.
  - subst best. split_and!; [by left | by intros b [= ->] | ].
    intros w Hw. by apply elem_of_nil in Hw.
  - destruct best as [b|].
    + destruct (Z.ltb_spec (version_createdAt b) (version_createdAt r)) as [Hlt|Hge];
        apply IH in Hlatest as (Hin & Hbest & Hrows).
      * specialize (Hbest r eq_refl). split_and!.
        -- right. destruct Hin as [[= ->]|Hin]; [left | by right].
        -- intros b' [= <-]. lia.
        -- intros w Hw. apply elem_of_cons in Hw as [->|Hw]; [done | by apply Hrows].
      * specialize (Hbest b eq_refl). split_and!.
        -- destruct Hin as [Hin|Hin]; [by left | right; by right].
        -- by intros b' [= <-].
        -- intros w Hw. apply elem_of_cons in Hw as [->|Hw]; [lia | by apply Hrows].
    + apply IH in Hlatest as (Hin & Hbest & Hrows).
      specialize (Hbest r eq_refl). split_and!.
      * right. destruct Hin as [[= ->]|Hin]; [left | by right].
      * done.
      * intros w Hw. apply elem_of_cons in Hw as [->|Hw]; [done | by apply Hrows].
Qed.

(** The version row that [findFirst] returns is a row of the document,
    and none of the document's rows is more recent. *)
Lemma findFirst_version_latest db documentId v :
  findFirst_version db documentId = Some v →
  v ∈ documentVersions db
  ∧ version_documentId v = documentId
  ∧ ∀ w, w ∈ documentVersions db → version_documentId w = documentId →
         version_createdAt w ≤ version_createdAt v.
Proof.
  unfold findFirst_version. intros Hlatest.
  apply latest_of_spec in Hlatest as ([Hin|Hin] & _ & Hrows); [done|].
  apply list_elem_of_In, filter_In in Hin as [Hin Hdoc].
  apply String.eqb_eq in Hdoc. split_and!; [by apply list_elem_of_In | done |].
  intros w Hw Hwdoc. apply Hrows, list_elem_of_In, filter_In.
  split; [by apply list_elem_of_In | by apply String.eqb_eq].
Qed.

Lemma restoreFromRedis_miss env st documentId doc :
  cacheMiss env st documentId →
  restoreFromRedis env st documentId doc = (doc, false).
Proof.
  unfold restoreFromRedis. intros [Hc|[Hc|[Hc|Hc]]]; rewrite ?Hc;
    repeat case_match; try done; simplify_eq.
Qed.

Lemma restoreFromDatabase_miss env st documentId doc :
  durableMiss env st documentId →
  restoreFromDatabase env st documentId doc = (doc, false).
Proof.
  unfold restoreFromDatabase. intros [Hd|[Hd|(v & Hd & Hempty)]]; rewrite ?Hd.
  - done.
  - by destruct (throws_findVersion env).
  - destruct (throws_findVersion env); [done|]. by rewrite Hempty.
Qed.

Lemma nonempty_true (x : string) : x ≠ ""%string → nonempty x = true.
Proof. intros Hx. unfold nonempty. by destruct (String.eqb_spec x ""). Qed.

Lemma getRoom_creates env documentId (s : State) :
  JSMap.get documentId (rooms s) = None →
  ∃ room,
    getRoom env documentId s =
      (room,
       {| rooms := JSMap.set documentId room (rooms s);
          detached := detached s; suspended := suspended s;
          connectionState := connectionState s; clients := clients s;
          storage := storage s; operations := operations s;
          nextRoomId := S (nextRoomId s); nextConn := nextConn s |})
    ∧ room_connections room = [] ∧ room_presence room = []
    ∧ room_persistTimeout room = None
    ∧ loaded env (storage s) documentId (room_doc room).
Proof.
  intros Hnone. unfold getRoom. rewrite Hnone.
  destruct (restoreFromRedis env (storage s) documentId Y_newDoc)
    as [doc1 restored1] eqn:Hredis.
  destruct (if negb restored1
            then restoreFromDatabase env (storage s) documentId doc1
            else (doc1, restored1)) as [doc2 restored2] eqn:Hdb.
  eexists. split; [reflexivity|]. simpl. split_and!; try done.
  unfold loaded. split_and!.
  - intros persisted update d Hready Hget Hkey Hne Hdec Happ.
    unfold restoreFromRedis in Hredis.
    rewrite Hready, Hget, Hkey, (nonempty_true _ Hne) in Hredis.
    unfold restoreFrom in Hredis. rewrite Hdec, Happ in Hredis.
    simplify_eq. simpl in Hdb. by simplify_eq.
  - intros v update d Hmiss Hthrow Hlatest Hne Hdec Happ.
    rewrite (restoreFromRedis_miss _ _ _ _ Hmiss) in Hredis. simplify_eq.
    simpl in Hdb. unfold restoreFromDatabase in Hdb.
    rewrite Hthrow, Hlatest, (nonempty_true _ Hne) in Hdb.
    unfold restoreFrom in Hdb. rewrite Hdec, Happ in Hdb. by simplify_eq.
  - intros Hmiss Hdmiss.
    rewrite (restoreFromRedis_miss _ _ _ _ Hmiss) in Hredis. simplify_eq.
    simpl in Hdb. rewrite (restoreFromDatabase_miss _ _ _ _ Hdmiss) in Hdb.
    by simplify_eq.
Qed.

(** The loads of [getRoom] against the relations that describe
    them. *)
Lemma restoreFrom_applies (d0 : YDoc) snapshot :
  applies d0 snapshot (restoreFrom d0 snapshot).1 (restoreFrom d0 snapshot).2.
Proof.
  unfold restoreFrom.
  destruct (decodeUpdate (JStr snapshot)) as [update|] eqn:Hdecode;
    [|by constructor].
  destruct (Y_applyUpdate d0 update) as [d|d] eqn:Happly; simpl.
  - by apply applies_ok with update.
  - by apply applies_threw with update.
Qed.

Lemma applies_restoreFrom (d0 : YDoc) snapshot d restored :
  applies d0 snapshot d restored → restoreFrom d0 snapshot = (d, restored).
Proof.
  unfold restoreFrom.
  intros [update d' Hdecode Happly | update d' Hdecode Happly | Hdecode];
    by rewrite Hdecode, ?Happly.
Qed.

Lemma restoreFromRedis_cacheLoad env st documentId :
  cacheLoad env st documentId
    (restoreFromRedis env st documentId Y_newDoc).1
    (restoreFromRedis env st documentId Y_newDoc).2.
Proof.
  unfold restoreFromRedis.
  destruct (cacheReady st) eqn:Hready; [|by constructor].
  destruct (throws_redisGet env) eqn:Hget; [by apply cache_get_threw|].
  destruct (redisStore st !! getRedisKey documentId) as [persisted|] eqn:Hkey;
    [|apply cache_no_bytes; auto].
  unfold nonempty. destruct (String.eqb_spec persisted "") as [-> | Hne]; simpl.
  - apply cache_no_bytes; auto.
  - apply cache_bytes with persisted; try done. apply restoreFrom_applies.
Qed.

Lemma cacheLoad_restoreFromRedis env st documentId d restored :
  cacheLoad env st documentId d restored →
  restoreFromRedis env st documentId Y_newDoc = (d, restored).
Proof.
  unfold restoreFromRedis.
  intros [Hready | Hready Hget | Hready Hget [Hkey | Hkey]
          | persisted d' restored' Hready Hget Hkey Hne Happlies];
    rewrite Hready, ?Hget, ?Hkey; try done.
  rewrite (nonempty_true _ Hne). by apply applies_restoreFrom.
Qed.

Lemma latest_of_None best rows :
  latest_of best rows = None → best = None ∧ rows = [].
Proof.
  revert best. induction rows as [|r rows IH]; intros best Hnone; simpl in Hnone.
  - done.
  - destruct best as [b|].
    + destruct (version_createdAt b <? version_createdAt r);
        by apply IH in Hnone as [? _].
    + by apply IH in Hnone as [? _].
Qed.

(** The version query over the rows: it returns a row of the document
    than which none is more recent, and nothing only when the document
    has no row. *)
Lemma findFirst_version_rows db documentId :
  match findFirst_version db documentId with
  | Some v => mostRecent db documentId v
  | None => ∀ w, w ∈ documentVersions db → version_documentId w ≠ documentId
  end.
Proof.
  destruct (findFirst_version db documentId) as [v|] eqn:Hfind.
  - by apply findFirst_version_latest.
  - unfold findFirst_version in Hfind. apply latest_of_None in Hfind as [_ Hnil].
    intros w Hw Hdoc.
    assert (Hin : In w (List.filter
      (λ v, String.eqb (version_documentId v) documentId) (documentVersions db))).
    { apply filter_In. split; [by apply list_elem_of_In | by apply String.eqb_eq]. }
    by rewrite Hnil in Hin.
Qed.

Lemma restoreFromDatabase_durableLoad env st documentId (d0 : YDoc) :
  durableLoad env st documentId d0
    (restoreFromDatabase env st documentId d0).1
    (restoreFromDatabase env st documentId d0).2.
Proof.
  unfold restoreFromDatabase.
  destruct (throws_findVersion env) eqn:Hthrow; [by constructor|].
  pose proof (findFirst_version_rows (prisma st) documentId) as Hrows.
  destruct (findFirst_version (prisma st) documentId) as [v|];
    [|by apply durable_no_version].
  unfold nonempty.
  destruct (String.eqb_spec (version_snapshot v) "") as [Hempty | Hne]; simpl.
  - by apply durable_no_bytes with v.
  - apply durable_bytes with v; try done. apply restoreFrom_applies.
Qed.

(** The durable stage when the most recent bytes of the document are
    determined: every row than which none is more recent carries
    them. *)
Lemma restoreFromDatabase_latest env st documentId (d0 : YDoc) v :
  throws_findVersion env = false →
  mostRecent (prisma st) documentId v →
  (∀ w, mostRecent (prisma st) documentId w →
        version_snapshot w = version_snapshot v) →
  restoreFromDatabase env st documentId d0 =
    if nonempty (version_snapshot v)
    then restoreFrom d0 (version_snapshot v) else (d0, false).
Proof.
  intros Hthrow Hv Hties. unfold restoreFromDatabase. rewrite Hthrow.
  pose proof (findFirst_version_rows (prisma st) documentId) as Hrows.
  destruct (findFirst_version (prisma st) documentId) as [v'|].
  - by rewrite (Hties v' Hrows).
  - destruct Hv as (Hin & Hdoc & _). by destruct (Hrows v Hin).
Qed.

Lemma getRoom_doc env documentId (s : State) :
  JSMap.get documentId (rooms s) = None →
  room_doc (getRoom env documentId s).1 =
    if (restoreFromRedis env (storage s) documentId Y_newDoc).2
    then (restoreFromRedis env (storage s) documentId Y_newDoc).1
    else (restoreFromDatabase env (storage s) documentId
            (restoreFromRedis env (storage s) documentId Y_newDoc).1).1.
Proof.
  intros Hnone. unfold getRoom. rewrite Hnone.
  destruct (restoreFromRedis env (storage s) documentId Y_newDoc)
    as [d1 []]; simpl; [done|].
  by destruct (restoreFromDatabase env (storage s) documentId d1).
Qed.

(** C5. A granted join of a document that has no room yet creates the
    room from the latest snapshot, cache first, and succeeds whatever
    the loads do: the connection is registered in the room and is sent
    [doc_sync].  The room's document is what the cache stage restored
    when the cache is ready and its bytes apply; otherwise (cache not
    ready, [redis.get] throwing, no bytes, or bytes that do not decode
    or apply) it is what the durable stage makes of the document the
    cache stage left: the bytes of a version row of the document than
    which none is more recent, applied to it, or that document itself
    when the query throws, the document has no row, or the bytes are
    empty or fail.  Provided a failing [Y.applyUpdate] leaves its
    document as it was, the room thus starts either empty or from the
    applied bytes of the cache or of a most recent version. *)
Theorem join_loads_latest_snapshot
    (s : State) (env : Env) (c : Conn) (message : JsVal)
    (auth : Auth) (permission id : string) :
  is_type message "join_document" →
  truthy (prop message "token") = true →
  verifyToken (prop message "token") = Some auth →
  prop message "documentId" = JStr id →
  getDocumentAccess (prisma (storage s)) env (JStr id) (auth_userId auth)
    (nullish (prop message "shareToken") JNull)
    = Some (access_permission permission) →
  JSMap.get id (rooms s) = None →
  ∃ room events,
    let result := step s (message_received c (Some message) env) in
    let st := storage s in
    result.2 =
      Send c (doc_sync id (encodeUpdate (Y_encodeStateAsUpdate (room_doc room))))
        :: events
    ∧ JSMap.get id (rooms result.1) = Some room
    ∧ connectionState result.1 !! c =
        Some {| st_documentId := id; st_userId := auth_userId auth;
                st_permission := permission |}
    ∧ room_connections room = [c]
    ∧ is_Some (JSMap.get c (room_presence room))
    ∧ startsFrom env st id (room_doc room)
    ∧ (∀ d0, cacheLoad env st id d0 true → room_doc room = d0)
    ∧ (∀ d0, cacheLoad env st id d0 false →
         (throws_findVersion env = true
          ∨ (∀ w, w ∈ documentVersions (prisma st) → version_documentId w ≠ id) →
          room_doc room = d0)
         ∧ (throws_findVersion env = false →
            ∀ v, mostRecent (prisma st) id v →
                 (∀ w, mostRecent (prisma st) id w →
                       version_snapshot w = version_snapshot v) →
                 (version_snapshot v = ""%string → room_doc room = d0)
                 ∧ (version_snapshot v ≠ ""%string →
                    ∀ d restored, applies d0 (version_snapshot v) d restored →
                                  room_doc room = d)))
    ∧ ((∀ d u d', Y_applyUpdate d u = Threw d' → d' = d) →
       room_doc room = Y_newDoc
       ∨ (∃ persisted update,
            cacheReady st = true ∧ throws_redisGet env = false
            ∧ redisStore st !! getRedisKey id = Some persisted
            ∧ decodeUpdate (JStr persisted) = Some update
            ∧ Y_applyUpdate Y_newDoc update = Applied (room_doc room))
       ∨ (∃ v update,
            throws_findVersion env = false
            ∧ mostRecent (prisma st) id v
            ∧ decodeUpdate (JStr (version_snapshot v)) = Some update
            ∧ Y_applyUpdate Y_newDoc update = Applied (room_doc room))).
Proof.
  intros Htype Htok Hauth Hid Haccess Hnone.
  assert (Hnull : nullish (prop message "token") JNull = prop message "token").
  { by destruct (prop message "token"). }
  assert (Htruthy : truthy (JStr id) = true).
  { destruct (truthy (JStr id)) eqn:Ht; [done|].
    unfold getDocumentAccess in Haccess. by rewrite Ht in Haccess. }
  pose proof (getRoom_doc env id s Hnone) as Hdoc.
  destruct (getRoom_creates env id s Hnone)
    as (room & Hroom & Hconns & Hpres & _ & _).
  rewrite Hroom in Hdoc. simpl in Hdoc.
  assert (Hstarts : startsFrom env (storage s) id (room_doc room)).
  { rewrite Hdoc.
    pose proof (restoreFromRedis_cacheLoad env (storage s) id) as Hcache.
    destruct (restoreFromRedis env (storage s) id Y_newDoc) as [d1 []]; simpl in *.
    - by apply starts_from_cache.
    - eapply starts_from_durable; [exact Hcache|].
      apply restoreFromDatabase_durableLoad. }
  cbn [step]. unfold onMessage.
  apply str_eq_true in Htype. rewrite Htype. simpl. unfold onJoin.
  rewrite Hnull, Htok, Hid, Htruthy, Hauth. simpl negb. simpl orb. cbv iota.
  rewrite Haccess, Hroom.
  eexists _, _. cbn zeta. split_and!.
  - reflexivity.
  - simpl. by rewrite get_set_eq.
  - simpl. by rewrite lookup_insert_eq.
  - simpl. by rewrite Hconns.
  - simpl. rewrite get_set_eq. by eexists.
  - exact Hstarts.
  - intros d0 Hcache. simpl. rewrite Hdoc.
    by rewrite (cacheLoad_restoreFromRedis _ _ _ _ _ Hcache).
  - intros d0 Hcache. simpl. rewrite Hdoc.
    rewrite (cacheLoad_restoreFromRedis _ _ _ _ _ Hcache). simpl. split.
    + intros [Hthrow | Hrows]; unfold restoreFromDatabase.
      * by rewrite Hthrow.
      * destruct (throws_findVersion env); [done|].
        pose proof (findFirst_version_rows (prisma (storage s)) id) as Hfound.
        destruct (findFirst_version (prisma (storage s)) id) as [v|]; [|done].
        destruct Hfound as (Hin & Hv & _). by destruct (Hrows v Hin).
    + intros Hthrow v Hv Hties.
      rewrite (restoreFromDatabase_latest _ _ _ _ v Hthrow Hv Hties).
      unfold nonempty. split.
      * intros ->. done.
      * intros Hne d restored Happlies.
        destruct (String.eqb_spec (version_snapshot v) ""); [done|]. simpl.
        by rewrite (applies_restoreFrom _ _ _ _ Happlies).
  - intros Hatomic. simpl.
    assert (Hkept : ∀ d0 snapshot d, applies d0 snapshot d false → d = d0).
    { intros d0 snapshot d Happlies. inversion Happlies; subst; [|done].
      by eapply Hatomic. }
    assert (Hleft : ∀ d0, cacheLoad env (storage s) id d0 false → d0 = Y_newDoc).
    { intros d0 Hcache. inversion Hcache; subst; try done. by eapply Hkept. }
    inversion Hstarts as [d Hcache | d0 d restored Hcache Hdurable]; subst.
    + right. left. inversion Hcache as [| | | persisted d' r ? ? ? ? Happlies]; subst.
      inversion Happlies; subst. by eexists _, _.
    + apply Hleft in Hcache as ->.
      inversion Hdurable as [| | | v d' r ? ? ? Happlies]; subst; try by left.
      inversion Happlies; subst.
      * right. right. by eexists _, _.
      * left. by eapply Hatomic.
      * by left.
Qed.

(** ** The registry *)

Lemma has_get {V} (k : string) (m : list (string * V)) :
  JSMap.has k m = true ↔ ∃ v, JSMap.get k m = Some v.
Proof.
  unfold JSMap.has. destruct (JSMap.get k m); split; try done.
  - by eexists.
  - by intros [? ?].
Qed.

Lemma has_set_mono {V} (k k' : string) (v : V) (m : list (string * V)) :
  JSMap.has k m = true → JSMap.has k (JSMap.set k' v m) = true.
Proof.
  rewrite !has_get. intros [v0 Hv0].
  destruct (decide (k' = k)) as [->|Hne].
  - exists v. apply get_set_eq.
  - exists v0. by rewrite get_set_ne.
Qed.

Lemma filter_delete (c : Conn) (gone : list Conn) (l : list Conn) :
  filter (λ x, x ∉ gone) (JSSet.delete c l) = filter (λ x, x ∉ c :: gone) l.
Proof.
  induction l as [|a l IH]; simpl; [done|].
  destruct (decide (c = a)) as [->|Hne].
  - rewrite IH. rewrite (filter_cons_False _ a); [done|].
    intros Hnot. apply Hnot. left.
  - destruct (decide (a ∈ gone)) as [Hin|Hnin].
    + rewrite !filter_cons_False; [done | | ].
      * intros Hnot. apply Hnot. by right.
      * by intros Hnot.
    + rewrite !filter_cons_True; [by rewrite IH | | done].
      rewrite not_elem_of_cons. split; [congruence | done].
Qed.

(** The connections that the eviction loop leaves in the room. *)
Lemma sweep_connections t entries acc :
  room_connections (sw_room (fold_left (evictStale t) entries acc)) =
  filter (λ c, c ∉ (filter (λ entry, stale t entry.2 = true) entries).*1)
         (room_connections (sw_room acc)).
Proof.
  revert acc. induction entries as [|[c p] entries IH]; intros acc; simpl.
  - induction (room_connections (sw_room acc)) as [|a l IHl]; [done|].
    rewrite filter_cons_True; [by rewrite <- IHl | apply not_elem_of_nil].
  - rewrite IH. unfold evictStale. destruct (stale t p) eqn:Hstale.
    + rewrite filter_cons_True; [|done]. csimpl. apply filter_delete.
    + rewrite filter_cons_False; [done|]. simpl. by rewrite Hstale.
Qed.

Lemma sweepRoom_survivors t room (s : State) :
  room_connections (sw_room (sweepRoom t room s)) = survivors t room.
Proof. unfold sweepRoom. by rewrite sweep_connections. Qed.

(** What [cleanupRoom] does to the registry. *)
Lemma cleanupRoom_rooms env k (s : State) :
  rooms (cleanupRoom env k s).1 =
  match JSMap.get k (rooms s) with
  | None => rooms s
  | Some room =>
      if bool_decide (survivors (now env) room = [])
      then JSMap.delete k (rooms s)
      else JSMap.set k (sw_room (sweepRoom (now env) room s)) (rooms s)
  end.
Proof.
  unfold cleanupRoom. destruct (JSMap.get k (rooms s)) as [room|]; [|done].
  rewrite <- (sweepRoom_survivors _ _ s).
  destruct (room_connections (sw_room (sweepRoom (now env) room s))); done.
Qed.

Lemma cleanupRoom_get_ne env k (s : State) documentId :
  documentId ≠ k →
  JSMap.get documentId (rooms (cleanupRoom env k s).1) =
  JSMap.get documentId (rooms s).
Proof.
  intros Hne. rewrite cleanupRoom_rooms.
  destruct (JSMap.get k (rooms s)) as [room|]; [|done].
  case_bool_decide; [by rewrite get_delete_ne | by rewrite get_set_ne].
Qed.

Lemma cleanupRoom_has_eq env k (s : State) :
  JSMap.has k (rooms (cleanupRoom env k s).1) = true ↔
  ∃ room, JSMap.get k (rooms s) = Some room ∧ survivors (now env) room ≠ [].
Proof.
  rewrite has_get, cleanupRoom_rooms.
  destruct (JSMap.get k (rooms s)) as [room|] eqn:Hget.
  - case_bool_decide as Hs.
    + rewrite get_delete_eq. split; [by intros [? ?]|].
      intros (room' & [= <-] & Hne). done.
    + rewrite get_set_eq. split; [|by eexists]. intros _. by exists room.
  - rewrite Hget. split; [by intros [? ?] | by intros (? & ? & ?)].
Qed.

Lemma sweepOne_state env acc k : (sweepOne env acc k).1 = (cleanupRoom env k acc.1).1.
Proof. unfold sweepOne. by destruct (cleanupRoom env k acc.1). Qed.

Lemma cleanupRooms_has env ks (acc : State * list Event) documentId :
  NoDup ks →
  JSMap.has documentId (rooms (fold_left (sweepOne env) ks acc).1) = true ↔
  if decide (documentId ∈ ks)
  then ∃ room, JSMap.get documentId (rooms acc.1) = Some room
               ∧ survivors (now env) room ≠ []
  else JSMap.has documentId (rooms acc.1) = true.
Proof.
  revert acc. induction ks as [|k ks IH]; intros acc Hnd; simpl.
  - done.
  - apply NoDup_cons in Hnd as [Hk Hnd]. rewrite (IH _ Hnd).
    rewrite sweepOne_state.
    destruct (decide (documentId = k)) as [->|Hne].
    + rewrite decide_False by done. rewrite decide_True by left.
      apply cleanupRoom_has_eq.
    + destruct (decide (documentId ∈ ks)) as [Hin|Hnin].
      * rewrite decide_True by (by right).
        by rewrite cleanupRoom_get_ne.
      * rewrite decide_False by (rewrite not_elem_of_cons; done).
        by rewrite !has_get, cleanupRoom_get_ne.
Qed.

Lemma getRoom_has env id (s : State) documentId :
  JSMap.has documentId (rooms s) = true →
  JSMap.has documentId (rooms (getRoom env id s).2) = true.
Proof.
  intros Hhas. unfold getRoom. destruct (JSMap.get id (rooms s)); [done|].
  repeat case_match; simpl; by apply has_set_mono.
Qed.

Lemma onMessage_has env c data (s : State) documentId :
  JSMap.has documentId (rooms s) = true →
  JSMap.has documentId (rooms (onMessage env c data s).1) = true.
Proof.
  intros Hhas. unfold onMessage.
  destruct data as [message|]; [|done].
  case_match; [done|]. case_match.
  - unfold onJoin, deny. repeat (case_match; simpl; try done).
    apply has_set_mono.
    match goal with Hg : getRoom ?e ?i s = (_, ?s') |- _ =>
      replace s' with (getRoom e i s).2 by (by rewrite Hg) end.
    by apply getRoom_has.
  - unfold onYjsUpdate, onCursorUpdate, leaveRoom, refreshHeartbeat.
    repeat (case_match; simpl; try done); by apply has_set_mono.
Qed.

(** ** A join in two halves *)

Lemma set_set {V} (k : string) (v v' : V) (m : list (string * V)) :
  JSMap.set k v (JSMap.set k v' m) = JSMap.set k v m.
Proof.
  induction m as [|[k0 v0] m IH]; simpl.
  - by rewrite decide_True.
  - destruct (decide (k = k0)) as [-> | Hne]; simpl.
    + by rewrite decide_True.
    + rewrite decide_False by done. by rewrite IH.
Qed.

(** A frame that is overtaken is either handled at once, as by
    [onMessage], or its handler is suspended and nothing else
    changes. *)
Lemma onJoinBegun_cases env c message (s : State) :
  onJoinBegun env c message s = onMessage env c (Some message) s
  ∨ ∃ h, onJoinBegun env c message s
         = (with_suspended (suspended s ++ [h]) s, [])
         ∧ sus_connection h = c ∧ sus_message h = message
         ∧ granted env message s
           = Some (sus_auth h, sus_permission h, sus_documentId h)
         ∧ JSMap.get (sus_documentId h) (rooms s) = None.
Proof.
  unfold onJoinBegun.
  destruct (str_eq (prop message "type") "join_document"); [|by left].
  destruct (granted env message s) as [[[auth permission] id]|]; [|by left].
  destruct (JSMap.get id (rooms s)) eqn:Hroom; [by left|]. right.
  destruct (cacheReady (storage s)).
  - destruct (restoreFromRedis env (storage s) id Y_newDoc) as [doc restored].
    by eexists.
  - destruct (restoreFromDatabase env (storage s) id Y_newDoc) as [doc restored].
    by eexists.
Qed.

(** What the join branch does once it has its room: the room is
    registered under the document with the connection added and its
    presence entry set, the state of the connection is recorded, and
    the frames are [doc_sync] then the presence view. *)
Lemma enter_spec env c message auth permission id (room : Room) (s : State) :
  ∃ room' presence,
    enter env c message auth permission id room s =
      (with_rooms (JSMap.set id room' (rooms s))
         (with_connectionState
            (<[c := {| st_documentId := id; st_userId := auth_userId auth;
                       st_permission := permission |}]> (connectionState s)) s),
       Send c (doc_sync id (encodeUpdate (Y_encodeStateAsUpdate (room_doc room))))
         :: broadcastPresence (clients s) id room')
    ∧ room_id room' = room_id room
    ∧ room_doc room' = room_doc room
    ∧ room_persistTimeout room' = room_persistTimeout room
    ∧ room_connections room' = JSSet.add c (room_connections room)
    ∧ room_presence room' = JSMap.set c presence (room_presence room)
    ∧ p_userId presence = auth_userId auth
    ∧ p_lastHeartbeat presence = now env.
Proof. unfold enter. by eexists _, _. Qed.

(** The return of a load either finds no suspended join, or leaves the
    join suspended on the version query, or completes it: the room that
    [getRoom] builds is registered over whatever room the document has
    by then, and the join branch runs to its end. *)
Lemma onLoadReturned_cases env k (s : State) :
  onLoadReturned env k s = (s, [])
  ∨ (∃ hs, onLoadReturned env k s = (with_suspended hs s, []))
  ∨ ∃ h, suspended s !! k = Some h
         ∧ onLoadReturned env k s =
             enter env (sus_connection h) (sus_message h) (sus_auth h)
               (sus_permission h) (sus_documentId h)
               {| room_id := nextRoomId s; room_doc := sus_doc h;
                  room_connections := []; room_presence := [];
                  room_persistTimeout := None |}
               (register (sus_documentId h)
                  {| room_id := nextRoomId s; room_doc := sus_doc h;
                     room_connections := []; room_presence := [];
                     room_persistTimeout := None |}
                  (with_suspended (delete k (suspended s)) s)).
Proof.
  unfold onLoadReturned. destruct (suspended s !! k) as [h|]; [|by left].
  right. destruct (sus_awaits h), (sus_restored h);
    try (right; by exists h).
  left. destruct (restoreFromDatabase _ _ _ _). by eexists.
Qed.

(** The registry after a load has returned: unchanged, or with the new
    room of the completed join under its document. *)
Lemma onLoadReturned_rooms env k (s : State) :
  rooms (onLoadReturned env k s).1 = rooms s
  ∨ ∃ h room',
      suspended s !! k = Some h
      ∧ rooms (onLoadReturned env k s).1
        = JSMap.set (sus_documentId h) room' (rooms s)
      ∧ nextRoomId (onLoadReturned env k s).1 = S (nextRoomId s)
      ∧ room_id room' = nextRoomId s
      ∧ room_doc room' = sus_doc h
      ∧ room_persistTimeout room' = None
      ∧ room_connections room' = [sus_connection h]
      ∧ (∃ presence, room_presence room' = [(sus_connection h, presence)])
      ∧ (onLoadReturned env k s).2 =
          Send (sus_connection h)
            (doc_sync (sus_documentId h)
               (encodeUpdate (Y_encodeStateAsUpdate (sus_doc h))))
            :: broadcastPresence (clients s) (sus_documentId h) room'.
Proof.
  destruct (onLoadReturned_cases env k s) as [-> | [(hs & ->) | (h & Hh & ->)]];
    [by left | by left | right].
  match goal with |- context [enter ?e ?c ?m ?a ?p ?i ?r ?s0] =>
    destruct (enter_spec e c m a p i r s0)
      as (room' & presence & -> & Hid & Hdoc & Htimer & Hconns & Hpres & _) end.
  exists h, room'. simpl in *. rewrite set_set.
  split_and!; try done. by exists presence.
Qed.

(** Registry keys stay distinct, as the keys of a JS [Map] are. *)
Lemma cleanupRoom_NoDup env k (s : State) :
  NoDup (JSMap.keys (rooms s)) →
  NoDup (JSMap.keys (rooms (cleanupRoom env k s).1)).
Proof.
  intros Hnd. rewrite cleanupRoom_rooms.
  destruct (JSMap.get k (rooms s)); [|done].
  case_bool_decide.
  - rewrite keys_delete. by apply NoDup_delete.
  - by apply NoDup_keys_set.
Qed.

Lemma onMessage_NoDup_rooms env c data (s : State) :
  NoDup (JSMap.keys (rooms s)) →
  NoDup (JSMap.keys (rooms (onMessage env c data s).1)).
Proof.
  intros Hnd. unfold onMessage. destruct data as [message|]; [|done].
  case_match; [done|]. case_match.
  - unfold onJoin, deny. repeat (case_match; simpl; try done).
    apply NoDup_keys_set.
    match goal with Hg : getRoom ?e ?i s = (_, ?s') |- _ =>
      replace s' with (getRoom e i s).2 by (by rewrite Hg) end.
    unfold getRoom. repeat case_match; simpl; try done;
      by apply NoDup_keys_set.
  - unfold onYjsUpdate, onCursorUpdate, leaveRoom, refreshHeartbeat.
    repeat (case_match; simpl; try done); by apply NoDup_keys_set.
Qed.

Lemma step_NoDup_rooms (s : State) (i : Input) :
  NoDup (JSMap.keys (rooms s)) → NoDup (JSMap.keys (rooms (step s i).1)).
Proof.
  intros Hnd. destruct i; cbn [step]; try done.
  - by apply onMessage_NoDup_rooms.
  - destruct (onJoinBegun_cases env c message s) as [-> | (h & -> & _)];
      [by apply onMessage_NoDup_rooms | done].
  - destruct (onLoadReturned_rooms env k s) as [-> | (h & room' & _ & -> & _)];
      [done | by apply NoDup_keys_set].
  - unfold onClose, leaveRoom.
    repeat (case_match; simpl; try done). by apply NoDup_keys_set.
  - unfold onPong, refreshHeartbeat.
    repeat (case_match; simpl; try done). by apply NoDup_keys_set.
  - unfold onInterval.
    destruct (cleanupRooms env s) as [s' events] eqn:Hsweep. simpl.
    change s' with (s', events).1. rewrite <- Hsweep. unfold cleanupRooms.
    assert (Hgen : ∀ ks acc, NoDup (JSMap.keys (rooms acc.1)) →
      NoDup (JSMap.keys (rooms (fold_left (sweepOne env) ks acc).1))).
    { induction ks as [|k ks IH]; intros acc Hacc; simpl; [done|].
      apply IH. rewrite sweepOne_state. by apply cleanupRoom_NoDup. }
    by apply Hgen.
  - unfold onPersistTimer.
    repeat (case_match; simpl; try done). by apply NoDup_keys_set.
Qed.

Lemma reachable_NoDup_rooms db kv client (s : State) :
  reachable (initial db kv client) s → NoDup (JSMap.keys (rooms s)).
Proof.
  induction 1 as [|s i Hreach IH Hruns];
    [constructor | by apply step_NoDup_rooms].
Qed.

Lemma reachable_run (s0 s : State) (inputs : list Input) :
  reachable s0 s → reachable s0 (run s inputs).
Proof.
  revert s. induction inputs as [|i inputs IH]; intros s Hs; simpl; [done|].
  destruct (exits (step s i).2) eqn:Hruns; [done|].
  apply IH. by constructor.
Qed.
(** ** Presence broadcasts *)

Lemma broadcast_sourced (s' : State) cl room payload except :
  sourced s' (Send 0%nat payload) →
  Forall (sourced s') (broadcast cl room payload except).
Proof.
  intros Hp. unfold broadcast.
  induction (room_connections room) as [|c cs IH]; simpl; [constructor|].
  apply Forall_app. split; [|exact IH].
  repeat case_match; repeat constructor. exact Hp.
Qed.

Lemma broadcastPresence_sourced (s' : State) cl documentId room :
  JSMap.get documentId (rooms s') = Some room →
  Forall (sourced s') (broadcastPresence cl documentId room).
Proof. intros Hroom. apply broadcast_sourced. simpl. by exists room. Qed.

Lemma broadcast_about cl room documentId users except ev d :
  ev ∈ broadcast cl room (presence_update documentId users) except →
  about ev d → d = documentId.
Proof.
  unfold broadcast. intros Hin Habout.
  apply list_elem_of_In, in_flat_map in Hin as (c & _ & Hin).
  repeat case_match; simpl in Hin; try done.
  destruct Hin as [<-|[]]. simpl in Habout. done.
Qed.

Lemma sweepRoom_events t entries acc ev :
  ev ∈ sw_events (fold_left (evictStale t) entries acc) →
  ev ∈ sw_events acc ∨ ∃ c, ev = Terminate c.
Proof.
  revert acc. induction entries as [|[c p] entries IH]; intros acc Hin; simpl in Hin.
  - by left.
  - apply IH in Hin as [Hin|Hin]; [|by right].
    unfold evictStale in Hin. destruct (stale t p); [|by left].
    simpl in Hin. apply elem_of_app in Hin as [Hin|Hin]; [by left|].
    apply list_elem_of_singleton in Hin. right. by exists c.
Qed.

(** The events of one [cleanupRoom]: terminations, and presence updates
    of the swept document computed from the room it leaves registered. *)
Lemma cleanupRoom_events env k (s : State) ev :
  ev ∈ (cleanupRoom env k s).2 →
  sourced (cleanupRoom env k s).1 ev ∧ ∀ d, about ev d → d = k.
Proof.
  unfold cleanupRoom. destruct (JSMap.get k (rooms s)) as [room|] eqn:Hroom.
  - set (sw := sweepRoom (now env) room s).
    destruct (room_connections (sw_room sw)) as [|c0 cs] eqn:Hconns; simpl.
    + assert (Hnil : broadcastPresence (sw_clients sw) k (sw_room sw) = []).
      { unfold broadcastPresence, broadcast. by rewrite Hconns. }
      rewrite Hnil. intros Hin.
      assert (Hterm : ev ∈ sw_events sw) by (by destruct (sw_updated sw);
        rewrite ?app_nil_r in Hin).
      apply sweepRoom_events in Hterm as [Hterm|[c ->]]; [|done].
      by apply elem_of_nil in Hterm.
    + intros Hin. apply elem_of_app in Hin as [Hin|Hin].
      * apply sweepRoom_events in Hin as [Hin|[c ->]]; [|done].
        by apply elem_of_nil in Hin.
      * destruct (sw_updated sw); [|by apply elem_of_nil in Hin]. split.
        -- assert (Hall : Forall
             (sourced (with_rooms
                (JSMap.set k (sw_room sw)
                   (rooms (with_clients (sw_clients sw)
                             (with_connectionState (sw_connectionState sw) s))))
                (with_clients (sw_clients sw)
                   (with_connectionState (sw_connectionState sw) s))))
             (broadcastPresence (sw_clients sw) k (sw_room sw))).
           { apply broadcastPresence_sourced. simpl. apply get_set_eq. }
           rewrite Forall_forall in Hall. by apply Hall.
        -- intros d Hd. unfold broadcastPresence in Hin.
           by apply (broadcast_about _ _ _ _ _ _ _ Hin).
  - simpl. intros Hin. by apply elem_of_nil in Hin.
Qed.

Lemma sourced_same_room (s1 s2 : State) ev :
  (∀ d, about ev d → JSMap.get d (rooms s2) = JSMap.get d (rooms s1)) →
  sourced s1 ev → sourced s2 ev.
Proof.
  destruct ev as [c [| | |d users]| | | |]; simpl; try done.
  intros Hsame (room & Hroom & Husers). exists room.
  by rewrite (Hsame d eq_refl).
Qed.

Lemma sweepOne_events env acc k :
  (sweepOne env acc k).2 = acc.2 ++ (cleanupRoom env k acc.1).2.
Proof. unfold sweepOne. by destruct (cleanupRoom env k acc.1). Qed.

Lemma cleanupRooms_sourced_from env ks (acc : State * list Event) :
  NoDup ks →
  Forall (λ ev, sourced acc.1 ev ∧ ∀ d, about ev d → d ∉ ks) acc.2 →
  Forall (sourced (fold_left (sweepOne env) ks acc).1)
         (fold_left (sweepOne env) ks acc).2.
Proof.
  revert acc. induction ks as [|k ks IH]; intros acc Hnd Hacc; simpl.
  - eapply Forall_impl; [exact Hacc|]. by intros ev [? _].
  - apply NoDup_cons in Hnd as [Hk Hnd]. apply IH; [done|].
    rewrite sweepOne_events, sweepOne_state. apply Forall_app. split.
    + eapply Forall_impl; [exact Hacc|]. intros ev [Hsrc Habout]. split.
      * apply (sourced_same_room acc.1); [|done].
        intros d Hd. apply cleanupRoom_get_ne.
        specialize (Habout d Hd). rewrite not_elem_of_cons in Habout. tauto.
      * intros d Hd. specialize (Habout d Hd).
        rewrite not_elem_of_cons in Habout. tauto.
    + apply Forall_forall. intros ev Hin.
      apply cleanupRoom_events in Hin as [Hsrc Habout]. split; [done|].
      intros d Hd. by rewrite (Habout d Hd).
Qed.

Lemma pingClients_sourced (s' : State) cl : Forall (sourced s') (pingClients cl).
Proof.
  unfold pingClients. induction cl as [|entry cl IH]; simpl; [constructor|].
  apply Forall_app. split; [|done]. case_match; by repeat constructor.
Qed.

Lemma leaveRoom_sourced c state room (s : State) :
  Forall (sourced (leaveRoom c state room s).1) (leaveRoom c state room s).2.
Proof. apply broadcastPresence_sourced. simpl. apply get_set_eq. Qed.

Lemma onJoin_sourced env c message (s : State) :
  Forall (sourced (onJoin env c message s).1) (onJoin env c message s).2.
Proof.
  unfold onJoin, deny.
  repeat (case_match; simpl; try by repeat constructor).
  constructor; [done|]. apply broadcastPresence_sourced. simpl. apply get_set_eq.
Qed.

Lemma onMessage_sourced env c data (s : State) :
  Forall (sourced (onMessage env c data s).1) (onMessage env c data s).2.
Proof.
  unfold onMessage. destruct data as [message|]; [|constructor].
  case_match; [constructor|].
  case_match; [apply onJoin_sourced|].
  case_match; [|by repeat constructor].
  case_match; [|constructor].
  repeat (case_match; try apply leaveRoom_sourced; try by constructor).
  - unfold onYjsUpdate.
    repeat (case_match; simpl; try by repeat constructor).
    by apply broadcast_sourced.
  - unfold onCursorUpdate. case_match; [|constructor].
    apply broadcastPresence_sourced. simpl. apply get_set_eq.
Qed.

Lemma step_sourced (s : State) (i : Input) :
  NoDup (JSMap.keys (rooms s)) → Forall (sourced (step s i).1) (step s i).2.
Proof.
  intros Hnd. destruct i; cbn [step]; try by constructor.
  - apply onMessage_sourced.
  - destruct (onJoinBegun_cases env c message s) as [-> | (h & -> & _)];
      [apply onMessage_sourced | constructor].
  - destruct (onLoadReturned_rooms env k s)
      as [Hsame | (h & room' & _ & Hrooms & _ & _ & _ & _ & _ & _ & Hevents)].
    + destruct (onLoadReturned_cases env k s)
        as [-> | [(hs & ->) | (h & _ & Hdone)]]; [constructor | constructor |].
      rewrite Hdone in Hsame |- *.
      match goal with |- context [enter ?e ?c ?m ?a ?p ?i ?r ?s0] =>
        destruct (enter_spec e c m a p i r s0) as (room' & presence & -> & _) end.
      constructor; [done|]. apply broadcastPresence_sourced. simpl. apply get_set_eq.
    + rewrite Hevents. constructor; [done|].
      apply broadcastPresence_sourced. rewrite Hrooms. apply get_set_eq.
  - unfold onClose. repeat (case_match; try by constructor).
    apply leaveRoom_sourced.
  - unfold onPong. repeat (case_match; try by constructor).
  - unfold onInterval.
    pose proof (cleanupRooms_sourced_from env (JSMap.keys (rooms s)) (s, []) Hnd)
      as Hsweep.
    fold (cleanupRooms env s) in Hsweep.
    destruct (cleanupRooms env s) as [s' events]. simpl in *.
    apply Forall_app. split; [by apply Hsweep | apply pingClients_sourced].
  - unfold onPersistTimer. repeat (case_match; try by constructor).
Qed.

(** C9. In every [presence_update] frame that any handler sends, the
    users are the deduplicated view of the presence map of the room
    registered for the frame's document when the handler returns:
    their [userId]s are pairwise distinct, each listed entry is an entry
    of that room, no entry of the same user in the room has a greater
    [lastHeartbeat], and every user present in the room is listed. *)
Theorem presence_update_users_distinct_latest
    (s : State) (i : Input) (c : Conn) (documentId : string)
    (users : list Presence) :
  NoDup (JSMap.keys (rooms s)) →
  Send c (presence_update documentId users) ∈ (step s i).2 →
  ∃ room : Room,
    JSMap.get documentId (rooms (step s i).1) = Some room
    ∧ NoDup (p_userId <$> users)
    ∧ (∀ e, e ∈ users →
         e ∈ JSMap.values (room_presence room)
         ∧ ∀ p, p ∈ JSMap.values (room_presence room) →
                p_userId p = p_userId e →
                p_lastHeartbeat p ≤ p_lastHeartbeat e)
    ∧ (∀ p, p ∈ JSMap.values (room_presence room) →
         ∃ e, e ∈ users ∧ p_userId e = p_userId p).
Proof.
  intros Hnd Hin.
  pose proof (step_sourced s i Hnd) as Hall.
  rewrite Forall_forall in Hall. apply Hall in Hin as (room & Hroom & ->).
  exists room. split; [done|]. apply presenceUsers_spec.
Qed.
End Properties.


(** * Further properties of the relay *)

Section Coverage.
Context `{Yjs, NodeBuffer, Jose, Prisma}.

(** ** Admission *)

Lemma nullish_truthy (v : JsVal) : truthy v = true → nullish v JNull = v.
Proof. by destruct v. Qed.

Lemma nullish_falsy (v : JsVal) : truthy v = false → truthy (nullish v JNull) = false.
Proof. by destruct v. Qed.

Lemma verifyToken_refuses (token : JsVal) :
  jwtVerify token = None
  ∨ (∃ payload, jwtVerify token = Some payload
       ∧ (default ""%string (claim_userId payload) = ""%string
          ∨ default ""%string (claim_email payload) = ""%string)) →
  verifyToken token = None.
Proof.
  unfold verifyToken, nonempty.
  intros [Hthrow|(payload & Hverify & Hclaims)]; rewrite ?Hthrow, ?Hverify; [done|].
  destruct (claim_userId payload) as [u|], (claim_email payload) as [e|];
    simpl in Hclaims; try done.
  destruct Hclaims as [-> | ->]; simpl; [done|].
  by rewrite andb_false_r.
Qed.

(** X1. A [join_document] frame without a token, with a token that does
    not verify, or with a verified token whose payload lacks a non-empty
    [userId] or [email], is answered by the single frame [Unauthorized]
    and the close of the socket; nothing else changes: no room is
    created and no connection state is recorded. *)
Theorem join_without_valid_token
    (s : State) (env : Env) (c : Conn) (message : JsVal) :
  is_type message "join_document" →
  truthy (prop message "token") = false
  ∨ jwtVerify (prop message "token") = None
  ∨ (∃ payload, jwtVerify (prop message "token") = Some payload
       ∧ (default ""%string (claim_userId payload) = ""%string
          ∨ default ""%string (claim_email payload) = ""%string)) →
  step s (message_received c (Some message) env) =
    (with_clients (ws_close c (clients s)) s,
     [Send c (error_frame "Unauthorized"); CloseCall c]).
Proof.
  intros Htype Htoken. cbn [step]. unfold onMessage.
  apply str_eq_true in Htype. rewrite Htype. simpl. unfold onJoin, deny.
  destruct (truthy (prop message "token")) eqn:Htruthy.
  - rewrite (nullish_truthy _ Htruthy), Htruthy. simpl.
    destruct (truthy (prop message "documentId")); simpl; [|done].
    rewrite verifyToken_refuses; [done|].
    destruct Htoken as [Hfalse|Hrefused]; [done | exact Hrefused].
  - by rewrite (nullish_falsy _ Htruthy).
Qed.

(** X2. A [join_document] frame with a verified token for which access
    resolution answers an error is refused with one frame and the close
    of the socket, and changes nothing else: the frame reads
    [Access denied] for [noAccess] and [Document not found] for
    [notFound]; in particular a failing document lookup and an absent
    document both read [Document not found]. *)
Theorem join_denied
    (s : State) (env : Env) (c : Conn) (message : JsVal) (auth : Auth)
    (id : string) :
  is_type message "join_document" →
  truthy (prop message "token") = true →
  verifyToken (prop message "token") = Some auth →
  prop message "documentId" = JStr id →
  id ≠ ""%string →
  let access :=
    getDocumentAccess (prisma (storage s)) env (JStr id) (auth_userId auth)
      (nullish (prop message "shareToken") JNull) in
  let refused text :=
    step s (message_received c (Some message) env) =
      (with_clients (ws_close c (clients s)) s,
       [Send c (error_frame text); CloseCall c]) in
  (access = Some (access_error noAccess) → refused "Access denied"%string)
  ∧ (access = Some (access_error notFound) → refused "Document not found"%string)
  ∧ (throws_findDocument env = true
     ∨ findUnique_document (prisma (storage s)) id = None →
     refused "Document not found"%string).
Proof.
  intros Htype Htruthy Hauth Hid Hne access refused.
  assert (Hstep : ∀ e, access = Some (access_error e) →
    step s (message_received c (Some message) env) =
      deny c (match e with
              | noAccess => "Access denied"
              | _ => "Document not found"
              end)%string s).
  { intros e Haccess. cbn [step]. unfold onMessage.
    apply str_eq_true in Htype. rewrite Htype. simpl. unfold onJoin.
    rewrite (nullish_truthy _ Htruthy), Htruthy, Hid, (nonempty_truthy _ Hne), Hauth.
    simpl negb. simpl orb. cbv iota. fold access. rewrite Haccess.
    by destruct e. }
  split_and!.
  - intros Haccess. exact (Hstep noAccess Haccess).
  - intros Haccess. exact (Hstep notFound Haccess).
  - intros Hmissing. apply (Hstep notFound).
    unfold access, getDocumentAccess. rewrite (nonempty_truthy _ Hne). simpl.
    destruct Hmissing as [Hthrow|Habsent]; rewrite ?Hthrow, ?Habsent; [done|].
    by destruct (throws_findDocument env).
Qed.

(** ** Dispatch *)

(** X3. A frame with a type other than [join_document], from a
    connection that has no connection state (never joined, or left), is
    answered by the single frame [Not joined]; the state is unchanged
    and the socket is not closed. *)
Theorem frame_before_join
    (s : State) (env : Env) (c : Conn) (message : JsVal) :
  truthy (prop message "type") = true →
  str_eq (prop message "type") "join_document" = false →
  connectionState s !! c = None →
  step s (message_received c (Some message) env) =
    (s, [Send c (error_frame "Not joined")]).
Proof.
  intros Htype Hjoin Hstate. cbn [step]. unfold onMessage.
  by rewrite Htype, Hjoin, Hstate.
Qed.

(** X4. Frames the server drops without a trace: data that does not
    parse, a frame without a type, a frame of no known type from a
    joined connection, and any frame but a join from a connection whose
    state names a document that has no registered room.  The state is
    unchanged and nothing is sent, not even an error. *)
Theorem frames_dropped_silently
    (s : State) (env : Env) (c : Conn) (message : JsVal) :
  step s (message_received c None env) = (s, [])
  ∧ (truthy (prop message "type") = false →
     step s (message_received c (Some message) env) = (s, []))
  ∧ (∀ state room type,
       joined s c state room → is_type message type →
       type ∉ ["join_document"; "yjs_update"; "cursor_update";
               "leave_document"; "heartbeat"; ""]%string →
       step s (message_received c (Some message) env) = (s, []))
  ∧ (∀ state,
       connectionState s !! c = Some state →
       JSMap.get (st_documentId state) (rooms s) = None →
       str_eq (prop message "type") "join_document" = false →
       step s (message_received c (Some message) env) = (s, [])).
Proof.
  split_and!.
  - done.
  - intros Htype. cbn [step]. unfold onMessage. by rewrite Htype.
  - intros state room type Hjoined Htype Hunknown.
    assert (Hne : ∀ known, known ∈ ["join_document"; "yjs_update"; "cursor_update";
                                    "leave_document"; "heartbeat"; ""]%string →
                           String.eqb type known = false).
    { intros known Hknown. apply String.eqb_neq. intros ->. by apply Hunknown. }
    cbn [step]. rewrite (onMessage_joined _ _ _ _ _ _ type Hjoined Htype).
    + rewrite !Hne; [done | set_solver..].
    + intros ->. apply Hunknown. set_solver.
    + intros ->. apply Hunknown. set_solver.
  - intros state Hstate Hroom Hjoin. cbn [step]. unfold onMessage.
    destruct (truthy (prop message "type")); simpl; [|done].
    by rewrite Hjoin, Hstate, Hroom.
Qed.

(** ** Fan-out of updates *)

Lemma schedulePersist_connections_eq st (room : Room) :
  room_connections (schedulePersist st room) = room_connections room.
Proof. unfold schedulePersist. by destruct (room_persistTimeout room). Qed.

(** The sends of [broadcast], in order: one to each connection of the
    room that is open and is not the excepted one. *)
Lemma broadcast_filter cl (room : Room) payload except :
  broadcast cl room payload except =
  (λ peer, Send peer payload) <$>
    filter (λ peer, readyState cl peer = OPEN ∧ except ≠ Some peer)
           (room_connections room).
Proof.
  unfold broadcast. induction (room_connections room) as [|peer peers IH]; [done|].
  simpl. rewrite IH. case_bool_decide as Hopen; simpl.
  - case_bool_decide as Hexcept; simpl.
    + rewrite filter_cons_False; [done|]. by intros [_ ?].
    + by rewrite filter_cons_True.
  - rewrite filter_cons_False; [done|]. by intros [? _].
Qed.

(** X5. An update from a joined connection that is not a viewer, whose
    bytes decode and apply, becomes the room's document, is recorded as
    an operation, leaves a persist timer pending and writes to neither
    persistence tier; the frame sent carries the sender's own [update]
    field and goes, in the order of the room's connections, to every
    open connection of the room except the sender. *)
Theorem editor_update_fans_out
    (s : State) (env : Env) (c : Conn) (message : JsVal)
    (state : ConnState) (room : Room) (update : Bytes) (d : YDoc) :
  joined s c state room →
  st_permission state ≠ "viewer"%string →
  is_type message "yjs_update" →
  truthy (prop message "update") = true →
  decodeUpdate (prop message "update") = Some update →
  Y_applyUpdate (room_doc room) update = Applied d →
  let result := step s (message_received c (Some message) env) in
  result.2 =
    (λ peer, Send peer (yjs_update (st_documentId state) (prop message "update")))
      <$> filter (λ peer, readyState (clients s) peer = OPEN ∧ peer ≠ c)
                 (room_connections room)
  ∧ (∃ room',
       JSMap.get (st_documentId state) (rooms result.1) = Some room'
       ∧ room_doc room' = d
       ∧ is_Some (room_persistTimeout room')
       ∧ room_connections room' = room_connections room
       ∧ room_presence room' = room_presence room)
  ∧ operations result.1 = recordOperation (now env) (operations s)
  ∧ storage result.1 = storage s
  ∧ connectionState result.1 = connectionState s
  ∧ clients result.1 = clients s.
Proof.
  intros Hjoined Hperm Htype Htruthy Hdecode Happly result. unfold result.
  cbn [step]. rewrite (onMessage_joined _ _ _ _ _ _ _ Hjoined Htype); [|done..].
  simpl. unfold onYjsUpdate. rewrite Htruthy, Hdecode, Happly.
  destruct (String.eqb_spec (st_permission state) "viewer"); [done|].
  simpl. split_and!; try done.
  - rewrite broadcast_filter, schedulePersist_connections_eq.
    f_equal. apply list_filter_iff. intros peer. split.
    + intros [Hopen Hne]. split; [done | congruence].
    + intros [Hopen Hne]. split; [done | congruence].
  - eexists. rewrite get_set_eq. split; [reflexivity|].
    unfold schedulePersist. simpl.
    destruct (room_persistTimeout room) eqn:Hpending; simpl; rewrite ?Hpending;
      split_and!; try done; by eexists.
Qed.

(** X6. An update from a joined connection that is not a viewer, whose
    bytes do not decode, changes nothing and sends nothing; one whose
    bytes decode but make Yjs throw sends nothing either, records no
    operation and schedules no persist: only the room's document is
    what the failed call left.  The sender gets no error frame and is
    not closed. *)
Theorem failed_update_dropped
    (s : State) (env : Env) (c : Conn) (message : JsVal)
    (state : ConnState) (room : Room) :
  joined s c state room →
  st_permission state ≠ "viewer"%string →
  is_type message "yjs_update" →
  truthy (prop message "update") = true →
  (decodeUpdate (prop message "update") = None →
     step s (message_received c (Some message) env) = (s, []))
  ∧ (∀ update d,
       decodeUpdate (prop message "update") = Some update →
       Y_applyUpdate (room_doc room) update = Threw d →
       step s (message_received c (Some message) env) =
         (with_rooms
            (JSMap.set (st_documentId state) (room_with_doc d room) (rooms s)) s,
          [])).
Proof.
  intros Hjoined Hperm Htype Htruthy.
  assert (Hstep : step s (message_received c (Some message) env) =
                  onYjsUpdate env c message state room s).
  { cbn [step]. by rewrite (onMessage_joined _ _ _ _ _ _ _ Hjoined Htype). }
  rewrite Hstep. unfold onYjsUpdate. rewrite Htruthy.
  destruct (String.eqb_spec (st_permission state) "viewer"); [done|].
  split.
  - by intros ->.
  - intros update d -> ->. done.
Qed.

(** X7. The persist timer is debounced: an applied update on a room
    whose timer is pending keeps that timer and its delay, whatever the
    cache's readiness has become; on a room without a timer it
    schedules one, 1000 ms ahead when the cache is ready and 5000 ms
    otherwise. *)
Theorem persist_timer_debounced
    (s : State) (env : Env) (c : Conn) (message : JsVal)
    (state : ConnState) (room : Room) (update : Bytes) (d : YDoc) :
  joined s c state room →
  st_permission state ≠ "viewer"%string →
  is_type message "yjs_update" →
  truthy (prop message "update") = true →
  decodeUpdate (prop message "update") = Some update →
  Y_applyUpdate (room_doc room) update = Applied d →
  room_persistTimeout
    <$> JSMap.get (st_documentId state)
          (rooms (step s (message_received c (Some message) env)).1)
  = Some (match room_persistTimeout room with
          | Some delay => Some delay
          | None => Some (if cacheReady (storage s) then 1000 else 5000)
          end).
Proof.
  intros Hjoined Hperm Htype Htruthy Hdecode Happly.
  cbn [step]. rewrite (onMessage_joined _ _ _ _ _ _ _ Hjoined Htype); [|done..].
  simpl. unfold onYjsUpdate. rewrite Htruthy, Hdecode, Happly.
  destruct (String.eqb_spec (st_permission state) "viewer"); [done|].
  simpl. rewrite get_set_eq. simpl. unfold schedulePersist. simpl.
  destruct (room_persistTimeout room) eqn:Hpending; simpl; [by rewrite Hpending|].
  by destruct (cacheReady (storage s)).
Qed.

(** ** Presence frames *)

(** The sends of [broadcastPresence]: the deduplicated users, to every
    open connection of the room, the order being the room's. *)
Lemma broadcastPresence_filter cl documentId (room : Room) :
  broadcastPresence cl documentId room =
  (λ peer, Send peer (presence_update documentId (presenceUsers room))) <$>
    filter (λ peer, readyState cl peer = OPEN) (room_connections room).
Proof.
  unfold broadcastPresence. rewrite broadcast_filter. f_equal.
  apply list_filter_iff. intros peer. split; [by intros [? _] | done].
Qed.

Lemma get_Some_keys {V} (k : Conn) (v : V) (m : list (Conn * V)) :
  JSMap.get k m = Some v → k ∈ JSMap.keys m.
Proof.
  intros Hget. destruct (decide (k ∈ JSMap.keys m)) as [|Hnot]; [done|].
  apply get_None_keys in Hnot. congruence.
Qed.

Lemma keys_set_present {V} (k : Conn) (v v' : V) (m : list (Conn * V)) :
  JSMap.get k m = Some v → JSMap.keys (JSMap.set k v' m) = JSMap.keys m.
Proof.
  intros Hget. rewrite keys_set. rewrite decide_True; [done|].
  by apply get_Some_keys with v.
Qed.


(** ** Leaving and closing *)

Lemma delete_delete {V} (k : Conn) (m : list (Conn * V)) :
  JSMap.delete k (JSMap.delete k m) = JSMap.delete k m.
Proof.
  induction m as [|[k' v] m IH]; simpl; [done|].
  destruct (decide (k = k')) as [->|Hne]; simpl; [done|].
  rewrite decide_False by done. by rewrite IH.
Qed.

Lemma not_elem_of_delete (c : Conn) (l : list Conn) : c ∉ JSSet.delete c l.
Proof. rewrite elem_of_delete. by intros [_ ?]. Qed.

(** X9. A [leave_document] frame from a joined connection removes it
    from the three tracking structures at once (its room's connections
    and presence, and [connectionState]), keeps the other members, the
    document, the pending timer and the socket as they are, and sends
    the new deduplicated view to the open connections that remain; from
    then on every frame of the connection other than a join is answered
    [Not joined]. *)
Theorem leave_document_forgets
    (s : State) (env : Env) (c : Conn) (message : JsVal)
    (state : ConnState) (room : Room) :
  joined s c state room →
  is_type message "leave_document" →
  let result := step s (message_received c (Some message) env) in
  connectionState result.1 = delete c (connectionState s)
  ∧ clients result.1 = clients s
  ∧ storage result.1 = storage s
  ∧ (∃ room',
       JSMap.get (st_documentId state) (rooms result.1) = Some room'
       ∧ ¬ (c ∈ room_connections room')
       ∧ JSMap.get c (room_presence room') = None
       ∧ (∀ peer, peer ≠ c →
            (peer ∈ room_connections room' ↔ peer ∈ room_connections room)
            ∧ JSMap.get peer (room_presence room')
              = JSMap.get peer (room_presence room))
       ∧ room_doc room' = room_doc room
       ∧ room_persistTimeout room' = room_persistTimeout room
       ∧ result.2 =
           (λ peer, Send peer (presence_update (st_documentId state)
                                 (presenceUsers room')))
             <$> filter (λ peer, readyState (clients s) peer = OPEN)
                        (room_connections room'))
  ∧ (∀ env' next,
       truthy (prop next "type") = true →
       str_eq (prop next "type") "join_document" = false →
       step result.1 (message_received c (Some next) env') =
         (result.1, [Send c (error_frame "Not joined")])).
Proof.
  intros Hjoined Htype result. unfold result.
  cbn [step]. rewrite (onMessage_joined _ _ _ _ _ _ _ Hjoined Htype); [|done..].
  simpl. split_and!; try done.
  - eexists. rewrite get_set_eq. split; [reflexivity|]. simpl. split_and!; try done.
    + apply not_elem_of_delete.
    + apply get_delete_eq.
    + intros peer Hne. split; [rewrite elem_of_delete; tauto|].
      by rewrite get_delete_ne.
    + by rewrite broadcastPresence_filter.
  - intros env' next Htruthy Hjoin. unfold onMessage.
    rewrite Htruthy, Hjoin. simpl. by rewrite lookup_delete_eq.
Qed.

(** X10. The close handler can run twice: after a close, the connection
    has no state and no socket in [wss.clients], and a second close of
    it changes nothing and sends nothing. *)
Theorem close_twice (s : State) (c : Conn) :
  let closed := (step s (connection_closed c)).1 in
  connectionState closed !! c = None
  ∧ JSMap.get c (clients closed) = None
  ∧ step closed (connection_closed c) = (closed, []).
Proof.
  assert (Hclosed :
    connectionState (step s (connection_closed c)).1 !! c = None
    ∧ clients (step s (connection_closed c)).1 = JSMap.delete c (clients s)).
  { cbn [step]. unfold onClose, leaveRoom. simpl.
    destruct (connectionState s !! c) as [state|] eqn:Hstate; simpl; [|done].
    destruct (JSMap.get (st_documentId state) (rooms s)); simpl;
      by rewrite lookup_delete_eq. }
  destruct Hclosed as [Hstate Hclients]. intros closed. fold closed in Hstate, Hclients.
  split_and!; [done | by rewrite Hclients, get_delete_eq |].
  cbn [step]. unfold onClose. simpl. rewrite Hstate.
  rewrite Hclients, delete_delete, <- Hclients. by destruct closed.
Qed.

(** ** Joining a room that exists *)

(** X11. A granted join of a document whose room is registered loads
    nothing: the room keeps its identity, document and pending timer,
    and both persistence tiers are left alone.  The connection is added
    to the room (once, at the end if it is new), its state records the
    document, the user and the permission, and its presence entry
    starts from the frame's fields with the defaults of the code (the
    token's email as name, [#0ea5e9], cursor 0, selection 0-0, not
    typing); the other entries are kept.  The joiner is sent [doc_sync]
    with the room's full state first, then every open member gets the
    new presence view. *)
Theorem join_existing_room
    (s : State) (env : Env) (c : Conn) (message : JsVal)
    (auth : Auth) (permission id : string) (room : Room) :
  is_type message "join_document" →
  truthy (prop message "token") = true →
  verifyToken (prop message "token") = Some auth →
  prop message "documentId" = JStr id →
  getDocumentAccess (prisma (storage s)) env (JStr id) (auth_userId auth)
    (nullish (prop message "shareToken") JNull)
    = Some (access_permission permission) →
  JSMap.get id (rooms s) = Some room →
  let result := step s (message_received c (Some message) env) in
  ∃ room',
    JSMap.get id (rooms result.1) = Some room'
    ∧ room_id room' = room_id room
    ∧ room_doc room' = room_doc room
    ∧ room_persistTimeout room' = room_persistTimeout room
    ∧ room_connections room' = JSSet.add c (room_connections room)
    ∧ JSMap.get c (room_presence room') =
        Some {| p_userId := auth_userId auth;
                p_name := nullish (prop (prop message "user") "name")
                                  (JStr (auth_email auth));
                p_avatarColor := nullish (prop (prop message "user") "avatarColor")
                                         (JStr "#0ea5e9");
                p_cursorPosition := nullish (prop message "cursorPosition") (JNum 0);
                p_selectionRange :=
                  nullish (prop message "selectionRange")
                          (JObj [("start", JNum 0); ("end", JNum 0)]%string);
                p_isTyping := JBool false;
                p_lastHeartbeat := now env |}
    ∧ (∀ peer, peer ≠ c →
         JSMap.get peer (room_presence room') = JSMap.get peer (room_presence room))
    ∧ connectionState result.1 =
        <[c := {| st_documentId := id; st_userId := auth_userId auth;
                  st_permission := permission |}]> (connectionState s)
    ∧ storage result.1 = storage s
    ∧ JSMap.keys (rooms result.1) = JSMap.keys (rooms s)
    ∧ result.2 =
        Send c (doc_sync id (encodeUpdate (Y_encodeStateAsUpdate (room_doc room))))
          :: ((λ peer, Send peer (presence_update id (presenceUsers room')))
                <$> filter (λ peer, readyState (clients s) peer = OPEN)
                           (room_connections room')).
Proof.
  intros Htype Htok Hauth Hid Haccess Hroom result. unfold result.
  assert (Htruthy : truthy (JStr id) = true).
  { destruct (truthy (JStr id)) eqn:Ht; [done|].
    unfold getDocumentAccess in Haccess. by rewrite Ht in Haccess. }
  cbn [step]. unfold onMessage.
  apply str_eq_true in Htype. rewrite Htype. simpl. unfold onJoin.
  rewrite (nullish_truthy _ Htok), Htok, Hid, Htruthy, Hauth.
  simpl negb. simpl orb. cbv iota. rewrite Haccess.
  unfold getRoom. rewrite Hroom. cbn zeta. simpl.
  eexists. rewrite get_set_eq. split; [reflexivity|]. simpl.
  split_and!; try done.
  - by rewrite get_set_eq.
  - intros peer Hne. by rewrite get_set_ne.
  - rewrite keys_set, decide_True; [done|].
    destruct (decide (id ∈ JSMap.keys (rooms s))) as [|Hnot]; [done|].
    apply get_None_keys in Hnot. congruence.
  - by rewrite broadcastPresence_filter.
Qed.

(** ** What the handlers leave alone *)

Lemma getRoom_storage env id (s : State) :
  storage (getRoom env id s).2 = storage s.
Proof. unfold getRoom. by repeat case_match. Qed.

Lemma onMessage_storage env c data (s : State) :
  storage (onMessage env c data s).1 = storage s.
Proof.
  unfold onMessage. destruct data as [message|]; [|done].
  case_match; [done|]. case_match.
  - unfold onJoin, deny. repeat (case_match; simpl; try done).
    match goal with Hg : getRoom ?e ?i s = (_, ?s') |- _ =>
      replace s' with (getRoom e i s).2 by (by rewrite Hg) end.
    apply getRoom_storage.
  - unfold onYjsUpdate, onCursorUpdate, leaveRoom, refreshHeartbeat.
    by repeat (case_match; simpl; try done).
Qed.

Lemma cleanupRoom_storage env k (s : State) :
  storage (cleanupRoom env k s).1 = storage s.
Proof. unfold cleanupRoom. by repeat case_match. Qed.

Lemma cleanupRooms_storage env (s : State) :
  storage (cleanupRooms env s).1 = storage s.
Proof.
  unfold cleanupRooms.
  assert (Hgen : ∀ ks acc, storage (fold_left (sweepOne env) ks acc).1 = storage acc.1).
  { induction ks as [|k ks IH]; intros acc; simpl; [done|].
    by rewrite IH, sweepOne_state, cleanupRoom_storage. }
  apply Hgen.
Qed.

(** X12. Persistence is deferred: no input other than the firing of a
    persist timer writes to the cache or to the durable store, or moves
    the record of the last durable writes; an applied update, a join, a
    close or a sweep never persists by itself. *)
Theorem only_persist_timer_writes (s : State) (i : Input) :
  (∀ rid env, i ≠ persist_timer_fired rid env) →
  redisStore (storage (step s i).1) = redisStore (storage s)
  ∧ prisma (storage (step s i).1) = prisma (storage s)
  ∧ lastDbPersist (storage (step s i).1) = lastDbPersist (storage s).
Proof.
  intros Hnot. destruct i; cbn [step]; try done.
  - by rewrite onMessage_storage.
  - destruct (onJoinBegun_cases env c message s) as [-> | (h & -> & _)];
      [by rewrite onMessage_storage | done].
  - destruct (onLoadReturned_cases env k s)
      as [-> | [(hs & ->) | (h & _ & ->)]]; done.
  - unfold onClose, leaveRoom. by repeat (case_match; simpl; try done).
  - unfold onPong, refreshHeartbeat. by repeat (case_match; simpl; try done).
  - unfold onInterval.
    pose proof (cleanupRooms_storage env s) as Hsweep.
    destruct (cleanupRooms env s) as [s' events]. simpl in *. by rewrite Hsweep.
  - by destruct (Hnot rid env).
Qed.

Lemma crdtOf_set_same (s : State) documentId target (room room' : Room) :
  JSMap.get target (rooms s) = Some room →
  room_doc room' = room_doc room →
  crdtOf (with_rooms (JSMap.set target room' (rooms s)) s) documentId
  = crdtOf s documentId.
Proof.
  intros Hroom Hdoc. unfold crdtOf. simpl.
  destruct (decide (target = documentId)) as [->|Hne].
  - rewrite get_set_eq, Hroom. simpl. by rewrite Hdoc.
  - by rewrite get_set_ne.
Qed.

(** X13. Whatever frame but a join a viewer sends (an update, a cursor
    update, a heartbeat, a leave, an unknown type, garbage), no room's
    document changes and nothing is written to either persistence
    tier. *)
Theorem viewer_frames_keep_documents
    (s : State) (env : Env) (c : Conn) (data : option JsVal) (state : ConnState) :
  connectionState s !! c = Some state →
  st_permission state = "viewer"%string →
  (∀ message, data = Some message →
     str_eq (prop message "type") "join_document" = false) →
  let result := step s (message_received c data env) in
  (∀ documentId, crdtOf result.1 documentId = crdtOf s documentId)
  ∧ storage result.1 = storage s.
Proof.
  intros Hstate Hviewer Hnojoin result. unfold result.
  split; [|cbn [step]; apply onMessage_storage].
  intros documentId. cbn [step]. unfold onMessage.
  destruct data as [message|]; [|done].
  rewrite (Hnojoin message eq_refl), Hstate.
  destruct (truthy (prop message "type")); simpl; [|done].
  destruct (JSMap.get (st_documentId state) (rooms s)) as [room|] eqn:Hroom; [|done].
  unfold onYjsUpdate, onCursorUpdate, leaveRoom, refreshHeartbeat.
  rewrite Hviewer. simpl.
  repeat (case_match; simpl; try done);
    by apply (crdtOf_set_same s documentId (st_documentId state) room).
Qed.

(** ** The sweeper *)

Lemma get_Some_keys' {V} (k : string) (v : V) (m : list (string * V)) :
  JSMap.get k m = Some v → k ∈ JSMap.keys m.
Proof.
  intros Hget. destruct (decide (k ∈ JSMap.keys m)) as [|Hnot]; [done|].
  apply get_None_keys in Hnot. congruence.
Qed.

Lemma elem_of_JSMap_delete {V} (k : Conn) (m : list (Conn * V)) (kv : Conn * V) :
  kv ∈ JSMap.delete k m ↔ kv ∈ m ∧ kv.1 ≠ k.
Proof.
  induction m as [|[k' v'] m IH]; simpl.
  - split; [intros Hin; by apply elem_of_nil in Hin | by intros [Hin _]].
  - destruct (decide (k = k')) as [->|Hne].
    + rewrite IH, elem_of_cons. split; [naive_solver|].
      intros [[->|Hin] Hkv]; [done | by split].
    + rewrite !elem_of_cons, IH. split; [|naive_solver].
      intros [->|[Hin Hkv]]; [|naive_solver]. split; [by left | simpl; congruence].
Qed.

(** The presence entries that the eviction loop leaves in the room. *)
Lemma sweep_presence t entries acc (kv : Conn * Presence) :
  kv ∈ room_presence (sw_room (fold_left (evictStale t) entries acc)) ↔
  kv ∈ room_presence (sw_room acc)
  ∧ kv.1 ∉ (filter (λ entry, stale t entry.2 = true) entries).*1.
Proof.
  revert acc. induction entries as [|[c p] entries IH]; intros acc; simpl.
  - split; [intros Hin; split; [done | apply not_elem_of_nil] | by intros [Hin _]].
  - rewrite IH. unfold evictStale. destruct (stale t p) eqn:Hstale.
    + rewrite filter_cons_True by done. csimpl.
      rewrite elem_of_JSMap_delete, not_elem_of_cons. tauto.
    + rewrite filter_cons_False; [done|]. simpl. by rewrite Hstale.
Qed.

Lemma sweep_room_fields t entries acc :
  room_doc (sw_room (fold_left (evictStale t) entries acc)) = room_doc (sw_room acc)
  ∧ room_persistTimeout (sw_room (fold_left (evictStale t) entries acc))
    = room_persistTimeout (sw_room acc)
  ∧ room_id (sw_room (fold_left (evictStale t) entries acc)) = room_id (sw_room acc).
Proof.
  revert acc. induction entries as [|[c p] entries IH]; intros acc; [done|].
  cbn [fold_left].
  destruct (IH (evictStale t acc (c, p))) as (Hdoc & Htimer & Hid).
  rewrite Hdoc, Htimer, Hid. unfold evictStale. by destruct (stale t p).
Qed.

Lemma sweep_room_independent t entries acc1 acc2 :
  sw_room acc1 = sw_room acc2 →
  sw_room (fold_left (evictStale t) entries acc1)
  = sw_room (fold_left (evictStale t) entries acc2).
Proof.
  revert acc1 acc2. induction entries as [|[c p] entries IH]; intros acc1 acc2 Heq;
    simpl; [done|].
  apply IH. unfold evictStale. destruct (stale t p); [|done]. simpl. by rewrite Heq.
Qed.

Lemma sweepRoom_independent t (room : Room) (s1 s2 : State) :
  sw_room (sweepRoom t room s1) = sw_room (sweepRoom t room s2).
Proof. unfold sweepRoom. by apply sweep_room_independent. Qed.

(** The registry after the pass over the keys [ks], read against a
    fixed state [s0] that only fixes how the swept room is written. *)
Lemma cleanupRooms_get env ks (acc : State * list Event) (s0 : State) documentId :
  NoDup ks →
  JSMap.get documentId (rooms (fold_left (sweepOne env) ks acc).1) =
  if decide (documentId ∈ ks)
  then match JSMap.get documentId (rooms acc.1) with
       | Some room =>
           if bool_decide (survivors (now env) room = []) then None
           else Some (sw_room (sweepRoom (now env) room s0))
       | None => None
       end
  else JSMap.get documentId (rooms acc.1).
Proof.
  revert acc. induction ks as [|k ks IH]; intros acc Hnd; simpl; [done|].
  apply NoDup_cons in Hnd as [Hk Hnd]. rewrite (IH _ Hnd), sweepOne_state.
  destruct (decide (documentId = k)) as [->|Hne].
  - rewrite decide_False by done. rewrite decide_True by left.
    rewrite cleanupRoom_rooms.
    destruct (JSMap.get k (rooms acc.1)) as [room|] eqn:Hroom; [|by rewrite Hroom].
    case_bool_decide; [by rewrite get_delete_eq|].
    rewrite get_set_eq. f_equal. apply sweepRoom_independent.
  - rewrite cleanupRoom_get_ne by done.
    destruct (decide (documentId ∈ ks)) as [Hin|Hnin].
    + by rewrite decide_True by (by right).
    + by rewrite decide_False by (rewrite not_elem_of_cons; done).
Qed.

(** X14. After a sweeper pass, every room still registered is the room
    that was registered before, with the same document and timer, less
    the entries whose heartbeat was more than 10 s old and the
    connections of those entries: it has at least one connection, and
    none of its presence entries is stale. *)
Theorem sweep_leaves_no_stale_entry
    (s : State) (env : Env) (documentId : string) (room' : Room) :
  NoDup (JSMap.keys (rooms s)) →
  JSMap.get documentId (rooms (step s (interval_elapsed env)).1) = Some room' →
  ∃ room,
    JSMap.get documentId (rooms s) = Some room
    ∧ room_connections room' = survivors (now env) room
    ∧ room_connections room' ≠ []
    ∧ (∀ c p, (c, p) ∈ room_presence room' ↔
              (c, p) ∈ room_presence room ∧ c ∉ evicted (now env) room)
    ∧ (∀ c p, (c, p) ∈ room_presence room' →
              now env - p_lastHeartbeat p ≤ heartbeatTimeoutMs)
    ∧ room_doc room' = room_doc room
    ∧ room_persistTimeout room' = room_persistTimeout room.
Proof.
  intros Hnd Hget. cbn [step] in Hget. unfold onInterval in Hget.
  destruct (cleanupRooms env s) as [s' events] eqn:Hsweep. simpl in Hget.
  replace s' with (cleanupRooms env s).1 in Hget by (by rewrite Hsweep).
  unfold cleanupRooms in Hget.
  rewrite (cleanupRooms_get env _ (s, []) s documentId Hnd) in Hget. simpl in Hget.
  destruct (JSMap.get documentId (rooms s)) as [room|] eqn:Hroom.
  - destruct (decide (documentId ∈ JSMap.keys (rooms s))) as [Hin|Hnin].
    + destruct (bool_decide (survivors (now env) room = [])) eqn:Hempty; [done|].
      apply bool_decide_eq_false in Hempty as Hsurv.
      injection Hget as <-. exists room.
      assert (Hpres : ∀ c p,
        (c, p) ∈ room_presence (sw_room (sweepRoom (now env) room s)) ↔
        (c, p) ∈ room_presence room ∧ c ∉ evicted (now env) room).
      { intros c p. unfold sweepRoom. by rewrite sweep_presence. }
      split_and!; try done.
      * apply sweepRoom_survivors.
      * by rewrite sweepRoom_survivors.
      * intros c p Hleft. apply Hpres in Hleft as [Hentry Hkept].
        destruct (Z.ltb_spec heartbeatTimeoutMs (now env - p_lastHeartbeat p))
          as [Hlt|Hle]; [|done].
        exfalso. apply Hkept. unfold evicted.
        apply list_elem_of_fmap. exists (c, p). split; [done|].
        apply list_elem_of_filter. split; [|exact Hentry].
        unfold stale. simpl. by apply Z.ltb_lt.
      * unfold sweepRoom. by destruct (sweep_room_fields (now env) (room_presence room)
          {| sw_room := room; sw_connectionState := connectionState s;
             sw_clients := clients s; sw_events := []; sw_updated := false |})
          as (-> & _ & _).
      * unfold sweepRoom. by destruct (sweep_room_fields (now env) (room_presence room)
          {| sw_room := room; sw_connectionState := connectionState s;
             sw_clients := clients s; sw_events := []; sw_updated := false |})
          as (_ & -> & _).
    + exfalso. apply Hnin. by apply get_Some_keys' with room.
  - by destruct (decide (documentId ∈ JSMap.keys (rooms s))).
Qed.

Lemma sweep_mono t entries acc :
  (∀ ev, ev ∈ sw_events acc → ev ∈ sw_events (fold_left (evictStale t) entries acc))
  ∧ (∀ c, sw_connectionState acc !! c = None →
          sw_connectionState (fold_left (evictStale t) entries acc) !! c = None).
Proof.
  revert acc. induction entries as [|[c0 p0] entries IH]; intros acc; [done|].
  cbn [fold_left]. destruct (IH (evictStale t acc (c0, p0))) as [Hev Hcs].
  split.
  - intros ev Hin. apply Hev. unfold evictStale. destruct (stale t p0); [|done].
    simpl. apply elem_of_app. by left.
  - intros c Hnone. apply Hcs. unfold evictStale. destruct (stale t p0); [|done].
    simpl. destruct (decide (c0 = c)) as [->|Hne];
      [apply lookup_delete_eq | by rewrite lookup_delete_ne].
Qed.

Lemma sweep_evicts t entries acc c p :
  (c, p) ∈ entries → stale t p = true →
  Terminate c ∈ sw_events (fold_left (evictStale t) entries acc)
  ∧ sw_connectionState (fold_left (evictStale t) entries acc) !! c = None.
Proof.
  revert acc. induction entries as [|[c0 p0] entries IH]; intros acc Hin Hstale.
  - by apply elem_of_nil in Hin.
  - cbn [fold_left]. apply elem_of_cons in Hin as [[= <- <-]|Hin]; [|by apply IH].
    destruct (sweep_mono t entries (evictStale t acc (c, p))) as [Hev Hcs].
    split.
    + apply Hev. unfold evictStale. rewrite Hstale. simpl.
      apply elem_of_app. right. left.
    + apply Hcs. unfold evictStale. rewrite Hstale. simpl. apply lookup_delete_eq.
Qed.

Lemma cleanupRoom_mono env k (s : State) :
  ∀ c, connectionState s !! c = None →
       connectionState (cleanupRoom env k s).1 !! c = None.
Proof.
  intros c Hnone. unfold cleanupRoom.
  destruct (JSMap.get k (rooms s)) as [room|]; [|done].
  assert (Hcs : sw_connectionState (sweepRoom (now env) room s) !! c = None).
  { unfold sweepRoom. by apply sweep_mono. }
  by destruct (bool_decide _).
Qed.

Lemma cleanupRoom_evicts env k (s : State) (room : Room) c p :
  JSMap.get k (rooms s) = Some room →
  (c, p) ∈ room_presence room → stale (now env) p = true →
  Terminate c ∈ (cleanupRoom env k s).2
  ∧ connectionState (cleanupRoom env k s).1 !! c = None.
Proof.
  intros Hroom Hin Hstale. unfold cleanupRoom. rewrite Hroom.
  destruct (sweep_evicts (now env) (room_presence room)
              {| sw_room := room; sw_connectionState := connectionState s;
                 sw_clients := clients s; sw_events := []; sw_updated := false |}
              c p Hin Hstale) as [Hev Hcs].
  fold (sweepRoom (now env) room s) in Hev, Hcs.
  destruct (bool_decide _); simpl; (split; [apply elem_of_app; by left | done]).
Qed.

Lemma cleanupRooms_mono env ks (acc : State * list Event) :
  (∀ ev, ev ∈ acc.2 → ev ∈ (fold_left (sweepOne env) ks acc).2)
  ∧ (∀ c, connectionState acc.1 !! c = None →
          connectionState (fold_left (sweepOne env) ks acc).1 !! c = None).
Proof.
  revert acc. induction ks as [|k ks IH]; intros acc; [done|].
  cbn [fold_left]. destruct (IH (sweepOne env acc k)) as [Hev Hcs]. split.
  - intros ev Hin. apply Hev. rewrite sweepOne_events. apply elem_of_app. by left.
  - intros c Hnone. apply Hcs. rewrite sweepOne_state. by apply cleanupRoom_mono.
Qed.

Lemma cleanupRooms_evicts env ks (acc : State * list Event) documentId
    (room : Room) c p :
  documentId ∈ ks →
  JSMap.get documentId (rooms acc.1) = Some room →
  (c, p) ∈ room_presence room → stale (now env) p = true →
  Terminate c ∈ (fold_left (sweepOne env) ks acc).2
  ∧ connectionState (fold_left (sweepOne env) ks acc).1 !! c = None.
Proof.
  revert acc. induction ks as [|k ks IH]; intros acc Hk Hroom Hin Hstale.
  - by apply elem_of_nil in Hk.
  - cbn [fold_left]. destruct (decide (documentId = k)) as [->|Hne].
    + destruct (cleanupRoom_evicts env k acc.1 room c p Hroom Hin Hstale)
        as [Hev Hcs].
      destruct (cleanupRooms_mono env ks (sweepOne env acc k)) as [Hevs Hcss].
      split.
      * apply Hevs. rewrite sweepOne_events. apply elem_of_app. by right.
      * apply Hcss. by rewrite sweepOne_state.
    + apply elem_of_cons in Hk as [?|Hk]; [done|].
      apply IH; try done. by rewrite sweepOne_state, cleanupRoom_get_ne.
Qed.

(** X15. A sweeper pass evicts every stale entry it finds: a connection
    that has, in any registered room, a presence entry whose heartbeat
    is more than 10 s old is terminated in that pass and has no
    connection state after it, whatever document its state named. *)
Theorem stale_connection_evicted
    (s : State) (env : Env) (documentId : string) (room : Room)
    (c : Conn) (p : Presence) :
  JSMap.get documentId (rooms s) = Some room →
  (c, p) ∈ room_presence room →
  heartbeatTimeoutMs < now env - p_lastHeartbeat p →
  Terminate c ∈ (step s (interval_elapsed env)).2
  ∧ connectionState (step s (interval_elapsed env)).1 !! c = None.
Proof.
  intros Hroom Hin Hold.
  assert (Hstale : stale (now env) p = true) by (by apply Z.ltb_lt).
  assert (Hkey : documentId ∈ JSMap.keys (rooms s))
    by (by apply get_Some_keys' with room).
  destruct (cleanupRooms_evicts env (JSMap.keys (rooms s)) (s, []) documentId
              room c p Hkey Hroom Hin Hstale) as [Hev Hcs].
  fold (cleanupRooms env s) in Hev, Hcs.
  cbn [step]. unfold onInterval.
  destruct (cleanupRooms env s) as [s' events]. simpl in *.
  split; [apply elem_of_app; by left | done].
Qed.

(** ** The rolling count of operations *)

(** On timestamps in clock order the [while] loop keeps exactly the
    operations of the last minute. *)
Lemma shiftOld_filter (t : Z) (ops : list Z) :
  chronological ops → shiftOld t ops = filter (inWindow t) ops.
Proof.
  unfold chronological, inWindow. induction 1 as [|o ops Hsorted IH Hle]; [done|].
  simpl. destruct (Z.ltb_spec 60000 (t - o)) as [Hold|Hin].
  - rewrite IH. rewrite filter_cons_False; [done | lia].
  - rewrite filter_cons_True by done. f_equal.
    clear IH Hsorted. induction ops as [|o' ops IH]; [done|].
    apply Forall_cons in Hle as [Hle Hrest].
    rewrite filter_cons_True by lia. f_equal. by apply IH.
Qed.

Lemma filter_chronological (t : Z) (ops : list Z) :
  chronological ops → chronological (filter (inWindow t) ops).
Proof.
  unfold chronological. induction 1 as [|o ops Hsorted IH Hle]; [constructor|].
  destruct (decide (inWindow t o)).
  - rewrite filter_cons_True by done. constructor; [done|].
    rewrite Forall_forall in *. intros x Hx.
    apply list_elem_of_filter in Hx as [_ Hx]. by apply Hle.
  - by rewrite filter_cons_False.
Qed.

(** X16. While the clock does not go back, [recordOperation] keeps the
    list of operations in clock order and equal to the operations of
    the last 60 s followed by the new one, and [getOpsPerMinute]
    returns the number of operations recorded in the last 60 s; an
    operation exactly 60 s old still counts. *)
Theorem operations_window (t : Z) (ops : list Z) :
  chronological ops →
  (∀ o, o ∈ ops → o ≤ t) →
  recordOperation t ops = filter (inWindow t) ops ++ [t]
  ∧ chronological (recordOperation t ops)
  ∧ (∀ o, o ∈ recordOperation t ops → o ≤ t ∧ t - o ≤ 60000)
  ∧ getOpsPerMinute t ops
    = (filter (inWindow t) ops, length (filter (inWindow t) ops)).
Proof.
  intros Hsorted Hpast.
  assert (Hall : chronological (ops ++ [t])).
  { apply StronglySorted_app_2; [|done|repeat constructor].
    intros o t' Ho Ht'. apply list_elem_of_singleton in Ht' as ->. by apply Hpast. }
  assert (Hrecord : recordOperation t ops = filter (inWindow t) ops ++ [t]).
  { unfold recordOperation. rewrite (shiftOld_filter _ _ Hall), filter_app.
    f_equal. rewrite filter_cons_True; [done|]. unfold inWindow. lia. }
  split_and!.
  - done.
  - unfold recordOperation. rewrite (shiftOld_filter _ _ Hall).
    by apply filter_chronological.
  - rewrite Hrecord. intros o Ho. apply elem_of_app in Ho as [Ho|Ho].
    + apply list_elem_of_filter in Ho as [Hin Ho]. split; [by apply Hpast | done].
    + apply list_elem_of_singleton in Ho as ->. lia.
  - unfold getOpsPerMinute. by rewrite (shiftOld_filter _ _ Hsorted).
Qed.

(** ** The HTTP surface *)

(** X17. [GET /metrics] answers 200 with the number of registered
    rooms, the number of sockets in [wss.clients] and, the operations
    being in clock order, the number of operations of the last 60 s;
    [GET /healthz] answers 200 with the fixed body; every other request
    answers 404 with no body.  No request changes the rooms, the
    connections or the storage: only [/metrics] prunes the old
    operations. *)
Theorem http_surface (s : State) (method url : string) (t : Z) :
  (method = "GET"%string → url = "/metrics"%string →
   chronological (operations s) →
   onRequest method url t s =
     (with_operations (filter (inWindow t) (operations s)) s,
      {| response_status := 200;
         response_body :=
           Some (metrics_body (length (rooms s)) (length (clients s))
                   (length (filter (inWindow t) (operations s)))) |}))
  ∧ (method = "GET"%string → url = "/healthz"%string →
     onRequest method url t s =
       (s, {| response_status := 200; response_body := Some health_body |}))
  ∧ (method ≠ "GET"%string
     ∨ (url ≠ "/metrics"%string ∧ url ≠ "/healthz"%string) →
     onRequest method url t s =
       (s, {| response_status := 404; response_body := None |}))
  ∧ rooms (onRequest method url t s).1 = rooms s
  ∧ connectionState (onRequest method url t s).1 = connectionState s
  ∧ clients (onRequest method url t s).1 = clients s
  ∧ storage (onRequest method url t s).1 = storage s.
Proof.
  unfold onRequest. split_and!.
  - intros -> -> Hsorted. simpl. unfold getOpsPerMinute.
    by rewrite (shiftOld_filter _ _ Hsorted).
  - by intros -> ->.
  - intros Hother.
    destruct (String.eqb_spec method "GET") as [->|Hm]; simpl; [|done].
    destruct Hother as [?|[Hmetrics Hhealth]]; [done|].
    destruct (String.eqb_spec url "/metrics"); [done|].
    by destruct (String.eqb_spec url "/healthz").
  - by repeat case_match.
  - by repeat case_match.
  - by repeat case_match.
  - by repeat case_match.
Qed.

(** ** Cache keys *)

Lemma string_length_app (a b : string) :
  String.length (a +:+ b) = (String.length a + String.length b)%nat.
Proof. induction a as [|x a IH]; simpl; [done | by rewrite IH]. Qed.

Lemma string_app_inv_tail (a b tail : string) : a +:+ tail = b +:+ tail → a = b.
Proof.
  revert b. induction a as [|x a IH]; intros [|y b] Heq; simpl in Heq.
  - done.
  - apply (f_equal String.length) in Heq.
    rewrite !string_length_app in Heq. simpl in Heq. lia.
  - apply (f_equal String.length) in Heq.
    rewrite !string_length_app in Heq. simpl in Heq. lia.
  - injection Heq as -> Heq. f_equal. by apply IH.
Qed.

(** X18. Two documents never share a cache key: [getRedisKey] is
    injective, so the snapshot of one document is never read or
    overwritten as another's. *)
Theorem getRedisKey_injective (a b : string) :
  getRedisKey a = getRedisKey b → a = b.
Proof.
  unfold getRedisKey. intros Heq.
  apply (inj (String.app "doc:")) in Heq.
  by apply string_app_inv_tail in Heq.
Qed.

Lemma getRedisKey_ne (a b : string) : a ≠ b → getRedisKey a ≠ getRedisKey b.
Proof.
  unfold getRedisKey. intros Hne Heq. apply Hne.
  apply (inj (String.app "doc:")) in Heq.
  by apply string_app_inv_tail in Heq.
Qed.

(** ** The two tiers *)

(** The durable half either leaves the storage as it is or appends the
    auto-save row and notes the time of the write. *)
Lemma persistToDatabase_cases env documentId snapshot st :
  persistToDatabase env documentId snapshot st = st
  ∨ ∃ doc,
      findUnique_document (prisma st) documentId = Some doc
      ∧ persistToDatabase env documentId snapshot st =
          {| redis := redis st; redisAvailable := redisAvailable st;
             redisStore := redisStore st;
             prisma := create_version documentId (document_ownerId doc)
                         "Auto-save" snapshot (now env) (prisma st);
             lastDbPersist := <[documentId := now env]> (lastDbPersist st) |}.
Proof.
  unfold persistToDatabase. repeat (case_match; try by left).
  all: right; by eexists.
Qed.

Lemma persistToDatabase_floor env documentId snapshot st last :
  lastDbPersist st !! documentId = Some last →
  now env - last < dbPersistIntervalMs →
  persistToDatabase env documentId snapshot st = st.
Proof.
  intros Hlast Hsoon. unfold persistToDatabase. rewrite Hlast. simpl.
  by destruct (Z.ltb_spec (now env - last) dbPersistIntervalMs); [|lia].
Qed.

Lemma persistToDatabase_same_bytes env documentId snapshot st v :
  findFirst_version (prisma st) documentId = Some v →
  version_snapshot v = snapshot →
  persistToDatabase env documentId snapshot st = st.
Proof.
  intros Hlatest Hsame. unfold persistToDatabase. rewrite Hlatest, Hsame.
  rewrite String.eqb_refl. simpl. by repeat case_match.
Qed.

(** What a persist that wrote a durable row has left. *)
Lemma persistRoom_wrote env documentId (room : Room) st :
  let st' := persistRoom env documentId room st in
  documentVersions (prisma st') ≠ documentVersions (prisma st) →
  ∃ doc,
    findUnique_document (prisma st) documentId = Some doc
    ∧ prisma st' =
        create_version documentId (document_ownerId doc) "Auto-save"
          (encodeUpdate (Y_encodeStateAsUpdate (room_doc room))) (now env) (prisma st)
    ∧ lastDbPersist st' = <[documentId := now env]> (lastDbPersist st)
    ∧ redisStore st' = redisStore st.
Proof.
  intros st'. unfold st', persistRoom.
  set (snapshot := encodeUpdate (Y_encodeStateAsUpdate (room_doc room))).
  assert (Hdb : ∀ st0, prisma st0 = prisma st → lastDbPersist st0 = lastDbPersist st →
    redisStore st0 = redisStore st →
    documentVersions (prisma (persistToDatabase env documentId snapshot st0))
      ≠ documentVersions (prisma st) →
    ∃ doc, findUnique_document (prisma st) documentId = Some doc
      ∧ prisma (persistToDatabase env documentId snapshot st0) =
          create_version documentId (document_ownerId doc) "Auto-save"
            snapshot (now env) (prisma st)
      ∧ lastDbPersist (persistToDatabase env documentId snapshot st0)
          = <[documentId := now env]> (lastDbPersist st)
      ∧ redisStore (persistToDatabase env documentId snapshot st0) = redisStore st).
  { intros st0 Hprisma Hlast Hkv Hrow.
    destruct (persistToDatabase_cases env documentId snapshot st0)
      as [Hsame|(doc & Hdoc & Hwrote)].
    - rewrite Hsame, Hprisma in Hrow. done.
    - exists doc. rewrite Hwrote. simpl. by rewrite <- Hprisma, <- Hlast, <- Hkv. }
  destruct (cacheReady st); [destruct (redisSet env)|]; simpl; try done;
    by apply Hdb.
Qed.

(** X19. The durable write floor is per document: a persist that wrote
    a durable row notes its time for that document only, and any
    persist of the same document less than 5 s later, whatever the
    state of the cache and whatever the document holds by then, adds no
    row. *)
Theorem durable_write_floor
    (env1 env2 : Env) (documentId : string) (room1 room2 : Room) (st : Storage) :
  let st1 := persistRoom env1 documentId room1 st in
  documentVersions (prisma st1) ≠ documentVersions (prisma st) →
  lastDbPersist st1 !! documentId = Some (now env1)
  ∧ (∀ other, other ≠ documentId →
       lastDbPersist st1 !! other = lastDbPersist st !! other)
  ∧ (now env2 - now env1 < dbPersistIntervalMs →
     prisma (persistRoom env2 documentId room2 st1) = prisma st1).
Proof.
  intros st1 Hrow.
  destruct (persistRoom_wrote env1 documentId room1 st Hrow)
    as (doc & _ & _ & Hlast & _). fold st1 in Hlast.
  assert (Hnoted : lastDbPersist st1 !! documentId = Some (now env1))
    by (by rewrite Hlast, lookup_insert_eq).
  split_and!; [done | |].
  - intros other Hne. by rewrite Hlast, lookup_insert_ne.
  - intros Hsoon. unfold persistRoom.
    destruct (cacheReady st1); [destruct (redisSet env2)|]; simpl; try done.
    + by rewrite (persistToDatabase_floor _ _ _ _ (now env1)).
    + by rewrite (persistToDatabase_floor _ _ _ _ (now env1)).
    + by rewrite (persistToDatabase_floor _ _ _ _ (now env1)).
Qed.

Lemma latest_of_app_newer best rows r :
  (∀ b, best = Some b → version_createdAt b < version_createdAt r) →
  (∀ w, w ∈ rows → version_createdAt w < version_createdAt r) →
  latest_of best (rows ++ [r]) = Some r.
Proof.
  revert best. induction rows as [|w rows IH]; intros best Hbest Hrows; simpl.
  - destruct best as [b|]; [|done].
    specialize (Hbest b eq_refl).
    by destruct (Z.ltb_spec (version_createdAt b) (version_createdAt r)); [|lia].
  - assert (Hw : version_createdAt w < version_createdAt r) by (apply Hrows; left).
    assert (Hrest : ∀ x, x ∈ rows → version_createdAt x < version_createdAt r)
      by (intros x Hx; apply Hrows; by right).
    destruct best as [b|].
    + destruct (version_createdAt b <? version_createdAt w); apply IH; try done.
      * by intros ? [= <-].
    + apply IH; [|done]. by intros ? [= <-].
Qed.

Lemma findFirst_version_created db documentId authorId summary snapshot t :
  (∀ w, w ∈ documentVersions db → version_documentId w = documentId →
        version_createdAt w < t) →
  findFirst_version (create_version documentId authorId summary snapshot t db)
    documentId
  = Some {| version_documentId := documentId; version_authorId := authorId;
            version_summary := summary; version_snapshot := snapshot;
            version_createdAt := t |}.
Proof.
  intros Holder. unfold findFirst_version, create_version. simpl.
  rewrite List.filter_app. simpl. rewrite String.eqb_refl.
  apply latest_of_app_newer; [done|].
  intros w Hw. apply list_elem_of_In, filter_In in Hw as [Hw Hdoc].
  apply String.eqb_eq in Hdoc. simpl. apply Holder; [by apply list_elem_of_In | done].
Qed.

(** X20. A durable auto-save written after every earlier version of the
    document becomes the version that [findFirst] returns, and
    persisting the same bytes again never adds a second row, however
    long after: a document that has not changed is saved once. *)
Theorem auto_save_once
    (env1 env2 : Env) (documentId : string) (room1 room2 : Room) (st : Storage) :
  let st1 := persistRoom env1 documentId room1 st in
  let snapshot := encodeUpdate (Y_encodeStateAsUpdate (room_doc room1)) in
  documentVersions (prisma st1) ≠ documentVersions (prisma st) →
  (∀ w, w ∈ documentVersions (prisma st) → version_documentId w = documentId →
        version_createdAt w < now env1) →
  (∃ v, findFirst_version (prisma st1) documentId = Some v
        ∧ version_snapshot v = snapshot
        ∧ version_summary v = "Auto-save"%string
        ∧ version_createdAt v = now env1)
  ∧ (encodeUpdate (Y_encodeStateAsUpdate (room_doc room2)) = snapshot →
     prisma (persistRoom env2 documentId room2 st1) = prisma st1).
Proof.
  intros st1 snapshot Hrow Holder.
  destruct (persistRoom_wrote env1 documentId room1 st Hrow)
    as (doc & _ & Hprisma & _ & _). fold st1 snapshot in Hprisma.
  assert (Hlatest : findFirst_version (prisma st1) documentId =
    Some {| version_documentId := documentId;
            version_authorId := document_ownerId doc;
            version_summary := "Auto-save"; version_snapshot := snapshot;
            version_createdAt := now env1 |}).
  { rewrite Hprisma. by apply findFirst_version_created. }
  split; [by eexists|].
  intros Hsame. unfold persistRoom. rewrite Hsame.
  destruct (cacheReady st1); [destruct (redisSet env2)|]; simpl; try done.
  - by rewrite (persistToDatabase_same_bytes env2 documentId snapshot
                  (with_redisAvailable false st1) _ Hlatest).
  - by rewrite (persistToDatabase_same_bytes env2 documentId snapshot st1 _ Hlatest).
  - by rewrite (persistToDatabase_same_bytes env2 documentId snapshot st1 _ Hlatest).
Qed.

(** X21. What a persist writes to the cache is what the next creation
    of the document's room reads back: after a successful cache write,
    the cache holds the encoded state under the document's key, the
    keys of the other documents and the durable store are untouched,
    and a room created while the cache is ready starts from the
    document those bytes decode and apply to. *)
Theorem cache_round_trip
    (env1 env2 : Env) (documentId : string) (room : Room) (st : Storage)
    (s : State) (update : Bytes) (d : YDoc) :
  let snapshot := encodeUpdate (Y_encodeStateAsUpdate (room_doc room)) in
  cacheReady st = true →
  redisSet env1 = SetOk →
  storage s = persistRoom env1 documentId room st →
  JSMap.get documentId (rooms s) = None →
  throws_redisGet env2 = false →
  snapshot ≠ ""%string →
  decodeUpdate (JStr snapshot) = Some update →
  Y_applyUpdate Y_newDoc update = Applied d →
  redisStore (storage s) !! getRedisKey documentId = Some snapshot
  ∧ (∀ other, other ≠ documentId →
       redisStore (storage s) !! getRedisKey other
       = redisStore st !! getRedisKey other)
  ∧ prisma (storage s) = prisma st
  ∧ room_doc (getRoom env2 documentId s).1 = d.
Proof.
  intros snapshot Hready Hset Hstorage Hnone Hget Hne Hdecode Happly.
  assert (Hst : storage s =
    with_redisStore (<[getRedisKey documentId := snapshot]> (redisStore st)) st).
  { rewrite Hstorage. unfold persistRoom. by rewrite Hready, Hset. }
  assert (Hkey : redisStore (storage s) !! getRedisKey documentId = Some snapshot)
    by (by rewrite Hst; simpl; rewrite lookup_insert_eq).
  split_and!; [done | | by rewrite Hst |].
  - intros other Hother. rewrite Hst. simpl.
    rewrite lookup_insert_ne; [done|]. by apply getRedisKey_ne.
  - destruct (getRoom_creates env2 documentId s Hnone)
      as (created & Hcreated & _ & _ & _ & Hcache & _).
    rewrite Hcreated. simpl.
    apply (Hcache snapshot update d); try done. by rewrite Hst.
Qed.

(** ** A persist pending on a swept room *)

Lemma find_app_None {A} (f : A → bool) (l1 l2 : list A) :
  List.find f l1 = None → List.find f (l1 ++ l2) = List.find f l2.
Proof.
  induction l1 as [|x l1 IH]; simpl; [done|]. destruct (f x); [done | exact IH].
Qed.

Lemma find_app_Some {A} (f : A → bool) (l1 l2 : list A) x :
  List.find f l1 = Some x → List.find f (l1 ++ l2) = Some x.
Proof.
  induction l1 as [|y l1 IH]; simpl; [done|]. destruct (f y); [done | exact IH].
Qed.

Lemma find_timer_None (rid : nat) (entries : list (string * Room)) :
  (∀ entry, entry ∈ entries → room_id entry.2 ≠ rid) →
  List.find (timerOf rid) entries = None.
Proof.
  induction entries as [|entry entries IH]; intros Hids; simpl; [done|].
  unfold timerOf at 1. rewrite bool_decide_eq_false_2 by (apply Hids; left).
  simpl. apply IH. intros e He. apply Hids. by right.
Qed.

Lemma elem_of_rooms_delete (k : string) (m : list (string * Room)) entry :
  entry ∈ JSMap.delete k m → entry ∈ m ∧ entry.1 ≠ k.
Proof.
  induction m as [|[k' v'] m IH]; simpl.
  - intros Hin. by apply elem_of_nil in Hin.
  - destruct (decide (k = k')) as [->|Hne].
    + intros Hin. destruct (IH Hin). split; [by right | done].
    + intros Hin. apply elem_of_cons in Hin as [->|Hin].
      * split; [left | simpl; congruence].
      * destruct (IH Hin). split; [by right | done].
Qed.

Lemma sweepRoom_fields t (room : Room) (s : State) :
  room_doc (sw_room (sweepRoom t room s)) = room_doc room
  ∧ room_persistTimeout (sw_room (sweepRoom t room s)) = room_persistTimeout room
  ∧ room_id (sw_room (sweepRoom t room s)) = room_id room.
Proof. unfold sweepRoom. apply sweep_room_fields. Qed.

(** The entries of the registry and of the timers' closures after one
    [cleanupRoom]: each is an old one, or the swept room under its key,
    with the identity it had. *)
Lemma cleanupRoom_rooms_entries env k (s : State) entry :
  entry ∈ rooms (cleanupRoom env k s).1 →
  entry ∈ rooms s
  ∨ ∃ room, JSMap.get k (rooms s) = Some room ∧ entry.1 = k
            ∧ room_id entry.2 = room_id room.
Proof.
  unfold cleanupRoom. destruct (JSMap.get k (rooms s)) as [room|] eqn:Hroom;
    [|simpl; tauto].
  destruct (sweepRoom_fields (now env) room s) as (_ & _ & Hid).
  destruct (bool_decide _); simpl; intros Hin.
  - apply elem_of_rooms_delete in Hin as [Hin _]. by left.
  - apply elem_of_set in Hin as [->|Hin]; [|by left]. right. by exists room.
Qed.

Lemma cleanupRoom_detached_entries env k (s : State) entry :
  entry ∈ detached (cleanupRoom env k s).1 →
  entry ∈ detached s
  ∨ ∃ room, JSMap.get k (rooms s) = Some room ∧ entry.1 = k
            ∧ room_id entry.2 = room_id room.
Proof.
  unfold cleanupRoom. destruct (JSMap.get k (rooms s)) as [room|] eqn:Hroom;
    [|simpl; tauto].
  destruct (sweepRoom_fields (now env) room s) as (_ & _ & Hid).
  destruct (bool_decide _); simpl; intros Hin; [|by left].
  destruct (room_persistTimeout _); [|by left].
  apply elem_of_app in Hin as [Hin|Hin]; [by left|].
  apply list_elem_of_singleton in Hin as ->. right. by exists room.
Qed.

Lemma cleanupRoom_detached env k (s : State) :
  ∃ more, detached (cleanupRoom env k s).1 = detached s ++ more.
Proof.
  unfold cleanupRoom. destruct (JSMap.get k (rooms s)); [|by exists []; rewrite app_nil_r].
  destruct (bool_decide _); simpl; [|by exists []; rewrite app_nil_r].
  destruct (room_persistTimeout _); [by eexists | by exists []; rewrite app_nil_r].
Qed.

Lemma cleanupRoom_awaiting env documentId (room : Room) st k (x : State) :
  k ≠ documentId →
  awaiting documentId room st x → awaiting documentId room st (cleanupRoom env k x).1.
Proof.
  intros Hne (Hroom & Hrooms & Hdetached & Hst). split_and!.
  - by rewrite cleanupRoom_get_ne.
  - intros entry Hin Hkey.
    apply cleanupRoom_rooms_entries in Hin as [Hold|(rk & Hrk & Hk & Hid)].
    + by apply Hrooms.
    + rewrite Hid. apply get_Some_elem in Hrk.
      apply (Hrooms (k, rk) Hrk). simpl. congruence.
  - intros entry Hin.
    apply cleanupRoom_detached_entries in Hin as [Hold|(rk & Hrk & Hk & Hid)].
    + by apply Hdetached.
    + rewrite Hid. apply get_Some_elem in Hrk.
      apply (Hrooms (k, rk) Hrk). simpl. congruence.
  - by rewrite cleanupRoom_storage.
Qed.

Lemma cleanupRoom_held env documentId (room : Room) st k (x : State) :
  held documentId room st x → held documentId room st (cleanupRoom env k x).1.
Proof.
  intros (Hrooms & (room' & Hfind & Hdoc) & Hst). split_and!.
  - intros entry Hin.
    apply cleanupRoom_rooms_entries in Hin as [Hold|(rk & Hrk & Hk & Hid)].
    + by apply Hrooms.
    + rewrite Hid. apply get_Some_elem in Hrk. by apply (Hrooms (k, rk)).
  - destruct (cleanupRoom_detached env k x) as [more ->].
    exists room'. split; [by apply find_app_Some | done].
  - by rewrite cleanupRoom_storage.
Qed.

Lemma cleanupRoom_takes env documentId (room : Room) st (x : State) delay :
  survivors (now env) room = [] →
  room_persistTimeout room = Some delay →
  awaiting documentId room st x →
  held documentId room st (cleanupRoom env documentId x).1.
Proof.
  intros Hsurv Htimer (Hroom & Hrooms & Hdetached & Hst).
  destruct (sweepRoom_fields (now env) room x) as (Hdoc & Hpending & Hid).
  pose proof (sweepRoom_survivors (now env) room x) as Hconns.
  rewrite Hsurv in Hconns. rewrite Htimer in Hpending.
  unfold cleanupRoom. rewrite Hroom, Hconns. simpl. rewrite Hpending.
  split_and!; simpl.
  - intros entry Hin. apply elem_of_rooms_delete in Hin as [Hin Hkey].
    by apply Hrooms.
  - exists (sw_room (sweepRoom (now env) room x)). split; [|done].
    rewrite find_app_None by (by apply find_timer_None). simpl.
    unfold timerOf. simpl. rewrite Hid, Hpending.
    by rewrite bool_decide_eq_true_2.
  - done.
Qed.

Lemma cleanupRooms_held env documentId (room : Room) st ks
    (acc : State * list Event) :
  held documentId room st acc.1 →
  held documentId room st (fold_left (sweepOne env) ks acc).1.
Proof.
  revert acc. induction ks as [|k ks IH]; intros acc Hheld; [done|].
  cbn [fold_left]. apply IH. rewrite sweepOne_state. by apply cleanupRoom_held.
Qed.

Lemma cleanupRooms_takes env documentId (room : Room) st ks
    (acc : State * list Event) delay :
  documentId ∈ ks →
  survivors (now env) room = [] →
  room_persistTimeout room = Some delay →
  awaiting documentId room st acc.1 →
  held documentId room st (fold_left (sweepOne env) ks acc).1.
Proof.
  intros Hin Hsurv Htimer. revert acc.
  induction ks as [|k ks IH]; intros acc Hbefore.
  - by apply elem_of_nil in Hin.
  - cbn [fold_left]. destruct (decide (k = documentId)) as [->|Hne].
    + apply cleanupRooms_held. rewrite sweepOne_state.
      by apply cleanupRoom_takes with delay.
    + apply elem_of_cons in Hin as [?|Hin]; [congruence|].
      apply IH; [done|]. rewrite sweepOne_state. by apply cleanupRoom_awaiting.
Qed.

Lemma persistRoom_reads_doc env documentId (room1 room2 : Room) st :
  room_doc room1 = room_doc room2 →
  persistRoom env documentId room1 st = persistRoom env documentId room2 st.
Proof. intros Hdoc. unfold persistRoom. by rewrite Hdoc. Qed.

(** X22. A persist that is pending when the sweeper removes its room is
    not lost: the pass takes the room out of the registry, and when the
    timer fires later it persists the document the room held, as it
    would have for a registered room, and sends nothing.  (No other
    room object has the identity of this one.) *)
Theorem pending_persist_survives_sweep
    (s : State) (env1 env2 : Env) (documentId : string) (room : Room) (delay : Z) :
  NoDup (JSMap.keys (rooms s)) →
  JSMap.get documentId (rooms s) = Some room →
  survivors (now env1) room = [] →
  room_persistTimeout room = Some delay →
  (∀ entry, entry ∈ rooms s → entry.1 ≠ documentId →
            room_id entry.2 ≠ room_id room) →
  (∀ entry, entry ∈ detached s → room_id entry.2 ≠ room_id room) →
  let swept := (step s (interval_elapsed env1)).1 in
  JSMap.get documentId (rooms swept) = None
  ∧ step swept (persist_timer_fired (room_id room) env2) =
      ((step swept (persist_timer_fired (room_id room) env2)).1, [])
  ∧ storage (step swept (persist_timer_fired (room_id room) env2)).1
    = persistRoom env2 documentId room (storage s).
Proof.
  intros Hnd Hroom Hsurv Htimer Hrooms Hdetached swept.
  assert (Hkey : documentId ∈ JSMap.keys (rooms s))
    by (by apply get_Some_keys' with room).
  assert (Hswept : swept = (fold_left (sweepOne env1) (JSMap.keys (rooms s)) (s, [])).1).
  { unfold swept. cbn [step]. unfold onInterval.
    fold (cleanupRooms env1 s). by destruct (cleanupRooms env1 s). }
  assert (Hheld : held documentId room (storage s) swept).
  { rewrite Hswept. by apply cleanupRooms_takes with delay. }
  destruct Hheld as (Hids & (room' & Hfind & Hdoc) & Hst).
  split_and!.
  - rewrite Hswept, (cleanupRooms_get env1 _ (s, []) s documentId Hnd).
    rewrite decide_True by done. simpl. rewrite Hroom.
    by rewrite bool_decide_eq_true_2.
  - cbn [step]. unfold onPersistTimer.
    rewrite (find_timer_None _ _ Hids), Hfind. done.
  - cbn [step]. unfold onPersistTimer.
    rewrite (find_timer_None _ _ Hids), Hfind. simpl. rewrite Hst.
    by apply persistRoom_reads_doc.
Qed.

(** ** Heartbeats and the cache switch *)

(** X23. A [heartbeat] frame and a transport pong are silent: nothing
    is sent, and in the state only the [lastHeartbeat] of the sender's
    own presence entry moves; its other fields, the other entries, the
    order of the entries, the connections, the document and the timer
    stay as they are.  Without a presence entry they change nothing. *)
Theorem heartbeat_is_silent
    (s : State) (env : Env) (c : Conn) (message : JsVal)
    (state : ConnState) (room : Room) :
  joined s c state room →
  is_type message "heartbeat" →
  let refreshed :=
    match JSMap.get c (room_presence room) with
    | Some presence =>
        with_rooms
          (JSMap.set (st_documentId state)
             (room_with_presence
                (JSMap.set c (presence_with_lastHeartbeat (now env) presence)
                   (room_presence room)) room)
             (rooms s)) s
    | None => s
    end in
  step s (message_received c (Some message) env) = (refreshed, [])
  ∧ step s (pong_received c env) = (refreshed, [])
  ∧ (∀ room', JSMap.get (st_documentId state) (rooms refreshed) = Some room' →
       JSMap.keys (room_presence room') = JSMap.keys (room_presence room)
       ∧ (∀ peer, peer ≠ c →
            JSMap.get peer (room_presence room')
            = JSMap.get peer (room_presence room))
       ∧ room_connections room' = room_connections room
       ∧ room_doc room' = room_doc room
       ∧ room_persistTimeout room' = room_persistTimeout room).
Proof.
  intros Hjoined Htype refreshed. split_and!.
  - cbn [step]. by rewrite (onMessage_joined _ _ _ _ _ _ _ Hjoined Htype).
  - destruct Hjoined as [Hstate Hroom]. cbn [step]. unfold onPong.
    by rewrite Hstate, Hroom.
  - destruct Hjoined as [Hstate Hroom]. intros room' Hget. unfold refreshed in Hget.
    destruct (JSMap.get c (room_presence room)) as [presence|] eqn:Hp.
    + simpl in Hget. rewrite get_set_eq in Hget. injection Hget as <-. simpl.
      split_and!; try done.
      * by apply keys_set_present with presence.
      * intros peer Hne. by rewrite get_set_ne.
    + rewrite Hroom in Hget. by injection Hget as <-.
Qed.

(** X24. The cache tier is switched by the client's events: after an
    [error] event the cache is not ready whatever its status reads, so
    a persist writes nothing to it and goes to the durable path, and a
    new room is restored without reading it; a [connect] event makes
    the cache ready again exactly when the status reads [ready]. *)
Theorem cache_switch (s : State) (env : Env) (documentId : string) (room : Room)
    (doc : YDoc) :
  let down := storage (step s redis_error).1 in
  let up := storage (step s redis_connect).1 in
  cacheReady down = false
  ∧ persistRoom env documentId room down =
      persistToDatabase env documentId
        (encodeUpdate (Y_encodeStateAsUpdate (room_doc room))) down
  ∧ redisStore (persistRoom env documentId room down) = redisStore (storage s)
  ∧ restoreFromRedis env down documentId doc = (doc, false)
  ∧ (cacheReady up = true ↔ redis (storage s) = Some "ready"%string).
Proof.
  intros down up. unfold down, up. simpl.
  assert (Hdown : cacheReady (with_redisAvailable false (storage s)) = false) by done.
  split_and!.
  - done.
  - unfold persistRoom. by rewrite Hdown.
  - unfold persistRoom. rewrite Hdown.
    destruct (persistToDatabase_cases env documentId
                (encodeUpdate (Y_encodeStateAsUpdate (room_doc room)))
                (with_redisAvailable false (storage s)))
      as [->|(d & _ & ->)]; done.
  - unfold restoreFromRedis. by rewrite Hdown.
  - unfold cacheReady. simpl. destruct (redis (storage s)) as [status|]; [|done].
    split.
    + intros Heq. by apply String.eqb_eq in Heq as ->.
    + intros [= ->]. done.
Qed.
(** ** Invariants of the registry *)

Lemma NoDup_add (c : Conn) (l : list Conn) : NoDup l → NoDup (JSSet.add c l).
Proof.
  unfold JSSet.add, JSSet.has. intros Hl. case_bool_decide; [done|].
  apply NoDup_app. split_and!; [done | | apply NoDup_singleton].
  intros x Hx Hx'. by apply list_elem_of_singleton in Hx' as ->.
Qed.

Lemma paired_unchanged (room room' : Room) :
  room_connections room' = room_connections room →
  JSMap.keys (room_presence room') = JSMap.keys (room_presence room) →
  paired room → paired room'.
Proof. unfold paired. by intros -> ->. Qed.

Lemma paired_added (c : Conn) (v : Presence) (room room' : Room) :
  room_connections room' = JSSet.add c (room_connections room) →
  room_presence room' = JSMap.set c v (room_presence room) →
  paired room → paired room'.
Proof.
  unfold paired. intros -> -> (Hsame & Hconns & Hkeys). split_and!.
  - intros c'. rewrite elem_of_add, keys_set. case_decide as Hc.
    + rewrite <- Hsame. split; [|by right].
      intros [-> | Hc']; [by apply Hsame | done].
    + rewrite elem_of_app, list_elem_of_singleton, Hsame. tauto.
  - by apply NoDup_add.
  - by apply NoDup_keys_set.
Qed.

Lemma paired_removed (c : Conn) (room room' : Room) :
  room_connections room' = JSSet.delete c (room_connections room) →
  room_presence room' = JSMap.delete c (room_presence room) →
  paired room → paired room'.
Proof.
  unfold paired. intros -> -> (Hsame & Hconns & Hkeys). rewrite keys_delete.
  split_and!; [|by apply NoDup_delete..].
  intros c'. by rewrite !elem_of_delete, Hsame.
Qed.

Lemma paired_refreshed (c : Conn) (v v' : Presence) (room room' : Room) :
  JSMap.get c (room_presence room) = Some v →
  room_connections room' = room_connections room →
  room_presence room' = JSMap.set c v' (room_presence room) →
  paired room → paired room'.
Proof.
  intros Hentry Hconns Hpresence. apply paired_unchanged; [done|].
  rewrite Hpresence. by apply (keys_set_present _ v).
Qed.

Lemma Forall_paired_set k (room : Room) (registry : list (string * Room)) :
  Forall (λ entry, paired entry.2) registry → paired room →
  Forall (λ entry, paired entry.2) (JSMap.set k room registry).
Proof.
  rewrite !Forall_forall. intros Hall Hroom entry Hin.
  apply elem_of_set in Hin as [-> | Hin]; [done | by apply Hall].
Qed.

Lemma Forall_paired_get k (room : Room) (registry : list (string * Room)) :
  Forall (λ entry, paired entry.2) registry →
  JSMap.get k registry = Some room → paired room.
Proof.
  rewrite Forall_forall. intros Hall Hroom.
  by apply (Hall (k, room)), get_Some_elem.
Qed.

Lemma sweep_paired t entries acc :
  paired (sw_room acc) → paired (sw_room (fold_left (evictStale t) entries acc)).
Proof.
  revert acc. induction entries as [|[c p] entries IH]; intros acc Hacc; simpl;
    [done|].
  apply IH. destruct (stale t p); [|done]. simpl.
  by apply (paired_removed c (sw_room acc)).
Qed.

Lemma cleanupRoom_paired env k (s : State) :
  Forall (λ entry, paired entry.2) (rooms s) →
  Forall (λ entry, paired entry.2) (rooms (cleanupRoom env k s).1).
Proof.
  intros Hall. rewrite cleanupRoom_rooms.
  destruct (JSMap.get k (rooms s)) as [room|] eqn:Hroom; [|done].
  case_bool_decide.
  - rewrite Forall_forall in *. intros entry Hin.
    apply elem_of_rooms_delete in Hin as [Hin _]. by apply Hall.
  - apply Forall_paired_set; [done|]. unfold sweepRoom. apply sweep_paired.
    simpl. by apply (Forall_paired_get k _ (rooms s)).
Qed.

Lemma getRoom_paired env id (s : State) :
  Forall (λ entry, paired entry.2) (rooms s) →
  Forall (λ entry, paired entry.2) (rooms (getRoom env id s).2)
  ∧ JSMap.get id (rooms (getRoom env id s).2) = Some (getRoom env id s).1.
Proof.
  intros Hall. destruct (JSMap.get id (rooms s)) as [room|] eqn:Hroom.
  - unfold getRoom. by rewrite Hroom.
  - destruct (getRoom_creates env id s Hroom)
      as (room & -> & Hconns & Hpresence & _). simpl.
    split; [|apply get_set_eq]. apply Forall_paired_set; [done|].
    unfold paired. rewrite Hconns, Hpresence. split_and!; [done | constructor..].
Qed.

(** A handler's new room from the registered room it read. *)
Ltac room_paired :=
  match goal with
  | Hall : Forall (λ entry, paired entry.2) (rooms ?s),
    Hroom : JSMap.get _ (rooms ?s) = Some ?r |- paired _ =>
      pose proof (Forall_paired_get _ _ _ Hall Hroom);
      first [ by apply (paired_unchanged r)
            | by eapply (paired_refreshed _ _ _ r); [eassumption|..]
            | by eapply (paired_removed _ r) ]
  end.

Lemma onMessage_paired env c data (s : State) :
  Forall (λ entry, paired entry.2) (rooms s) →
  Forall (λ entry, paired entry.2) (rooms (onMessage env c data s).1).
Proof.
  intros Hall.
  assert (Hget : ∀ k room, JSMap.get k (rooms s) = Some room → paired room)
    by (intros k room; by apply Forall_paired_get).
  unfold onMessage. destruct data as [message|]; [|done].
  case_match; [done|]. case_match.
  - unfold onJoin, deny. repeat (case_match; simpl; try done).
    match goal with Hg : getRoom ?e ?i s = (?r, ?s') |- _ =>
      destruct (getRoom_paired e i s Hall) as [Hall' Hr];
      rewrite Hg in Hall', Hr; simpl in Hall', Hr end.
    apply Forall_paired_set; [done|].
    eapply paired_added; [reflexivity | reflexivity |].
    by eapply Forall_paired_get.
  - unfold onYjsUpdate, onCursorUpdate, leaveRoom, refreshHeartbeat,
      schedulePersist.
    repeat (case_match; simpl; try done);
      (apply Forall_paired_set; [done|]); room_paired.
Qed.

Lemma step_paired (s : State) (i : Input) :
  Forall (λ entry, paired entry.2) (rooms s) →
  Forall (λ entry, paired entry.2) (rooms (step s i).1).
Proof.
  intros Hall.
  assert (Hget : ∀ k room, JSMap.get k (rooms s) = Some room → paired room)
    by (intros k room; by apply Forall_paired_get).
  destruct i; cbn [step]; try done.
  - by apply onMessage_paired.
  - destruct (onJoinBegun_cases env c message s) as [-> | (h & -> & _)];
      [by apply onMessage_paired | done].
  - destruct (onLoadReturned_rooms env k s)
      as [-> | (h & room' & _ & -> & _ & _ & _ & _ & Hconns & (p & Hp) & _)];
      [done|].
    apply Forall_paired_set; [done|]. unfold paired. rewrite Hconns, Hp. simpl.
    split_and!; [done | apply NoDup_singleton..].
  - unfold onClose, leaveRoom.
    repeat (case_match; simpl; try done).
    apply Forall_paired_set; [done|]. room_paired.
  - unfold onPong, refreshHeartbeat.
    repeat (case_match; simpl; try done).
    apply Forall_paired_set; [done|]. room_paired.
  - unfold onInterval.
    destruct (cleanupRooms env s) as [s' events] eqn:Hsweep. simpl.
    change s' with (s', events).1. rewrite <- Hsweep. unfold cleanupRooms.
    assert (Hgen : ∀ ks acc, Forall (λ entry, paired entry.2) (rooms acc.1) →
      Forall (λ entry, paired entry.2) (rooms (fold_left (sweepOne env) ks acc).1)).
    { induction ks as [|k ks IH]; intros acc Hacc; simpl; [done|].
      apply IH. rewrite sweepOne_state. by apply cleanupRoom_paired. }
    by apply Hgen.
  - unfold onPersistTimer.
    repeat (case_match; simpl; try done).
    apply Forall_paired_set; [done|].
    match goal with Hf : List.find _ (rooms s) = Some _ |- _ =>
      apply find_some in Hf as [Hin _]; apply list_elem_of_In in Hin end.
    rewrite Forall_forall in Hall.
    match goal with Hin : _ ∈ rooms s |- _ => apply Hall in Hin end.
    by eapply paired_unchanged.
Qed.

(** X25. In every state the server can reach, each registered room's
    [connections] and [presence] name the same connections, each once:
    the two have the same size, so the room the sweeper deletes for
    having no connection has no presence entry either. *)
Theorem reachable_rooms_paired
    (db : Database) (kv : gmap string string) (client : option string)
    (s : State) (documentId : string) (room : Room) :
  reachable (initial db kv client) s →
  JSMap.get documentId (rooms s) = Some room →
  (∀ c, c ∈ room_connections room ↔ is_Some (JSMap.get c (room_presence room)))
  ∧ NoDup (room_connections room)
  ∧ length (room_connections room) = length (room_presence room)
  ∧ (room_connections room = [] ↔ room_presence room = []).
Proof.
  intros Hreach.
  assert (Hall : Forall (λ entry, paired entry.2) (rooms s)).
  { induction Hreach as [|s i Hreach IH Hruns];
      [by constructor | by apply step_paired]. }
  intros Hroom.
  destruct (Forall_paired_get _ _ _ Hall Hroom) as (Hsame & Hconns & Hkeys).
  assert (Hlen : length (room_connections room) = length (room_presence room)).
  { rewrite <- (length_fmap fst (room_presence room)).
    apply Permutation_length, NoDup_Permutation; done. }
  split_and!; [|done..|].
  - intros c. rewrite Hsame. split.
    + intros Hin. destruct (JSMap.get c (room_presence room)) eqn:Hget; [done|].
      by apply get_None_keys in Hget.
    + intros [p Hp]. by apply (get_Some_keys _ p).
  - split; intros Hnil; rewrite Hnil in Hlen; simpl in Hlen.
    + by apply nil_length_inv.
    + by apply nil_length_inv.
Qed.

(** ** Room identities *)

Lemma identified_kept (registry registry' : list (string * Room)) (next next' : nat) :
  (next ≤ next')%nat →
  (∀ e, e ∈ registry' →
        ∃ e', e' ∈ registry ∧ e'.1 = e.1 ∧ room_id e'.2 = room_id e.2) →
  identified registry next → identified registry' next'.
Proof.
  intros Hle Hold [Hlt Huniq]. split.
  - intros e He. destruct (Hold e He) as (e' & He' & _ & <-).
    specialize (Hlt e' He'). lia.
  - intros e1 e2 Hin1 Hin2 Heq.
    destruct (Hold e1 Hin1) as (e1' & ? & <- & Hi1).
    destruct (Hold e2 Hin2) as (e2' & ? & <- & Hi2).
    apply Huniq; congruence.
Qed.

Lemma identified_set k (room room' : Room) registry next :
  (k, room) ∈ registry → room_id room' = room_id room →
  identified registry next → identified (JSMap.set k room' registry) next.
Proof.
  intros Hroom Hid. apply identified_kept; [done|].
  intros e He. apply elem_of_set in He as [-> | He]; [by exists (k, room) | by exists e].
Qed.

Lemma identified_delete k registry next :
  identified registry next → identified (JSMap.delete k registry) next.
Proof.
  apply identified_kept; [done|].
  intros e He. apply elem_of_rooms_delete in He as [He _]. by exists e.
Qed.

Lemma identified_new k (room : Room) registry next :
  room_id room = next →
  identified registry next → identified (JSMap.set k room registry) (S next).
Proof.
  intros Hid [Hlt Huniq]. split.
  - intros e He. apply elem_of_set in He as [-> | He]; simpl; [lia|].
    specialize (Hlt e He). lia.
  - intros e1 e2 Hin1 Hin2 Heq.
    apply elem_of_set in Hin1 as [-> | Hin1];
      apply elem_of_set in Hin2 as [-> | Hin2];
      simpl in *; try done.
    + specialize (Hlt e2 Hin2). lia.
    + specialize (Hlt e1 Hin1). lia.
    + by apply Huniq.
Qed.

Lemma getRoom_identified env id (s : State) :
  identified (rooms s) (nextRoomId s) →
  identified (rooms (getRoom env id s).2) (nextRoomId (getRoom env id s).2)
  ∧ (id, (getRoom env id s).1) ∈ rooms (getRoom env id s).2.
Proof.
  intros Hids. unfold getRoom.
  destruct (JSMap.get id (rooms s)) as [room|] eqn:Hroom.
  - split; [done | by apply get_Some_elem].
  - repeat case_match; simpl;
      (split; [by apply identified_new | apply get_Some_elem, get_set_eq]).
Qed.

Lemma cleanupRoom_identified env k (s : State) :
  identified (rooms s) (nextRoomId s) →
  identified (rooms (cleanupRoom env k s).1) (nextRoomId (cleanupRoom env k s).1).
Proof.
  intros Hids. unfold cleanupRoom.
  destruct (JSMap.get k (rooms s)) as [room|] eqn:Hroom; [|done].
  case_bool_decide; simpl.
  - by apply identified_delete.
  - apply (identified_set k room); [by apply get_Some_elem | | done].
    apply sweepRoom_fields.
Qed.

(** A handler's new registry from the registered room it read. *)
Ltac room_identified :=
  match goal with
  | Hroom : JSMap.get ?k (rooms ?s) = Some ?r
    |- identified (JSMap.set ?k _ (rooms ?s)) _ =>
      by apply (identified_set k r); [apply get_Some_elem| |]
  end.

Lemma onMessage_identified env c data (s : State) :
  identified (rooms s) (nextRoomId s) →
  identified (rooms (onMessage env c data s).1)
             (nextRoomId (onMessage env c data s).1).
Proof.
  intros Hids. unfold onMessage. destruct data as [message|]; [|done].
  case_match; [done|]. case_match.
  - unfold onJoin, deny. repeat (case_match; simpl; try done).
    match goal with Hg : getRoom ?e ?i s = (?r, ?s') |- _ =>
      destruct (getRoom_identified e i s Hids) as [Hids' Hr];
      rewrite Hg in Hids', Hr; simpl in Hids', Hr;
      by apply (identified_set i r) end.
  - unfold onYjsUpdate, onCursorUpdate, leaveRoom, refreshHeartbeat,
      schedulePersist.
    repeat (case_match; simpl; try done); room_identified.
Qed.

Lemma step_identified (s : State) (i : Input) :
  identified (rooms s) (nextRoomId s) →
  identified (rooms (step s i).1) (nextRoomId (step s i).1).
Proof.
  intros Hids. destruct i; cbn [step]; try done.
  - by apply onMessage_identified.
  - destruct (onJoinBegun_cases env c message s) as [-> | (h & -> & _)];
      [by apply onMessage_identified | done].
  - destruct (onLoadReturned_cases env k s)
      as [-> | [(hs & ->) | (h & _ & ->)]]; [done | done |].
    match goal with |- context [enter ?e ?c ?m ?a ?p ?i ?r ?s0] =>
      destruct (enter_spec e c m a p i r s0)
        as (room' & presence & -> & Hid & _) end.
    simpl in *. rewrite set_set. by apply identified_new.
  - unfold onClose, leaveRoom.
    repeat (case_match; simpl; try done). simpl in *. room_identified.
  - unfold onPong, refreshHeartbeat.
    repeat (case_match; simpl; try done). room_identified.
  - unfold onInterval.
    destruct (cleanupRooms env s) as [s' events] eqn:Hsweep. simpl.
    change s' with (s', events).1. rewrite <- Hsweep. unfold cleanupRooms.
    assert (Hgen : ∀ ks acc, identified (rooms acc.1) (nextRoomId acc.1) →
      identified (rooms (fold_left (sweepOne env) ks acc).1)
                 (nextRoomId (fold_left (sweepOne env) ks acc).1)).
    { induction ks as [|k ks IH]; intros acc Hacc; simpl; [done|].
      apply IH. rewrite sweepOne_state. by apply cleanupRoom_identified. }
    by apply Hgen.
  - unfold onPersistTimer.
    repeat (case_match; simpl; try done).
    match goal with Hf : List.find _ (rooms s) = Some (?k, ?r) |- _ =>
      apply find_some in Hf as [Hin _]; apply list_elem_of_In in Hin;
      by apply (identified_set k r) end.
Qed.

Lemma reachable_identified db kv client (s : State) :
  reachable (initial db kv client) s → identified (rooms s) (nextRoomId s).
Proof.
  induction 1 as [|s i Hreach IH Hruns]; [|by apply step_identified].
  split; simpl; intros e; [|intros e2]; intros He; by apply elem_of_nil in He.
Qed.

(** The timer of a registered room finds that room. *)
Lemma find_timer_registered (rid : nat) (registry : list (string * Room))
    documentId (room : Room) :
  JSMap.get documentId registry = Some room →
  room_id room = rid → is_Some (room_persistTimeout room) →
  (∀ entry, entry ∈ registry → room_id entry.2 = rid → entry.1 = documentId) →
  List.find (timerOf rid) registry = Some (documentId, room).
Proof.
  intros Hroom Hid [delay Hdelay] Hkeys.
  induction registry as [|[k v] registry IH]; [done|].
  simpl in Hroom |- *. destruct (decide (documentId = k)) as [-> | Hne].
  - injection Hroom as ->. unfold timerOf. simpl.
    by rewrite bool_decide_eq_true_2, Hdelay.
  - unfold timerOf at 1. simpl. rewrite bool_decide_eq_false_2.
    + simpl. apply IH; [done|]. intros e He. apply Hkeys. by right.
    + intros Hv. apply Hne. symmetry. apply (Hkeys (k, v)); [left | done].
Qed.

(** X26. When the persist timer of a registered room fires, the room's
    timer is cleared and its document goes through [persistRoom]; the
    room keeps its place, connections, presence and document, the other
    rooms and the connections are untouched, and nothing is sent.  The
    room is then ready for the next update to schedule a new timer. *)
Theorem persist_timer_fires
    (db : Database) (kv : gmap string string) (client : option string)
    (s : State) (env : Env) (documentId : string) (room : Room) (delay : Z) :
  reachable (initial db kv client) s →
  JSMap.get documentId (rooms s) = Some room →
  room_persistTimeout room = Some delay →
  let result := step s (persist_timer_fired (room_id room) env) in
  result.2 = []
  ∧ storage result.1 = persistRoom env documentId room (storage s)
  ∧ JSMap.get documentId (rooms result.1)
    = Some (room_with_persistTimeout None room)
  ∧ (∀ other, other ≠ documentId →
       JSMap.get other (rooms result.1) = JSMap.get other (rooms s))
  ∧ JSMap.keys (rooms result.1) = JSMap.keys (rooms s)
  ∧ connectionState result.1 = connectionState s
  ∧ clients result.1 = clients s
  ∧ operations result.1 = operations s.
Proof.
  intros Hreach Hroom Htimer result.
  destruct (reachable_identified _ _ _ _ Hreach) as [_ Huniq].
  assert (Hfind : List.find (timerOf (room_id room)) (rooms s)
                  = Some (documentId, room)).
  { apply find_timer_registered; [done | done | by eexists |].
    intros e He Hid. apply (Huniq e (documentId, room)); [done | | done].
    by apply get_Some_elem. }
  unfold result. cbn [step]. unfold onPersistTimer. rewrite Hfind. simpl.
  split_and!; try done.
  - apply get_set_eq.
  - intros other Hother. by apply get_set_ne.
  - rewrite keys_set. rewrite decide_True; [done|]. by apply (get_Some_keys' _ room).
Qed.

(** ** The sweeper's pings *)

Lemma pingClients_spec (cl : list (Conn * ReadyState)) (c : Conn) :
  Ping c ∈ pingClients cl ↔ (c, OPEN) ∈ cl.
Proof.
  unfold pingClients. induction cl as [|[c0 st] cl IH]; simpl.
  - split; intros Hin; by apply elem_of_nil in Hin.
  - rewrite elem_of_app, elem_of_cons, IH. case_bool_decide as Hopen; simpl in Hopen.
    + subst st. rewrite list_elem_of_singleton. split.
      * intros [[= ->] | Hin]; [by left | by right].
      * intros [[= ->] | Hin]; [by left | by right].
    + split.
      * intros [Hin | Hin]; [by apply elem_of_nil in Hin | by right].
      * intros [[= -> <-] | Hin]; [done | by right].
Qed.

Lemma ws_terminate_closes (c c' : Conn) (cl : list (Conn * ReadyState)) :
  c = c' ∨ readyState cl c ≠ OPEN → readyState (ws_terminate c' cl) c ≠ OPEN.
Proof.
  unfold ws_terminate, readyState. intros Hc.
  destruct (decide (c = c')) as [-> | Hne].
  - destruct (JSMap.get c' cl) as [[]|] eqn:Hget;
      rewrite ?get_set_eq, ?Hget; done.
  - destruct Hc as [-> | Hclosed]; [done|].
    destruct (JSMap.get c' cl) as [[]|]; rewrite ?get_set_ne; done.
Qed.

Lemma ws_terminate_NoDup (c : Conn) (cl : list (Conn * ReadyState)) :
  NoDup (JSMap.keys cl) → NoDup (JSMap.keys (ws_terminate c cl)).
Proof.
  intros Hnd. unfold ws_terminate.
  destruct (JSMap.get c cl) as [[]|]; try done; by apply NoDup_keys_set.
Qed.

Lemma sweep_closes t entries acc (c : Conn) :
  (Terminate c ∈ sw_events acc → readyState (sw_clients acc) c ≠ OPEN) →
  (Terminate c ∈ sw_events (fold_left (evictStale t) entries acc) →
   readyState (sw_clients (fold_left (evictStale t) entries acc)) c ≠ OPEN)
  ∧ (readyState (sw_clients acc) c ≠ OPEN →
     readyState (sw_clients (fold_left (evictStale t) entries acc)) c ≠ OPEN)
  ∧ (NoDup (JSMap.keys (sw_clients acc)) →
     NoDup (JSMap.keys (sw_clients (fold_left (evictStale t) entries acc))))
  ∧ (Ping c ∈ sw_events (fold_left (evictStale t) entries acc) →
     Ping c ∈ sw_events acc).
Proof.
  revert acc. induction entries as [|[c0 p] entries IH]; intros acc Hacc;
    cbn [fold_left]; [done|].
  destruct (stale t p) eqn:Hstale.
  - assert (Hstep : evictStale t acc (c0, p) =
      {| sw_room :=
           room_with_connections
             (JSSet.delete c0 (room_connections (sw_room acc)))
             (room_with_presence
                (JSMap.delete c0 (room_presence (sw_room acc))) (sw_room acc));
         sw_connectionState := delete c0 (sw_connectionState acc);
         sw_clients := ws_terminate c0 (sw_clients acc);
         sw_events := sw_events acc ++ [Terminate c0];
         sw_updated := true |})
      by (unfold evictStale; by rewrite Hstale).
    rewrite Hstep.
    match goal with |- context [fold_left _ entries ?a] =>
      destruct (IH a) as (Hterm & Hclosed & Hnd & Hping) end.
    { simpl. intros Hin. apply ws_terminate_closes.
      apply elem_of_app in Hin as [Hin | Hin]; [right; by apply Hacc|].
      apply list_elem_of_singleton in Hin as [= ->]. by left. }
    simpl in Hclosed, Hnd, Hping. split_and!.
    + done.
    + intros Hc. apply Hclosed, ws_terminate_closes. by right.
    + intros Hcl. by apply Hnd, ws_terminate_NoDup.
    + intros Hin. apply Hping, elem_of_app in Hin as [Hin | Hin]; [done|].
      by apply list_elem_of_singleton in Hin.
  - assert (Hstep : evictStale t acc (c0, p) = acc)
      by (unfold evictStale; by rewrite Hstale).
    rewrite Hstep. by apply IH.
Qed.

Lemma broadcast_sends cl (room : Room) payload except ev :
  ev ∈ broadcast cl room payload except → ∃ c, ev = Send c payload.
Proof.
  unfold broadcast. intros Hin.
  apply list_elem_of_In, in_flat_map in Hin as (c & _ & Hin).
  repeat case_match; simpl in Hin; try done.
  destruct Hin as [<- | []]. by exists c.
Qed.

Lemma cleanupRoom_closes env k (s : State) (c : Conn) :
  (Terminate c ∈ (cleanupRoom env k s).2 →
   readyState (clients (cleanupRoom env k s).1) c ≠ OPEN)
  ∧ (readyState (clients s) c ≠ OPEN →
     readyState (clients (cleanupRoom env k s).1) c ≠ OPEN)
  ∧ (NoDup (JSMap.keys (clients s)) →
     NoDup (JSMap.keys (clients (cleanupRoom env k s).1)))
  ∧ ¬ (Ping c ∈ (cleanupRoom env k s).2).
Proof.
  unfold cleanupRoom. destruct (JSMap.get k (rooms s)) as [room|].
  - destruct (sweep_closes (now env) (room_presence room)
                {| sw_room := room; sw_connectionState := connectionState s;
                   sw_clients := clients s; sw_events := []; sw_updated := false |} c)
      as (Hterm & Hclosed & Hnd & Hping).
    { simpl. intros Hin. by apply elem_of_nil in Hin. }
    fold (sweepRoom (now env) room s) in Hterm, Hclosed, Hnd, Hping.
    simpl in Hclosed, Hnd, Hping.
    assert (Hsends : ∀ ev,
      ev ∈ (if sw_updated (sweepRoom (now env) room s)
            then broadcastPresence (sw_clients (sweepRoom (now env) room s)) k
                   (sw_room (sweepRoom (now env) room s))
            else []) → ∃ c' f, ev = Send c' f).
    { intros ev Hin. destruct (sw_updated _); [|by apply elem_of_nil in Hin].
      apply broadcast_sends in Hin as [c' ->]. by eexists _, _. }
    case_bool_decide; simpl; split_and!; try done.
    all: intros Hin; apply elem_of_app in Hin as [Hin | Hin];
      first [ by apply Hterm
            | by apply Hping, elem_of_nil in Hin
            | by apply Hsends in Hin as (? & ? & ?) ].
  - simpl. split_and!; try done; intros Hin; by apply elem_of_nil in Hin.
Qed.

Lemma cleanupRooms_closes env ks (acc : State * list Event) (c : Conn) :
  (Terminate c ∈ acc.2 → readyState (clients acc.1) c ≠ OPEN) →
  (Terminate c ∈ (fold_left (sweepOne env) ks acc).2 →
   readyState (clients (fold_left (sweepOne env) ks acc).1) c ≠ OPEN)
  ∧ (readyState (clients acc.1) c ≠ OPEN →
     readyState (clients (fold_left (sweepOne env) ks acc).1) c ≠ OPEN)
  ∧ (NoDup (JSMap.keys (clients acc.1)) →
     NoDup (JSMap.keys (clients (fold_left (sweepOne env) ks acc).1)))
  ∧ (Ping c ∈ (fold_left (sweepOne env) ks acc).2 → Ping c ∈ acc.2).
Proof.
  revert acc. induction ks as [|k ks IH]; intros acc Hacc; cbn [fold_left]; [done|].
  destruct (cleanupRoom_closes env k acc.1 c) as (Hterm & Hclosed & Hnd & Hping).
  destruct (IH (sweepOne env acc k)) as (Hterm' & Hclosed' & Hnd' & Hping').
  { rewrite sweepOne_events, sweepOne_state. intros Hin.
    apply elem_of_app in Hin as [Hin | Hin]; [by apply Hclosed, Hacc | by apply Hterm]. }
  rewrite sweepOne_state in Hclosed', Hnd'. split_and!.
  - done.
  - intros Hc. by apply Hclosed', Hclosed.
  - intros Hcl. by apply Hnd', Hnd.
  - intros Hin. apply Hping' in Hin. rewrite sweepOne_events in Hin.
    apply elem_of_app in Hin as [Hin | Hin]; done.
Qed.

(** X27. The interval callback pings after it has swept: a connection is
    sent a ping exactly when its socket is open once every room has
    been swept, so a connection terminated in the pass, or one that was
    not open before it, gets no ping in that pass. *)
Theorem sweeper_pings (s : State) (env : Env) (c : Conn) :
  NoDup (JSMap.keys (clients s)) →
  let result := step s (interval_elapsed env) in
  (Ping c ∈ result.2 ↔ readyState (clients result.1) c = OPEN)
  ∧ (Terminate c ∈ result.2 → ¬ (Ping c ∈ result.2))
  ∧ (readyState (clients s) c ≠ OPEN → ¬ (Ping c ∈ result.2)).
Proof.
  intros Hnd result.
  destruct (cleanupRooms_closes env (JSMap.keys (rooms s)) (s, []) c)
    as (Hterm & Hclosed & Hnd' & Hping).
  { simpl. intros Hin. by apply elem_of_nil in Hin. }
  fold (cleanupRooms env s) in Hterm, Hclosed, Hnd', Hping.
  simpl in Hclosed, Hnd', Hping. specialize (Hnd' Hnd).
  assert (Hresult : result = ((cleanupRooms env s).1,
            (cleanupRooms env s).2 ++ pingClients (clients (cleanupRooms env s).1))).
  { unfold result. cbn [step]. unfold onInterval. by destruct (cleanupRooms env s). }
  rewrite Hresult. simpl.
  assert (Hiff : Ping c ∈ (cleanupRooms env s).2
                          ++ pingClients (clients (cleanupRooms env s).1)
                 ↔ readyState (clients (cleanupRooms env s).1) c = OPEN).
  { rewrite elem_of_app, pingClients_spec. unfold readyState. split.
    - intros [Hin | Hin]; [by apply Hping, elem_of_nil in Hin|].
      by rewrite (elem_get_Some _ _ _ Hnd' Hin).
    - intros Hopen. right.
      destruct (JSMap.get c (clients (cleanupRooms env s).1)) as [st|] eqn:Hget;
        [|done].
      simpl in Hopen. subst st. by apply get_Some_elem. }
  split_and!; [done | |].
  - intros Hin Hpinged. apply Hiff in Hpinged. revert Hpinged. apply Hterm.
    apply elem_of_app in Hin as [Hin | Hin]; [done|].
    unfold pingClients in Hin.
    apply list_elem_of_In, in_flat_map in Hin as (entry & _ & Hin).
    case_bool_decide; simpl in Hin; [by destruct Hin as [? | []] | done].
  - intros Hc Hpinged. apply Hiff in Hpinged. revert Hpinged. by apply Hclosed.
Qed.

(** ** Registry membership *)






(** ** A join overtaken by no one *)

(** The join branch of a granted join: [getRoom], then the rest of the
    branch on the room it returns. *)
Lemma onJoin_granted env c message (s : State) auth permission id :
  granted env message s = Some (auth, permission, id) →
  onJoin env c message s =
    enter env c message auth permission id
      (getRoom env id s).1 (getRoom env id s).2.
Proof.
  unfold granted, onJoin, enter. intros Hgranted.
  destruct (negb (truthy (nullish (prop message "token") JNull))
            || negb (truthy (prop message "documentId"))); [done|].
  destruct (verifyToken (nullish (prop message "token") JNull)) as [auth'|];
    [|done].
  destruct (getDocumentAccess _ _ _ _ _) as [[e | permission']|]; [done | | done].
  destruct (prop message "documentId"); try done.
  injection Hgranted as -> -> ->.
  by destruct (getRoom env id s).
Qed.

(** The return of the load of the join suspended last. *)
Lemma onLoadReturned_last env (s : State) (h : Suspended) :
  onLoadReturned env (length (suspended s))
    (with_suspended (suspended s ++ [h]) s) =
  match sus_awaits h, sus_restored h with
  | cache_get, false =>
      (with_suspended
         (suspended s ++
            [{| sus_connection := sus_connection h;
                sus_message := sus_message h; sus_auth := sus_auth h;
                sus_permission := sus_permission h;
                sus_documentId := sus_documentId h;
                sus_doc := (restoreFromDatabase env (storage s)
                              (sus_documentId h) (sus_doc h)).1;
                sus_restored := (restoreFromDatabase env (storage s)
                                   (sus_documentId h) (sus_doc h)).2;
                sus_awaits := version_findFirst |}]) s, [])
  | _, _ =>
      enter env (sus_connection h) (sus_message h) (sus_auth h)
        (sus_permission h) (sus_documentId h)
        {| room_id := nextRoomId s; room_doc := sus_doc h;
           room_connections := []; room_presence := [];
           room_persistTimeout := None |}
        (register (sus_documentId h)
           {| room_id := nextRoomId s; room_doc := sus_doc h;
              room_connections := []; room_presence := [];
              room_persistTimeout := None |} s)
  end.
Proof.
  unfold onLoadReturned. cbn [suspended with_suspended].
  rewrite list_lookup_middle by done.
  rewrite delete_middle, app_nil_r.
  destruct (sus_awaits h), (sus_restored h); try reflexivity.
  simpl. by destruct (restoreFromDatabase _ _ _ _).
Qed.

(** X29. A join that waits for its snapshot while no other handler runs
    is the join run to its end.  When a granted join of a document
    without a room is suspended, nothing is sent and neither the
    registry nor the connection states change; once its loads have
    returned (one, or two when the ready cache restored nothing), the
    state and the frames sent are those of the handler that nothing
    overtakes. *)
Theorem join_in_two_halves
    (s : State) (env : Env) (c : Conn) (message : JsVal)
    (auth : Auth) (permission id : string) :
  is_type message "join_document" →
  granted env message s = Some (auth, permission, id) →
  JSMap.get id (rooms s) = None →
  let begun := step s (join_begun c message env) in
  let k := length (suspended s) in
  let first := step begun.1 (load_returned k env) in
  let last :=
    if cacheReady (storage s)
       && negb (restoreFromRedis env (storage s) id Y_newDoc).2
    then step first.1 (load_returned k env) else first in
  begun.2 = []
  ∧ rooms begun.1 = rooms s
  ∧ connectionState begun.1 = connectionState s
  ∧ length (suspended begun.1) = S (length (suspended s))
  ∧ last = step s (message_received c (Some message) env).
Proof.
  intros Htype Hgranted Hnone begun k first last.
  assert (Hatomic : step s (message_received c (Some message) env) =
    enter env c message auth permission id
      (getRoom env id s).1 (getRoom env id s).2).
  { cbn [step]. unfold onMessage. apply str_eq_true in Htype.
    rewrite Htype. simpl. by apply onJoin_granted. }
  assert (Hroom : getRoom env id s =
    (let doc :=
       if (restoreFromRedis env (storage s) id Y_newDoc).2
       then (restoreFromRedis env (storage s) id Y_newDoc).1
       else (restoreFromDatabase env (storage s) id
               (restoreFromRedis env (storage s) id Y_newDoc).1).1 in
     let room := {| room_id := nextRoomId s; room_doc := doc;
                    room_connections := []; room_presence := [];
                    room_persistTimeout := None |} in
     (room, register id room s))).
  { unfold getRoom, register. rewrite Hnone.
    destruct (restoreFromRedis env (storage s) id Y_newDoc) as [d1 []]; simpl;
      [done|].
    by destruct (restoreFromDatabase env (storage s) id d1). }
  assert (Hcold : cacheReady (storage s) = false →
    restoreFromRedis env (storage s) id Y_newDoc = (Y_newDoc, false)).
  { intros Hready. unfold restoreFromRedis. by rewrite Hready. }
  assert (Hbegun : begun =
    (with_suspended
       (suspended s ++
          [{| sus_connection := c; sus_message := message; sus_auth := auth;
              sus_permission := permission; sus_documentId := id;
              sus_doc :=
                if cacheReady (storage s)
                then (restoreFromRedis env (storage s) id Y_newDoc).1
                else (restoreFromDatabase env (storage s) id Y_newDoc).1;
              sus_restored :=
                if cacheReady (storage s)
                then (restoreFromRedis env (storage s) id Y_newDoc).2
                else (restoreFromDatabase env (storage s) id Y_newDoc).2;
              sus_awaits :=
                if cacheReady (storage s) then cache_get
                else version_findFirst |}]) s, [])).
  { unfold begun. cbn [step]. unfold onJoinBegun.
    apply str_eq_true in Htype. rewrite Htype. simpl.
    rewrite Hgranted, Hnone.
    destruct (cacheReady (storage s)).
    - by destruct (restoreFromRedis env (storage s) id Y_newDoc).
    - by destruct (restoreFromDatabase env (storage s) id Y_newDoc). }
  split_and!; try (by rewrite Hbegun).
  - rewrite Hbegun. simpl. rewrite length_app. simpl. lia.
  - rewrite Hatomic, Hroom. unfold last, first. rewrite Hbegun.
    cbn [step fst]. unfold k. rewrite onLoadReturned_last. simpl.
    destruct (cacheReady (storage s)) eqn:Hready; simpl.
    + destruct (restoreFromRedis env (storage s) id Y_newDoc) as [d1 []]; simpl;
        [done|].
      by rewrite onLoadReturned_last.
    + rewrite (Hcold eq_refl). simpl.
      by destruct (restoreFromDatabase env (storage s) id Y_newDoc) as [d2 []].
Qed.

End Coverage.

(** * The properties on the deployment of [Scenario] *)

#[local] Existing Instance Scenario.yjs.
#[local] Existing Instance Scenario.buffer.
#[local] Existing Instance Scenario.jose.
#[local] Existing Instance Scenario.orm.

Import Scenario.

Ltac evaluate := unfold is_type; vm_compute; reflexivity.

Lemma scenario_reachable (inputs : list Input) : reachable start (run start inputs).
Proof. apply reachable_run. constructor. Qed.

(** ** Presence *)

Lemma presence_update_users_witness :
  let i := message_received 0%nat (Some (frame "cursor_update")) (at_time 400) in
  let users := firstUsers (step three_sockets i).2 in
  NoDup (JSMap.keys (rooms three_sockets))
  ∧ Send 1%nat (presence_update "d1" users) ∈ (step three_sockets i).2
  ∧ ∃ room : Room,
      JSMap.get "d1"%string (rooms (step three_sockets i).1) = Some room
      ∧ NoDup (p_userId <$> users)
      ∧ (∀ e, e ∈ users →
           e ∈ JSMap.values (room_presence room)
           ∧ ∀ p, p ∈ JSMap.values (room_presence room) →
                  p_userId p = p_userId e →
                  p_lastHeartbeat p ≤ p_lastHeartbeat e)
      ∧ (∀ p, p ∈ JSMap.values (room_presence room) →
           ∃ e, e ∈ users ∧ p_userId e = p_userId p).
Proof.
  intros i users.
  assert (Hnd : NoDup (JSMap.keys (rooms three_sockets))).
  { apply (reachable_NoDup_rooms db ∅ None).
    apply reachable_run, scenario_reachable. }
  assert (Hsent : Send 1%nat (presence_update "d1" users) ∈ (step three_sockets i).2).
  { vm_compute. right. left. }
  split_and!; [exact Hnd | exact Hsent |].
  exact (presence_update_users_distinct_latest three_sockets i 1%nat "d1"%string
           users Hnd Hsent).
Defined.

(** ** Access resolution *)

(** ** Access resolution *)

Lemma d1_document :
  let d1 := {| document_id := "d1"; document_ownerId := "alice" |} in
  d1 ∈ documents db
  ∧ ∀ d, d ∈ documents db → document_id d = "d1"%string → d = d1.
Proof.
  split; [left|]. intros d Hd Hid. simpl in Hd.
  repeat (apply elem_of_cons in Hd as [-> | Hd]); try done.
  by apply elem_of_nil in Hd.
Qed.

Lemma carol_unshared (id : string) :
  ∀ r, r ∈ documentShares db →
       ¬ (share_documentId r = id ∧ share_userId r = "carol"%string).
Proof.
  intros r Hr [_ Huser]. simpl in Hr.
  repeat (apply elem_of_cons in Hr as [-> | Hr]); try done.
  by apply elem_of_nil in Hr.
Qed.

(** C3. The share token of a join reaches the share-link query as the
    client sent it.  Carol has a valid session and is neither the owner
    of [d1] nor holds a share of it; she joins with the share token
    [5], which is the token of no link.  Prisma refuses the number, the
    promise of [getDocumentAccess] is rejected instead of resolving to
    [noAccess], and as nothing catches it the process ends: carol gets
    no [Access denied] frame, and every room and connection of the
    relay is lost.  With an unknown string token the same join is
    refused with [Access denied]. *)
Theorem share_token_rejection_ends_process :
  let s := opened in
  let frame shareToken :=
    join_with_link (JStr "d1") (JStr "token-carol") shareToken in
  reachable start s
  ∧ ¬ unknown_token_as_stated
  ∧ verifyToken (JStr "token-carol") = Some carol_session
  ∧ getDocumentAccess db (at_time 100) (JStr "d1") "carol" (JNum 5) = None
  ∧ step s (message_received 0%nat (Some (frame (JNum 5))) (at_time 100))
    = (s, [Exit])
  ∧ step s (message_received 0%nat (Some (frame (JStr "unknown"))) (at_time 100))
    = (with_clients (ws_close 0%nat (clients s)) s,
       [Send 0%nat (error_frame "Access denied"); CloseCall 0%nat]).
Proof.
  split_and!; try (vm_compute; reflexivity).
  - apply scenario_reachable.
  - intros Hclaim.
    specialize (Hclaim db (at_time 100) "d1"%string "carol"%string (JNum 5)
                  {| document_id := "d1"; document_ownerId := "alice" |}
                  eq_refl eq_refl eq_refl).
    assert (Hnone : getDocumentAccess db (at_time 100) (JStr "d1") "carol" (JNum 5)
                    = Some (access_error noAccess)).
    { apply Hclaim; [done | done | done | done |].
      intros l token _ _ Htoken. discriminate Htoken. }
    vm_compute in Hnone. discriminate Hnone.
Qed.

(** Carol holds no share of [d1]: the open link makes her an editor and
    the dated link a viewer until it expires, the expired one gives her
    nothing; bob's share is read before any link; alice owns the
    document whatever else she holds; a token that Prisma refuses
    rejects the promise. *)
Lemma getDocumentAccess_order_witness :
  getDocumentAccess db (at_time 100) (JStr "d1") "carol" (JStr "open")
    = Some (access_permission "editor")
  ∧ getDocumentAccess db (at_time 100) (JStr "d1") "carol" (JStr "dated")
    = Some (access_permission "viewer")
  ∧ getDocumentAccess db (at_time 1000) (JStr "d1") "carol" (JStr "dated")
    = Some (access_error noAccess)
  ∧ getDocumentAccess db (at_time 100) (JStr "d1") "carol" (JStr "expired")
    = Some (access_error noAccess)
  ∧ getDocumentAccess db (at_time 100) (JStr "d1") "carol" JNull
    = Some (access_error noAccess)
  ∧ getDocumentAccess db (at_time 100) (JStr "d1") "carol" (JNum 5) = None
  ∧ getDocumentAccess db (at_time 100) (JStr "d1") "bob" (JStr "open")
    = Some (access_permission "viewer")
  ∧ getDocumentAccess db (at_time 100) (JStr "d1") "alice" (JStr "expired")
    = Some (access_permission "owner").
Proof.
  pose (d1 := {| document_id := "d1"; document_ownerId := "alice" |}).
  destruct d1_document as [Hd1 Hkey].
  assert (Hgrant : ∀ t token permission expiry,
    token ≠ ""%string →
    {| link_documentId := "d1"; link_token := token;
       link_permission := permission; link_expiresAt := expiry |}
      ∈ documentShareLinks db →
    match expiry with None => True | Some e => t < e end →
    (∀ l, l ∈ documentShareLinks db → link_token l = token →
          link_permission l = permission) →
    getDocumentAccess db (at_time t) (JStr "d1") "carol" (JStr token)
    = Some (access_permission permission)).
  { intros t token permission expiry Htoken Hrow Hvalid Hsame.
    destruct (getDocumentAccess_order db (at_time t) "d1" "carol" (JStr token) d1)
      as (_ & _ & Hlink & _); [done..|].
    destruct (Hlink ltac:(done) (carol_unshared _) token eq_refl Htoken)
      as [Hfound _].
    destruct Hfound as (l & Hl & _ & Ht & ->).
    { eexists. split; [exact Hrow|]. split; [by split|]. apply String.eqb_refl. }
    apply String.eqb_eq in Ht. by rewrite (Hsame l Hl Ht). }
  assert (Hrefused : ∀ t token,
    token ≠ ""%string →
    (∀ l, l ∈ documentShareLinks db → link_token l = token →
          ∃ e, link_expiresAt l = Some e ∧ e ≤ t) →
    getDocumentAccess db (at_time t) (JStr "d1") "carol" (JStr token)
    = Some (access_error noAccess)).
  { intros t token Htoken Hexpired.
    destruct (getDocumentAccess_order db (at_time t) "d1" "carol" (JStr token) d1)
      as (_ & _ & Hlink & _); [done..|].
    destruct (Hlink ltac:(done) (carol_unshared _) token eq_refl Htoken)
      as [_ Hnone].
    apply Hnone. intros l Hl _ Ht. apply String.eqb_eq in Ht. by apply Hexpired. }
  split_and!.
  - apply (Hgrant 100 "open"%string "editor"%string None); [done | | done |].
    + simpl. right. left.
    + intros l Hl Ht. simpl in Hl.
      repeat (apply elem_of_cons in Hl as [-> | Hl]); try done.
      by apply elem_of_nil in Hl.
  - apply (Hgrant 100 "dated"%string "viewer"%string (Some 1000)); [done | | done |].
    + simpl. right. right. left.
    + intros l Hl Ht. simpl in Hl.
      repeat (apply elem_of_cons in Hl as [-> | Hl]); try done.
      by apply elem_of_nil in Hl.
  - apply Hrefused; [done|]. intros l Hl Ht. simpl in Hl.
    repeat (apply elem_of_cons in Hl as [-> | Hl]); try done.
    + by exists 1000.
    + by apply elem_of_nil in Hl.
  - apply Hrefused; [done|]. intros l Hl Ht. simpl in Hl.
    repeat (apply elem_of_cons in Hl as [-> | Hl]); try done.
    + by exists 50.
    + by apply elem_of_nil in Hl.
  - destruct (getDocumentAccess_order db (at_time 100) "d1" "carol" JNull d1)
      as (_ & _ & _ & Hfalsy & _); [done..|].
    by apply Hfalsy; [| apply carol_unshared |].
  - destruct (getDocumentAccess_order db (at_time 100) "d1" "carol" (JNum 5) d1)
      as (_ & _ & _ & _ & Hother & _); [done..|].
    by apply (Hother ltac:(done) (carol_unshared _) eq_refl eq_refl).
  - destruct (getDocumentAccess_order db (at_time 100) "d1" "bob" (JStr "open") d1)
      as (_ & Hshare & _); [done..|].
    apply (Hshare ltac:(done)
             {| share_documentId := "d1"; share_userId := "bob";
                share_permission := "viewer" |}); [left | done | done |].
    intros r Hr _ _. simpl in Hr.
    repeat (apply elem_of_cons in Hr as [-> | Hr]); try done.
    by apply elem_of_nil in Hr.
  - destruct (getDocumentAccess_order db (at_time 100) "d1" "alice" (JStr "expired") d1)
      as (Howner & _); [done..|].
    by apply Howner.
Defined.

(** ** Viewer writes and empty updates *)

Lemma bob_is_viewer : connectionState two_members !! 1%nat = Some bob.
Proof. vm_compute. reflexivity. Qed.

Lemma alice_is_owner : connectionState two_members !! 0%nat = Some alice.
Proof. vm_compute. reflexivity. Qed.

Lemma d1_registered : ∃ room, JSMap.get "d1"%string (rooms two_members) = Some room.
Proof. vm_compute. by eexists. Qed.

Lemma bob_joined : ∃ room, joined two_members 1%nat bob room.
Proof. destruct d1_registered as [room Hroom]. exists room. split; [apply bob_is_viewer | exact Hroom]. Qed.

Lemma yjs_update_without_payload_witness :
  connectionState two_members !! 1%nat = Some bob
  ∧ step two_members (message_received 1%nat (Some (frame "yjs_update")) (at_time 400))
    = (two_members, []).
Proof.
  split; [exact bob_is_viewer|].
  apply (yjs_update_without_payload_dropped two_members (at_time 400) 1%nat
           (frame "yjs_update") bob bob_is_viewer); reflexivity.
Defined.

(** Bob, a viewer of [d1], sends a [yjs_update] frame without [update]:
    he is sent nothing, so not the one [error] frame of the sentence. *)
Lemma viewer_immutability_as_stated_fails : ¬ viewer_immutability_as_stated.
Proof.
  intros Hclaim. destruct bob_joined as [room Hjoined].
  specialize (Hclaim two_members (at_time 400) 1%nat (frame "yjs_update") bob room
                Hjoined eq_refl eq_refl).
  assert (Hrun :
    step two_members (message_received 1%nat (Some (frame "yjs_update")) (at_time 400))
    = (two_members, [])) by (vm_compute; reflexivity).
  rewrite Hrun in Hclaim. destruct Hclaim as (_ & _ & Herr & _). done.
Qed.

Lemma viewer_update_refused_witness :
  (∃ room, joined two_members 1%nat bob room)
  ∧ step two_members (message_received 1%nat (Some (update (JStr "abc"))) (at_time 400))
    = (two_members, [Send 1%nat (error_frame "Read-only access")]).
Proof.
  split; [exact bob_joined|].
  destruct bob_joined as [room Hjoined].
  apply (viewer_update_refused two_members (at_time 400) 1%nat (update (JStr "abc"))
           bob room Hjoined); reflexivity.
Defined.

(** ** Heartbeats *)




(** ** Admission *)

(** A join with a valid token and an empty [documentId] is answered
    [Unauthorized]. *)
Lemma invalid_id_as_stated_fails : ¬ invalid_id_as_stated.
Proof.
  intros Hclaim.
  specialize (Hclaim start (at_time 100) 0%nat
                (join (JStr "") (JStr "token-alice")) eq_refl (or_introl eq_refl)).
  vm_compute in Hclaim. congruence.
Qed.

(** With alice's token, the ids [""], [0] and [false] are answered
    [Unauthorized]; the id [42] is answered [Document not found]. *)
Lemma join_invalid_document_id_witness :
  let answered id text :=
    step start (message_received 0%nat (Some (join id (JStr "token-alice")))
                  (at_time 100))
    = (with_clients (ws_close 0%nat (clients start)) start,
       [Send 0%nat (error_frame text); CloseCall 0%nat]) in
  answered (JStr "") "Unauthorized"%string
  ∧ answered (JNum 0) "Unauthorized"%string
  ∧ answered (JBool false) "Unauthorized"%string
  ∧ answered (JNum 42) "Document not found"%string.
Proof.
  cbn zeta. split_and!.
  - apply (join_invalid_document_id start (at_time 100) 0%nat
             (join (JStr "") (JStr "token-alice"))); reflexivity.
  - apply (join_invalid_document_id start (at_time 100) 0%nat
             (join (JNum 0) (JStr "token-alice"))); reflexivity.
  - apply (join_invalid_document_id start (at_time 100) 0%nat
             (join (JBool false) (JStr "token-alice"))); reflexivity.
  - apply (join_invalid_document_id start (at_time 100) 0%nat
             (join (JNum 42) (JStr "token-alice"))); try reflexivity.
    vm_compute. by eexists.
Defined.

(** ** Persistence *)

(** The cache is ready but its write fails: the snapshot of [d1] becomes
    a durable row. *)
Lemma persist_tiers_as_stated_fails : ¬ persist_tiers_as_stated.
Proof.
  intros Hclaim.
  destruct (Hclaim (write_fails 6000) "d1"%string edited_room ready) as [Hcache _].
  destruct (Hcache eq_refl) as [_ Hrows].
  vm_compute in Hrows. discriminate Hrows.
Qed.

Lemma persistRoom_tiers_witness :
  let st' := persistRoom (at_time 6000) "d1" edited_room degraded in
  documentVersions (prisma st') ≠ documentVersions (prisma degraded)
  ∧ documentVersions (prisma st') = [autoSaveRow "d1" "alice" "abc" 6000]
  ∧ persistRoom (at_time 6000) "d1" edited_room ready
    = with_redisStore (<[getRedisKey "d1" := "abc"%string]> (redisStore ready)) ready.
Proof.
  intros st'.
  assert (Hrow : documentVersions (prisma st') ≠ documentVersions (prisma degraded)).
  { vm_compute. discriminate. }
  destruct (persistRoom_tiers (at_time 6000) "d1" edited_room degraded)
    as [_ Hdurable].
  destruct (persistRoom_tiers (at_time 6000) "d1" edited_room ready)
    as [Hcache _].
  split_and!; [exact Hrow | | exact (Hcache eq_refl eq_refl)].
  destruct (Hdurable Hrow) as (_ & _ & _ & doc & Hdoc & Hrows).
  vm_compute in Hdoc. injection Hdoc as <-. exact Hrows.
Defined.

(** ** Room creation *)

Lemma resumed_latest :
  mostRecent archive "d1" resumed
  ∧ ∀ w, mostRecent archive "d1" w → version_snapshot w = "resumed"%string.
Proof.
  assert (Hrows : ∀ w, w ∈ documentVersions archive →
    version_documentId w = "d1"%string →
    w = resumed ∨ version_createdAt w = 10).
  { intros w Hw Hdoc. simpl in Hw.
    repeat (apply elem_of_cons in Hw as [-> | Hw]); try done; [by left | by right |].
    by apply elem_of_nil in Hw. }
  split.
  - split_and!; [left | done |]. intros w Hw Hdoc.
    destruct (Hrows w Hw Hdoc) as [-> | ->]; simpl; lia.
  - intros w (Hw & Hdoc & Hmax).
    destruct (Hrows w Hw Hdoc) as [-> | Hold]; [done|].
    specialize (Hmax resumed ltac:(left) eq_refl). simpl in Hmax. lia.
Qed.

(** On a cold start alice's join restores the most recent version of
    [d1], which is not the last row of the table; behind a cache whose
    entry is corrupt the join falls back to that version; and when both
    loads throw the join succeeds on an empty document. *)
Lemma join_loads_latest_snapshot_witness :
  let frame := join (JStr "d1") (JStr "token-alice") in
  let restored (s : State) env :=
    ∃ room events,
      (step s (message_received 0%nat (Some frame) env)).2
        = Send 0%nat (doc_sync "d1" "resumed") :: events
      ∧ JSMap.get "d1"%string
          (rooms (step s (message_received 0%nat (Some frame) env)).1) = Some room
      ∧ room_connections room = [0%nat]
      ∧ room_doc room = [String.list_byte_of_string "resumed"] in
  restored cold (at_time 100)
  ∧ restored corrupt (at_time 100)
  ∧ ∃ room events,
      (step corrupt (message_received 0%nat (Some frame) (outage 100))).2
        = Send 0%nat (doc_sync "d1" "") :: events
      ∧ JSMap.get "d1"%string
          (rooms (step corrupt (message_received 0%nat (Some frame) (outage 100))).1)
        = Some room
      ∧ room_connections room = [0%nat]
      ∧ room_doc room = [].
Proof.
  destruct resumed_latest as [Hlatest Hties].
  assert (Hbytes : ∀ d0 : YDoc,
    applies d0 "resumed" (d0 ++ [String.list_byte_of_string "resumed"]) true).
  { intros d0. by apply applies_ok with (String.list_byte_of_string "resumed"). }
  cbn zeta. split_and!.
  - destruct (join_loads_latest_snapshot cold (at_time 100) 0%nat
                (join (JStr "d1") (JStr "token-alice"))
                {| auth_userId := "alice"; auth_email := "alice@example.org" |}
                "owner" "d1")
      as (room & events & Htrace & Hroom & _ & Hconns & _ & _ & _ & Hdurable & _);
      [evaluate..|].
    assert (Hcache : cacheLoad (at_time 100) (storage cold) "d1" Y_newDoc false)
      by (apply cache_not_ready; evaluate).
    destruct (Hdurable Y_newDoc Hcache) as [_ Hrow].
    destruct (Hrow ltac:(evaluate) resumed Hlatest Hties) as [_ Hdoc].
    specialize (Hdoc ltac:(done) _ _ (Hbytes Y_newDoc)).
    exists room, events. cbn zeta in *. by rewrite Htrace, Hdoc.
  - destruct (join_loads_latest_snapshot corrupt (at_time 100) 0%nat
                (join (JStr "d1") (JStr "token-alice"))
                {| auth_userId := "alice"; auth_email := "alice@example.org" |}
                "owner" "d1")
      as (room & events & Htrace & Hroom & _ & Hconns & _ & _ & _ & Hdurable & _);
      [evaluate..|].
    assert (Hcache : cacheLoad (at_time 100) (storage corrupt) "d1" Y_newDoc false).
    { apply cache_bytes with "!"%string; [evaluate | evaluate | evaluate | done |].
      by apply applies_threw with []. }
    destruct (Hdurable Y_newDoc Hcache) as [_ Hrow].
    destruct (Hrow ltac:(evaluate) resumed Hlatest Hties) as [_ Hdoc].
    specialize (Hdoc ltac:(done) _ _ (Hbytes Y_newDoc)).
    exists room, events. cbn zeta in *. by rewrite Htrace, Hdoc.
  - destruct (join_loads_latest_snapshot corrupt (outage 100) 0%nat
                (join (JStr "d1") (JStr "token-alice"))
                {| auth_userId := "alice"; auth_email := "alice@example.org" |}
                "owner" "d1")
      as (room & events & Htrace & Hroom & _ & Hconns & _ & _ & _ & Hdurable & _);
      [evaluate..|].
    assert (Hcache : cacheLoad (outage 100) (storage corrupt) "d1" Y_newDoc false)
      by (apply cache_get_threw; evaluate).
    destruct (Hdurable Y_newDoc Hcache) as [Hnone _].
    assert (Hdoc : room_doc room = Y_newDoc) by (apply Hnone; left; evaluate).
    exists room, events. cbn zeta in *. by rewrite Htrace, Hdoc.
Defined.

(** ** The registry *)



(** ** The tracking structures *)

(** C8. The three structures come apart on a reachable state: after
    connection 0 has joined [d1] and then [d2], it is still in the
    connections and the presence map of the room of [d1] while
    [connectionState] names [d2].  Its frames now refresh the entry in
    [d2] only, so the sweep finds the entry in [d1] stale: it terminates
    the socket and deletes the state that names [d2], and the connection
    stays in the room of [d2] without a state. *)
Theorem rejoin_breaks_tracking_agreement :
  reachable start rejoined
  ∧ ¬ tracking_agree rejoined
  ∧ (st_documentId <$> connectionState rejoined !! 0%nat) = Some "d2"%string
  ∧ (room_connections <$> JSMap.get "d1"%string (rooms rejoined)) = Some [0%nat]
  ∧ (JSMap.keys ∘ room_presence <$> JSMap.get "d1"%string (rooms rejoined))
      = Some [0%nat]
  ∧ let sweep := step rejoined (interval_elapsed (at_time 10150)) in
    sweep.2 = [Terminate 0%nat]
    ∧ connectionState sweep.1 !! 0%nat = None
    ∧ (room_connections <$> JSMap.get "d2"%string (rooms sweep.1)) = Some [0%nat].
Proof.
  split_and!; try (vm_compute; reflexivity).
  - apply scenario_reachable.
  - intros Hagree.
    assert (Hroom : ∃ room,
      JSMap.get "d1"%string (rooms rejoined) = Some room
      ∧ room_connections room = [0%nat]).
    { vm_compute. by eexists. }
    destruct Hroom as (room & Hroom & Hconns).
    destruct (Hagree 0%nat "d1"%string room Hroom) as [_ [Hstate _]].
    destruct Hstate as (state & Hstate & Hdoc); [rewrite Hconns; left|].
    assert (Hd2 : ∀ st, connectionState rejoined !! 0%nat = Some st →
                        st_documentId st = "d2"%string).
    { vm_compute. by intros st [= <-]. }
    specialize (Hd2 _ Hstate). congruence.
  - split_and!; vm_compute; reflexivity.
Qed.

(** * The further properties on the deployment of [Scenario] *)

Lemma d1_room : JSMap.get "d1"%string (rooms two_members)
                = Some (room_of two_members "d1").
Proof. vm_compute. reflexivity. Qed.

Lemma alice_in_d1 : joined two_members 0%nat alice (room_of two_members "d1").
Proof. split; [apply alice_is_owner | apply d1_room]. Qed.

Lemma bob_in_d1 : joined two_members 1%nat bob (room_of two_members "d1").
Proof. split; [apply bob_is_viewer | apply d1_room]. Qed.

Lemma two_members_NoDup : NoDup (JSMap.keys (rooms two_members)).
Proof. apply (reachable_NoDup_rooms db ∅ None). apply scenario_reachable. Qed.

Lemma edited_and_left_NoDup : NoDup (JSMap.keys (rooms edited_and_left)).
Proof. apply (reachable_NoDup_rooms db ∅ None). apply scenario_reachable. Qed.

Lemma alice_is_no_viewer : st_permission alice ≠ "viewer"%string.
Proof. discriminate. Qed.

Lemma join_without_valid_token_witness :
  step start (message_received 0%nat (Some (join (JStr "d1") (JStr "forged")))
                (at_time 100))
  = (with_clients (ws_close 0%nat (clients start)) start,
     [Send 0%nat (error_frame "Unauthorized"); CloseCall 0%nat]).
Proof.
  apply (join_without_valid_token start (at_time 100) 0%nat
           (join (JStr "d1") (JStr "forged"))); [evaluate|].
  right. left. evaluate.
Defined.

Lemma join_denied_witness :
  step start (message_received 0%nat (Some (join (JStr "d1") (JStr "token-carol")))
                (at_time 100))
  = (with_clients (ws_close 0%nat (clients start)) start,
     [Send 0%nat (error_frame "Access denied"); CloseCall 0%nat])
  ∧ step start (message_received 0%nat (Some (join (JStr "d9") (JStr "token-carol")))
                  (at_time 100))
    = (with_clients (ws_close 0%nat (clients start)) start,
       [Send 0%nat (error_frame "Document not found"); CloseCall 0%nat]).
Proof.
  split.
  - eapply (join_denied start (at_time 100) 0%nat
              (join (JStr "d1") (JStr "token-carol")) carol_session "d1");
      [evaluate | evaluate | evaluate | evaluate | discriminate | evaluate].
  - eapply (join_denied start (at_time 100) 0%nat
              (join (JStr "d9") (JStr "token-carol")) carol_session "d9");
      [evaluate | evaluate | evaluate | evaluate | discriminate | right; evaluate].
Defined.

Lemma frame_before_join_witness :
  step start (message_received 0%nat (Some (frame "heartbeat")) (at_time 100))
  = (start, [Send 0%nat (error_frame "Not joined")]).
Proof.
  apply (frame_before_join start (at_time 100) 0%nat (frame "heartbeat")); evaluate.
Defined.

Lemma frames_dropped_silently_witness :
  step two_members (message_received 1%nat (Some (frame "bogus")) (at_time 400))
  = (two_members, [])
  ∧ step two_members (message_received 1%nat (Some (JNum 7)) (at_time 400))
    = (two_members, []).
Proof.
  destruct (frames_dropped_silently two_members (at_time 400) 1%nat (frame "bogus"))
    as (_ & _ & Hunknown & _).
  destruct (frames_dropped_silently two_members (at_time 400) 1%nat (JNum 7))
    as (_ & Hnotype & _).
  split.
  - apply (Hunknown bob (room_of two_members "d1") "bogus"%string bob_in_d1);
      [evaluate|].
    intros Hin. repeat (apply elem_of_cons in Hin as [Hin|Hin]; [discriminate Hin|]).
    by apply elem_of_nil in Hin.
  - apply Hnotype. evaluate.
Defined.

Lemma editor_update_fans_out_witness :
  let result :=
    step two_members
      (message_received 0%nat (Some (update (JStr "abc"))) (at_time 400)) in
  result.2 = [Send 1%nat (yjs_update "d1" (JStr "abc"))]
  ∧ crdtOf result.1 "d1" = Some [String.list_byte_of_string "abc"]
  ∧ operations result.1 = [400].
Proof.
  destruct (editor_update_fans_out two_members (at_time 400) 0%nat
              (update (JStr "abc")) alice (room_of two_members "d1")
              (String.list_byte_of_string "abc") [String.list_byte_of_string "abc"]
              alice_in_d1 alice_is_no_viewer)
    as (Hsent & (room' & Hroom' & Hdoc & _) & Hops & _); [evaluate | evaluate | evaluate | evaluate |].
  cbn zeta. split_and!.
  - rewrite Hsent. evaluate.
  - unfold crdtOf. simpl st_documentId in Hroom'. rewrite Hroom'. simpl. by rewrite Hdoc.
  - rewrite Hops. evaluate.
Defined.

Lemma failed_update_dropped_witness :
  step two_members (message_received 0%nat (Some (update (JNum 5))) (at_time 400))
  = (two_members, []).
Proof.
  apply (failed_update_dropped two_members (at_time 400) 0%nat
           (update (JNum 5)) alice (room_of two_members "d1")
           alice_in_d1 alice_is_no_viewer); evaluate.
Defined.

Lemma persist_timer_debounced_witness :
  room_persistTimeout
    <$> JSMap.get "d1"%string
          (rooms (step two_members
                    (message_received 0%nat (Some (update (JStr "abc")))
                       (at_time 400))).1)
  = Some (Some 5000).
Proof.
  apply (persist_timer_debounced two_members (at_time 400) 0%nat
           (update (JStr "abc")) alice (room_of two_members "d1")
           (String.list_byte_of_string "abc") [String.list_byte_of_string "abc"]
           alice_in_d1 alice_is_no_viewer); evaluate.
Defined.

Lemma d1_presence :
  room_presence (room_of two_members "d1")
  = [(0%nat, alice_presence); (1%nat, bob_presence)].
Proof. vm_compute. reflexivity. Qed.


Lemma leave_document_forgets_witness :
  let left :=
    (step two_members
       (message_received 0%nat (Some (frame "leave_document")) (at_time 400))).1 in
  connectionState left !! 0%nat = None
  ∧ step left (message_received 0%nat (Some (frame "heartbeat")) (at_time 500))
    = (left, [Send 0%nat (error_frame "Not joined")]).
Proof.
  destruct (leave_document_forgets two_members (at_time 400) 0%nat
              (frame "leave_document") alice (room_of two_members "d1") alice_in_d1)
    as (Hstate & _ & _ & _ & Hnext); [evaluate|].
  cbn zeta. split.
  - rewrite Hstate. apply lookup_delete_eq.
  - apply Hnext; evaluate.
Defined.

Lemma join_existing_room_witness :
  let result :=
    step carol_arrives
      (message_received 2%nat
         (Some (join_with_link (JStr "d1") (JStr "token-carol") (JStr "open")))
         (at_time 400)) in
  ∃ room',
    JSMap.get "d1"%string (rooms result.1) = Some room'
    ∧ room_id room' = room_id (room_of carol_arrives "d1")
    ∧ room_connections room' = [0; 1; 2]%nat
    ∧ connectionState result.1 !! 2%nat
      = Some {| st_documentId := "d1"; st_userId := "carol";
                st_permission := "editor" |}
    ∧ storage result.1 = storage carol_arrives.
Proof.
  destruct (join_existing_room carol_arrives (at_time 400) 2%nat
              (join_with_link (JStr "d1") (JStr "token-carol") (JStr "open"))
              carol_session "editor" "d1" (room_of carol_arrives "d1"))
    as (room' & Hroom' & Hid & _ & _ & Hconns & _ & _ & Hstate & Hstorage & _);
    [evaluate | evaluate | evaluate | evaluate | evaluate | evaluate |].
  cbn zeta. exists room'. split_and!; [exact Hroom' | exact Hid | | | exact Hstorage].
  - rewrite Hconns. evaluate.
  - rewrite Hstate. apply lookup_insert_eq.
Defined.

Lemma only_persist_timer_writes_witness :
  let swept := (step two_members (interval_elapsed (at_time 20000))).1 in
  redisStore (storage swept) = redisStore (storage two_members)
  ∧ prisma (storage swept) = prisma (storage two_members)
  ∧ lastDbPersist (storage swept) = lastDbPersist (storage two_members).
Proof.
  apply (only_persist_timer_writes two_members (interval_elapsed (at_time 20000))).
  intros rid env. discriminate.
Defined.

Lemma viewer_frames_keep_documents_witness :
  let result :=
    step two_members
      (message_received 1%nat (Some (cursor_moved 7)) (at_time 400)) in
  (∀ documentId, crdtOf result.1 documentId = crdtOf two_members documentId)
  ∧ storage result.1 = storage two_members.
Proof.
  apply (viewer_frames_keep_documents two_members (at_time 400) 1%nat
           (Some (cursor_moved 7)) bob); [evaluate | evaluate |].
  intros message [= <-]. evaluate.
Defined.

Lemma sweep_leaves_no_stale_entry_witness :
  let swept := (step two_members (interval_elapsed (at_time 10120))).1 in
  room_connections (room_of swept "d1") = [1%nat]
  ∧ room_doc (room_of swept "d1") = room_doc (room_of two_members "d1").
Proof.
  destruct (sweep_leaves_no_stale_entry two_members (at_time 10120) "d1"
              (room_of (step two_members (interval_elapsed (at_time 10120))).1 "d1")
              two_members_NoDup)
    as (room & Hroom & Hconns & _ & _ & _ & Hdoc & _); [evaluate|].
  rewrite d1_room in Hroom. injection Hroom as <-.
  cbn zeta. split; [|exact Hdoc].
  rewrite Hconns. evaluate.
Defined.

Lemma stale_connection_evicted_witness :
  Terminate 0%nat ∈ (step two_members (interval_elapsed (at_time 10120))).2
  ∧ connectionState (step two_members (interval_elapsed (at_time 10120))).1 !! 0%nat
    = None.
Proof.
  apply (stale_connection_evicted two_members (at_time 10120) "d1"
           (room_of two_members "d1") 0%nat alice_presence d1_room).
  - rewrite d1_presence. left.
  - evaluate.
Defined.

Lemma operations_window_witness :
  recordOperation 70000 [1000; 20000; 65000] = [20000; 65000; 70000]
  ∧ (getOpsPerMinute 70000 [1000; 20000; 65000]).2 = 2%nat.
Proof.
  destruct (operations_window 70000 [1000; 20000; 65000])
    as (Hrecord & _ & _ & Hcount).
  - unfold chronological. repeat (constructor; [|repeat constructor; lia]).
    constructor.
  - intros o Ho. repeat (apply elem_of_cons in Ho as [-> | Ho]; [lia|]).
    by apply elem_of_nil in Ho.
  - rewrite Hrecord, Hcount. split; evaluate.
Defined.

Lemma getRedisKey_injective_witness :
  getRedisKey "d1" = getRedisKey (String.append "d" "1")
  ∧ "d1"%string = String.append "d" "1".
Proof.
  assert (Hkey : getRedisKey "d1" = getRedisKey (String.append "d" "1"))
    by evaluate.
  split; [exact Hkey|].
  exact (getRedisKey_injective "d1" (String.append "d" "1") Hkey).
Defined.

Lemma durable_write_floor_witness :
  let st1 := persistRoom (at_time 6000) "d1" edited_room degraded in
  lastDbPersist st1 !! "d1"%string = Some 6000
  ∧ prisma (persistRoom (at_time 8000) "d1" edited_again st1) = prisma st1.
Proof.
  destruct (durable_write_floor (at_time 6000) (at_time 8000) "d1"
              edited_room edited_again degraded)
    as (Hnoted & _ & Hfloor).
  - vm_compute. discriminate.
  - cbn zeta. split; [exact Hnoted|]. apply Hfloor. evaluate.
Defined.

Lemma auto_save_once_witness :
  let st1 := persistRoom (at_time 6000) "d1" edited_room degraded in
  version_snapshot <$> findFirst_version (prisma st1) "d1" = Some "abc"%string
  ∧ prisma (persistRoom (at_time 60000) "d1" edited_room st1) = prisma st1.
Proof.
  destruct (auto_save_once (at_time 6000) (at_time 60000) "d1"
              edited_room edited_room degraded)
    as ((v & Hlatest & Hbytes & _) & Honce).
  - vm_compute. discriminate.
  - intros w Hw. simpl in Hw. by apply elem_of_nil in Hw.
  - cbn zeta. split.
    + rewrite Hlatest. simpl. rewrite Hbytes. evaluate.
    + apply Honce. reflexivity.
Defined.

Lemma cache_round_trip_witness :
  redisStore (storage warm) !! getRedisKey "d1" = Some "abc"%string
  ∧ room_doc (getRoom (at_time 200) "d1" warm).1 = [String.list_byte_of_string "abc"].
Proof.
  destruct (cache_round_trip (at_time 100) (at_time 200) "d1" edited_room ready warm
              (String.list_byte_of_string "abc") [String.list_byte_of_string "abc"])
    as (Hcached & _ & _ & Hdoc);
    [evaluate | evaluate | evaluate | evaluate | evaluate | vm_compute; discriminate
    | evaluate | evaluate |].
  split; [|exact Hdoc]. rewrite Hcached. evaluate.
Defined.

Lemma edited_and_left_rooms :
  rooms edited_and_left = [("d1"%string, room_of edited_and_left "d1")]
  ∧ detached edited_and_left = [].
Proof. split; vm_compute; reflexivity. Qed.

Lemma pending_persist_survives_sweep_witness :
  let swept := (step edited_and_left (interval_elapsed (at_time 400))).1 in
  let fired :=
    step swept
      (persist_timer_fired (room_id (room_of edited_and_left "d1")) (at_time 5300)) in
  JSMap.get "d1"%string (rooms swept) = None
  ∧ fired.2 = []
  ∧ version_snapshot <$> documentVersions (prisma (storage fired.1))
    = ["abc"%string].
Proof.
  destruct edited_and_left_rooms as [Hrooms Hdetached].
  destruct (pending_persist_survives_sweep edited_and_left (at_time 400)
              (at_time 5300) "d1" (room_of edited_and_left "d1") 5000
              edited_and_left_NoDup)
    as (Hgone & Hsilent & Hstored).
  - evaluate.
  - evaluate.
  - evaluate.
  - intros entry Hentry Hother. rewrite Hrooms in Hentry.
    apply list_elem_of_singleton in Hentry. by subst entry.
  - intros entry Hentry. rewrite Hdetached in Hentry. by apply elem_of_nil in Hentry.
  - cbn zeta. split_and!; [exact Hgone | by rewrite Hsilent |].
    rewrite Hstored. evaluate.
Defined.

Lemma heartbeat_is_silent_witness :
  (step two_members
     (message_received 1%nat (Some (frame "heartbeat")) (at_time 400))).2 = []
  ∧ (step two_members (pong_received 1%nat (at_time 400))).2 = []
  ∧ lastHeartbeatOf
      (step two_members (pong_received 1%nat (at_time 400))).1 "d1" 1%nat
    = Some 400.
Proof.
  destruct (heartbeat_is_silent two_members (at_time 400) 1%nat (frame "heartbeat")
              bob (room_of two_members "d1") bob_in_d1)
    as (Hframe & Hpong & _); [evaluate|].
  rewrite Hframe, Hpong. split_and!; [done | done | evaluate].
Defined.

Lemma reachable_rooms_paired_witness :
  NoDup (room_connections (room_of two_members "d1"))
  ∧ length (room_connections (room_of two_members "d1"))
    = length (room_presence (room_of two_members "d1")).
Proof.
  destruct (reachable_rooms_paired db ∅ None two_members "d1"
              (room_of two_members "d1") (scenario_reachable _) d1_room)
    as (_ & Hconns & Hsize & _).
  by split.
Defined.

Lemma persist_timer_fires_witness :
  let fired :=
    step edited_and_left
      (persist_timer_fired (room_id (room_of edited_and_left "d1")) (at_time 5300)) in
  fired.2 = []
  ∧ room_persistTimeout <$> JSMap.get "d1"%string (rooms fired.1) = Some None
  ∧ version_snapshot <$> documentVersions (prisma (storage fired.1))
    = ["abc"%string].
Proof.
  destruct (persist_timer_fires db ∅ None edited_and_left (at_time 5300) "d1"
              (room_of edited_and_left "d1") 5000 (scenario_reachable _))
    as (Hsilent & Hstored & Hroom & _); [evaluate | evaluate |].
  cbn zeta. rewrite Hsilent, Hstored, Hroom. split_and!; evaluate.
Defined.

Lemma two_members_sockets : NoDup (JSMap.keys (clients two_members)).
Proof. apply (bool_decide_unpack _). vm_compute. exact I. Qed.

Lemma sweeper_pings_witness :
  let result := step two_members (interval_elapsed (at_time 10120)) in
  Ping 1%nat ∈ result.2 ∧ ¬ (Ping 0%nat ∈ result.2).
Proof.
  destruct (sweeper_pings two_members (at_time 10120) 1%nat two_members_sockets)
    as (Hopen & _).
  destruct (sweeper_pings two_members (at_time 10120) 0%nat two_members_sockets)
    as (_ & Hterminated & _).
  cbn zeta. split.
  - apply Hopen. evaluate.
  - apply Hterminated. apply list_elem_of_In. vm_compute. tauto.
Defined.

Lemma join_in_two_halves_witness :
  let frame := join (JStr "d1") (JStr "token-alice") in
  let begun := step opened (join_begun 0%nat frame (at_time 100)) in
  begun.2 = []
  ∧ rooms begun.1 = []
  ∧ step begun.1 (load_returned 0 (at_time 100))
    = step opened (message_received 0%nat (Some frame) (at_time 100)).
Proof.
  destruct (join_in_two_halves opened (at_time 100) 0%nat
              (join (JStr "d1") (JStr "token-alice"))
              {| auth_userId := "alice"; auth_email := "alice@example.org" |}
              "owner" "d1")
    as (Hsilent & Hrooms & _ & _ & Hsame); [evaluate | evaluate | evaluate |].
  cbn zeta. split_and!; [exact Hsilent | exact Hrooms | exact Hsame].
Defined.
